(** * CodeKomnumB: logistic population growth integrated with RK4

    A shallow embedding of [codeKomnumB.c].  C [double] values are the
    kernel's binary64 floats ([PrimFloat.float]); every arithmetic operator of
    the source is the corresponding correctly rounded IEEE operation.  The C
    [int] type is taken to be 32 bits wide; a conversion or an increment whose
    result does not fit has no defined behaviour in C and is modelled by
    [None].  The library function [log] of <math.h> is a parameter of the
    analysis. *)

From Stdlib Require Import ZArith Bool List Lia Sorted.
From Stdlib Require Import Floats.
Import ListNotations.
Set Warnings "-inexact-float".
Open Scope float_scope.

(** ** Data model *)

(** [PopulationParams] of the source, field for field. *)
Record PopulationParams := {
  r : float;
  K : float;
  P0 : float;
  t_max : float;
  dt : float
}.

(** One iteration of the simulation loop: the loop counter and the four values
    the source formats on the console (when [i % 10 == 0]) and in the CSV file
    (every iteration). *)
Record Sample := {
  row_i : Z;
  row_t : float;
  row_P : float;
  growth_rate : float;
  percentage_K : float
}.

(** What [run_simulation] leaves behind: the rows in the order they were
    produced, the values of the local variables [t] and [P] when the loop is
    left, and whether the loop was left through the [break] that prints the
    capacity message (which carries [final_t]). *)
Record SimResult := {
  samples : list Sample;
  final_t : float;
  final_P : float;
  capacity_reached : bool
}.

(** What [analyze_model] prints: the two equilibria, the half-capacity time
    (computed always, printed only under the guard), and the maximum growth
    rate with the population at which it occurs. *)
Record Analysis := {
  equilibria : float * float;
  t_half : float;
  t_half_printed : bool;
  P_max_growth : float;
  max_growth_rate : float
}.

(** The values read by [scanf] in [main] and [input_parameters]. *)
Record Inputs := {
  choice : Z;
  scenario : Z;
  in_r : float;
  in_K : float;
  in_P0 : float;
  in_t_max : float;
  in_dt : float
}.

(** How a run of [main] ends. *)
Inductive Outcome :=
| InvalidParameter
| InvalidChoice
| ScenariosShown
| Completed (warned : bool) (a : Analysis) (s : SimResult).

(** ** The integrator *)

Definition logistic_growth (t P : float) (params : PopulationParams) : float :=
  params.(r) * P * (1 - P / params.(K)).

Definition runge_kutta_4 (t P dt : float) (params : PopulationParams) : float :=
  let k1 := dt * logistic_growth t P params in
  let k2 := dt * logistic_growth (t + dt / 2) (P + k1 / 2) params in
  let k3 := dt * logistic_growth (t + dt / 2) (P + k2 / 2) params in
  let k4 := dt * logistic_growth (t + dt) (P + k3) params in
  P + (k1 + 2 * k2 + 2 * k3 + k4) / 6.

(** The integrator contract as the specification words it, over an arbitrary
    derivative. *)
Definition step_spec (derivative : float -> float -> float) (t P dt : float) : float :=
  let k1 := dt * derivative t P in
  let k2 := dt * derivative (t + dt / 2) (P + k1 / 2) in
  let k3 := dt * derivative (t + dt / 2) (P + k2 / 2) in
  let k4 := dt * derivative (t + dt) (P + k3) in
  P + (k1 + 2 * k2 + 2 * k3 + k4) / 6.

(** ** Conversion from [double] to [int] *)

Definition INT_MIN : Z := -2147483648.
Definition INT_MAX : Z := 2147483647.

(** The integral part of a float, fraction discarded. *)
Definition SFtrunc (x : spec_float) : option Z :=
  match x with
  | S754_zero _ => Some 0%Z
  | S754_finite s m e =>
      Some (cond_Zopp s match e with
                        | Zneg p => Z.shiftr (Zpos m) (Zpos p)
                        | _ => Z.shiftl (Zpos m) e
                        end)
  | _ => None
  end.

(** The cast [(int) x]: defined only when the integral part fits in [int]. *)
Definition double_to_int (x : float) : option Z :=
  match SFtrunc (Prim2SF x) with
  | Some z => if ((INT_MIN <=? z) && (z <=? INT_MAX))%Z then Some z else None
  | None => None
  end.

(** ** The simulation driver *)

Definition make_row (params : PopulationParams) (i : Z) (t P : float) : Sample :=
  {| row_i := i; row_t := t; row_P := P;
     growth_rate := logistic_growth t P params;
     percentage_K := P / params.(K) * 100 |}.

(** The threshold test [P >= params->K * 0.999] on the population after the
    step taken from [(t, P)]. *)
Definition fires (params : PopulationParams) (t P : float) : bool :=
  params.(K) * 0.999 <=? runge_kutta_4 t P params.(dt) params.

(** The [for] loop with [remaining] iterations left to run, entered with loop
    counter [i] and state [(t, P)].  The increment [i++] executed with
    [i = INT_MAX] overflows. *)
Fixpoint sim_loop (params : PopulationParams) (remaining : nat) (i : Z) (t P : float)
  : option SimResult :=
  match remaining with
  | O => Some {| samples := []; final_t := t; final_P := P; capacity_reached := false |}
  | S n =>
      let P' := runge_kutta_4 t P params.(dt) params in
      let t' := t + params.(dt) in
      if params.(K) * 0.999 <=? P' then
        Some {| samples := [make_row params i t P];
                final_t := t'; final_P := P'; capacity_reached := true |}
      else if (i =? INT_MAX)%Z then None
      else
        match sim_loop params n (i + 1)%Z t' P' with
        | Some res =>
            Some {| samples := make_row params i t P :: samples res;
                    final_t := final_t res; final_P := final_P res;
                    capacity_reached := capacity_reached res |}
        | None => None
        end
  end.

Definition run_simulation (params : PopulationParams) : option SimResult :=
  match double_to_int (params.(t_max) / params.(dt)) with
  | Some steps => sim_loop params (Z.to_nat (steps + 1)) 0%Z 0 params.(P0)
  | None => None
  end.

(** The states the integrator visits from [(t, P)], as rows: the first [k]
    rows of the unbounded trajectory. *)
Fixpoint trajectory (params : PopulationParams) (k : nat) (i : Z) (t P : float)
  : list Sample :=
  match k with
  | O => []
  | S k' =>
      make_row params i t P
        :: trajectory params k' (i + 1)%Z (t + params.(dt))
             (runge_kutta_4 t P params.(dt) params)
  end.

(** ** The analyzer *)

Definition analyze_model (log : float -> float) (params : PopulationParams) : Analysis :=
  let t_half := log (params.(K) / params.(P0) - 1) / params.(r) in
  let P_max_growth := params.(K) / 2 in
  {| equilibria := (0, params.(K));
     t_half := t_half;
     t_half_printed := 0 <? t_half;
     P_max_growth := P_max_growth;
     max_growth_rate := params.(r) * P_max_growth * (1 - P_max_growth / params.(K)) |}.

(** ** Parameter entry and [main] *)

(** [input_parameters]: [None] is the [exit(1)] of the validation; otherwise
    the parameters and whether the warning was printed. *)
Definition input_parameters (inp : Inputs) : option (PopulationParams * bool) :=
  let params := {| r := inp.(in_r); K := inp.(in_K); P0 := inp.(in_P0);
                   t_max := inp.(in_t_max); dt := inp.(in_dt) |} in
  if (params.(r) <=? 0) || (params.(K) <=? 0) || (params.(P0) <=? 0)
     || (params.(t_max) <=? 0) || (params.(dt) <=? 0)
  then None
  else Some (params, params.(K) <=? params.(P0)).

Definition preset (scenario : Z) : option PopulationParams :=
  match scenario with
  | 1%Z => Some {| r := 0.5; K := 1000; P0 := 10; t_max := 50; dt := 0.1 |}
  | 2%Z => Some {| r := 0.03; K := 100000; P0 := 5000; t_max := 200; dt := 0.1 |}
  | 3%Z => Some {| r := 0.2; K := 500; P0 := 20; t_max := 50; dt := 0.1 |}
  | _ => None
  end.

(** [analyze_model] followed by [run_simulation], as at the end of [main]. *)
Definition analyze_then_run (log : float -> float) (warned : bool)
    (params : PopulationParams) : option Outcome :=
  let a := analyze_model log params in
  match run_simulation params with
  | Some s => Some (Completed warned a s)
  | None => None
  end.

Definition main (log : float -> float) (inp : Inputs) : option Outcome :=
  match inp.(choice) with
  | 1%Z =>
      match input_parameters inp with
      | None => Some InvalidParameter
      | Some (params, warned) => analyze_then_run log warned params
      end
  | 2%Z =>
      match preset inp.(scenario) with
      | Some params => analyze_then_run log false params
      | None => Some InvalidChoice
      end
  | 3%Z => Some ScenariosShown
  | _ => Some InvalidChoice
  end.

Definition exit_code (o : Outcome) : Z :=
  match o with
  | InvalidParameter | InvalidChoice => 1
  | ScenariosShown | Completed _ _ _ => 0
  end.

Definition analysis_of (o : Outcome) : option Analysis :=
  match o with
  | Completed _ a _ => Some a
  | _ => None
  end.

Definition simulation_of (o : Outcome) : option SimResult :=
  match o with
  | Completed _ _ s => Some s
  | _ => None
  end.

(** All five parameters strictly positive. *)
Definition valid_params (params : PopulationParams) : bool :=
  (0 <? params.(r)) && (0 <? params.(K)) && (0 <? params.(P0))
  && (0 <? params.(t_max)) && (0 <? params.(dt)).

(** The inputs of a manual entry of [params]. *)
Definition manual_inputs (params : PopulationParams) : Inputs :=
  {| choice := 1; scenario := 0; in_r := params.(r); in_K := params.(K);
     in_P0 := params.(P0); in_t_max := params.(t_max); in_dt := params.(dt) |}.

(** A stand-in for [log] that has its special values and its sign (positive
    above 1, zero at 1, negative below), for running the analysis on concrete
    inputs. *)
Definition log_sign (x : float) : float :=
  if 1 <? x then (if x =? infinity then infinity else 1)
  else if x =? 1 then 0
  else if 0 <? x then -1
  else if x =? 0 then neg_infinity
  else nan.

(** ** Parameter sets used below *)

(** The first preset of [main]. *)
Definition bacteria : PopulationParams :=
  {| r := 0.5; K := 1000; P0 := 10; t_max := 50; dt := 0.1 |}.

(** Four steps of size 0.5, starting close to the capacity. *)
Definition short_run : PopulationParams :=
  {| r := 1; K := 1000; P0 := 900; t_max := 2; dt := 0.5 |}.

(** A quotient [t_max / dt] of [1e20]. *)
Definition overflowing_run : PopulationParams :=
  {| r := 0.5; K := 1000; P0 := 10; t_max := 1e10; dt := 1e-10 |}.

(** A step four times the time scale [1 / r]. *)
Definition coarse_run : PopulationParams :=
  {| r := 1; K := 1000; P0 := 10; t_max := 50; dt := 4 |}.

(** A step so small that the increment is lost in the rounding of [P]. *)
Definition minute_step : PopulationParams :=
  {| r := 0.5; K := 1000; P0 := 10; t_max := 1e-29; dt := 1e-30 |}.

(** A product [r * K] beyond the largest double. *)
Definition overflowing_rate : PopulationParams :=
  {| r := 1e200; K := 1e200; P0 := 10; t_max := 50; dt := 0.1 |}.

(** An initial population above the capacity. *)
Definition crowded_run : PopulationParams :=
  {| r := 0.1; K := 500; P0 := 600; t_max := 10; dt := 0.5 |}.

(** An infinite growth rate, which the validation accepts. *)
Definition infinite_rate : PopulationParams :=
  {| r := infinity; K := 4; P0 := 1; t_max := 50; dt := 0.1 |}.

(** The smallest positive double as capacity. *)
Definition tiny_capacity : PopulationParams :=
  {| r := 4; K := 0x1p-1074; P0 := 0x1p-1074; t_max := 50; dt := 0.1 |}.

(** ** Checking that a list is sorted *)

Fixpoint sortedb {A : Type} (lt : A -> A -> bool) (l : list A) : bool :=
  match l with
  | [] => true
  | a :: l' =>
      match l' with
      | [] => true
      | b :: _ => lt a b && sortedb lt l'
      end
  end.

(** ** Classes of floats *)

(** [x] is a zero of either sign. *)
Definition Zr (x : float) : Prop := exists s, Prim2SF x = S754_zero s.

(** [x] is finite and not zero. *)
Definition Fin (x : float) : Prop := exists s m e, Prim2SF x = S754_finite s m e.

(** ** Shifting with sticky bits *)

(** After [k] shifts the mantissa is the quotient by [2 ^ k]; the round and
    sticky bits are clear whenever nothing but zeros was shifted out of an
    exact value. *)
Definition shr_inv (m : Z) (l : location) (k : Z) (mrs : shr_record) : Prop :=
  shr_m mrs = (m / 2 ^ k)%Z
  /\ ((m mod 2 ^ k)%Z = 0%Z -> l = loc_Exact -> shr_r mrs = false /\ shr_s mrs = false).

(** ** What [run_simulation] prints *)

(** The things written by [run_simulation]: to the console the banner with
    the parameters, the table header, a table row and the two closing
    messages; to [population_data.csv] its header line and a line per row.
    Each carries the values passed to [printf] or [fprintf]; their decimal
    rendering is left out. *)
Inductive Output :=
| Banner (b_r b_K b_P0 b_dt : float)
| TableHeader
| CsvHeader
| ConsoleRow (t P rate percentage : float)
| CsvRow (t P rate percentage : float)
| CapacityMessage (t : float)
| SavedMessage.

(** The two writes of one iteration: the console row under [i % 10 == 0],
    the file line under [output_file != NULL]. *)
Definition row_output (file_open : bool) (s : Sample) : list Output :=
  (if (Z.rem s.(row_i) 10 =? 0)%Z
   then [ConsoleRow s.(row_t) s.(row_P) s.(growth_rate) s.(percentage_K)] else [])
  ++ (if file_open
      then [CsvRow s.(row_t) s.(row_P) s.(growth_rate) s.(percentage_K)] else []).

(** The output of the [for] loop; [file_open] is whether [fopen] succeeded. *)
Fixpoint loop_output (params : PopulationParams) (file_open : bool) (remaining : nat)
    (i : Z) (t P : float) : option (list Output) :=
  match remaining with
  | O => Some []
  | S n =>
      let out := row_output file_open (make_row params i t P) in
      let P' := runge_kutta_4 t P params.(dt) params in
      let t' := t + params.(dt) in
      if params.(K) * 0.999 <=? P' then Some (out ++ [CapacityMessage t'])
      else if (i =? INT_MAX)%Z then None
      else match loop_output params file_open n (i + 1)%Z t' P' with
           | Some rest => Some (out ++ rest)
           | None => None
           end
  end.

Definition run_simulation_output (params : PopulationParams) (file_open : bool)
  : option (list Output) :=
  match double_to_int (params.(t_max) / params.(dt)) with
  | Some steps =>
      match loop_output params file_open (Z.to_nat (steps + 1)) 0%Z 0 params.(P0) with
      | Some body =>
          Some ([Banner params.(r) params.(K) params.(P0) params.(dt); TableHeader]
                ++ (if file_open then [CsvHeader] else [])
                ++ body
                ++ (if file_open then [SavedMessage] else []))
      | None => None
      end
  | None => None
  end.

(** Whether an output goes to the console rather than to the file. *)
Definition on_console (o : Output) : bool :=
  match o with
  | CsvHeader | CsvRow _ _ _ _ => false
  | _ => true
  end.

(** The columns of a row as they are printed. *)
Definition columns (s : Sample) : float * float * float * float :=
  (s.(row_t), s.(row_P), s.(growth_rate), s.(percentage_K)).

Definition console_rows (out : list Output) : list (float * float * float * float) :=
  flat_map (fun o => match o with
                     | ConsoleRow t P g p => [(t, P, g, p)]
                     | _ => []
                     end) out.

Definition csv_rows (out : list Output) : list (float * float * float * float) :=
  flat_map (fun o => match o with
                     | CsvRow t P g p => [(t, P, g, p)]
                     | _ => []
                     end) out.

(** Whether the loop counter of a row is a multiple of ten. *)
Definition tenth (s : Sample) : bool := (Z.rem s.(row_i) 10 =? 0)%Z.

(** A run in which the population is not a number. *)
Definition undefined_population : PopulationParams :=
  {| r := 0.5; K := 1000; P0 := nan; t_max := 2; dt := 0.5 |}.

(** A run that starts at the capacity. *)
Definition saturated_run : PopulationParams :=
  {| r := 0.5; K := 1000; P0 := 1000; t_max := 50; dt := 0.1 |}.

(** The output of the loop is the rows of its result, each written as
    [row_output] does, followed by the capacity message when the loop was left
    through the [break]. *)
Definition render_loop (file_open : bool) (res : SimResult) : list Output :=
  flat_map (row_output file_open) (samples res)
  ++ (if capacity_reached res then [CapacityMessage (final_t res)] else []).

(** The whole output of a run with result [res]. *)
Definition render (params : PopulationParams) (file_open : bool) (res : SimResult)
  : list Output :=
  [Banner params.(r) params.(K) params.(P0) params.(dt); TableHeader]
  ++ (if file_open then [CsvHeader] else [])
  ++ render_loop file_open res
  ++ (if file_open then [SavedMessage] else []).

(** A value that the validation of [input_parameters] lets through: above
    zero, or not a number (the test [x != x]). *)
Definition positive_or_nan (x : float) : bool := (0 <? x) || negb (x =? x).

(** A run without end: an infinite [t_max], which the validation accepts. *)
Definition endless_run : PopulationParams :=
  {| r := 0.5; K := 1000; P0 := 10; t_max := infinity; dt := 0.1 |}.

(** The largest step count an [int] holds, started at the threshold. *)
Definition longest_run : PopulationParams :=
  {| r := 0.5; K := 1000; P0 := 999; t_max := 2147483647; dt := 1 |}.

(** A run that reaches the threshold in its tenth iteration. *)
Definition ripening_run : PopulationParams :=
  {| r := 1; K := 1000; P0 := 900; t_max := 10; dt := 0.5 |}.

(** ** The order of floats *)

(** The position of a float on the number line as an integer: the binary64
    encoding read as a sign-magnitude number.  [None] for NaN. *)
Definition SFkey (x : spec_float) : option Z :=
  match x with
  | S754_nan => None
  | S754_zero _ => Some 0%Z
  | S754_infinity s => Some (cond_Zopp s (2048 * 2 ^ 53)%Z)
  | S754_finite s m e => Some (cond_Zopp s ((e + 1075) * 2 ^ 53 + Zpos m)%Z)
  end.

Definition fkey (x : float) : option Z := SFkey (Prim2SF x).

(** * Binary64 arithmetic

    Facts on the operations of [SpecFloat] at [prec = 53], [emax = 1024],
    which specify the primitive floats. *)
Module Binary64.
Local Open Scope Z_scope.

(** ** Number of binary digits *)

Lemma digits2_pos_bounds :
  forall m : positive,
    2 ^ (Zpos (digits2_pos m) - 1) <= Zpos m < 2 ^ Zpos (digits2_pos m).
Proof.
  induction m as [m IH | m IH |]; simpl digits2_pos.
  - rewrite Pos2Z.inj_succ, Z.pow_succ_r by lia.
    replace (Z.succ (Zpos (digits2_pos m)) - 1) with (Z.succ (Zpos (digits2_pos m) - 1)) by lia.
    rewrite Z.pow_succ_r by lia. lia.
  - rewrite Pos2Z.inj_succ, Z.pow_succ_r by lia.
    replace (Z.succ (Zpos (digits2_pos m)) - 1) with (Z.succ (Zpos (digits2_pos m) - 1)) by lia.
    rewrite Z.pow_succ_r by lia. lia.
  - simpl. lia.
Qed.

Lemma Zdigits2_bounds :
  forall m, 0 < m -> 2 ^ (Zdigits2 m - 1) <= m < 2 ^ Zdigits2 m.
Proof.
  intros [|m|m] H; try lia. apply digits2_pos_bounds.
Qed.

Lemma Zdigits2_nonneg : forall m, 0 <= Zdigits2 m.
Proof. intros [|m|m]; simpl; lia. Qed.

Lemma Zdigits2_pos : forall m, 0 < m -> 0 < Zdigits2 m.
Proof. intros [|m|m] H; simpl; lia. Qed.

(** [Zdigits2] is characterised by its bounds. *)
Lemma Zdigits2_unique :
  forall m d, 0 < d -> 2 ^ (d - 1) <= m < 2 ^ d -> Zdigits2 m = d.
Proof.
  intros m d Hd [Hlo Hhi].
  assert (Hm : 0 < m) by (pose proof (Z.pow_pos_nonneg 2 (d - 1)); lia).
  destruct (Zdigits2_bounds m Hm) as [Hlo' Hhi'].
  pose proof (Zdigits2_pos m Hm) as Hp.
  assert (d - 1 < Zdigits2 m).
  { apply (Z.pow_lt_mono_r_iff 2); lia. }
  assert (Zdigits2 m - 1 < d).
  { apply (Z.pow_lt_mono_r_iff 2); lia. }
  lia.
Qed.

Lemma Zdigits2_le :
  forall m n, 0 < m -> m <= n -> Zdigits2 m <= Zdigits2 n.
Proof.
  intros m n Hm Hmn.
  destruct (Zdigits2_bounds m Hm) as [Hlo _].
  destruct (Zdigits2_bounds n ltac:(lia)) as [_ Hhi].
  pose proof (Zdigits2_pos n ltac:(lia)).
  assert (Zdigits2 m - 1 < Zdigits2 n).
  { apply (Z.pow_lt_mono_r_iff 2); lia. }
  lia.
Qed.

(** ** The format *)

Lemma fexp_eq : forall k, fexp prec emax k = Z.max (k - 53) (-1074).
Proof. reflexivity. Qed.

Lemma fexp_mono : forall a b, a <= b -> fexp prec emax a <= fexp prec emax b.
Proof. intros a b H. rewrite !fexp_eq. lia. Qed.

Lemma bounded_inv :
  forall m e,
    bounded prec emax m e = true ->
    -1074 <= e <= 971
    /\ Zpos (digits2_pos m) <= 53
    /\ (-1074 < e -> Zpos (digits2_pos m) = 53)
    /\ e = fexp prec emax (Zpos (digits2_pos m) + e).
Proof.
  intros m e H. unfold bounded, canonical_mantissa in H.
  apply andb_prop in H. destruct H as [H1 H2].
  apply Z.eqb_eq in H1. apply Z.leb_le in H2.
  rewrite fexp_eq in H1. change (emax - prec) with 971 in H2.
  rewrite fexp_eq. lia.
Qed.

Lemma bounded_lt_pow :
  forall m e, bounded prec emax m e = true -> Zpos m < 2 ^ 53.
Proof.
  intros m e H. destruct (bounded_inv m e H) as (_ & Hd & _).
  destruct (digits2_pos_bounds m) as [_ Hhi].
  apply Z.lt_le_trans with (1 := Hhi). apply Z.pow_le_mono_r; lia.
Qed.

Lemma bounded_normal :
  forall m e, bounded prec emax m e = true -> -1074 < e -> 2 ^ 52 <= Zpos m.
Proof.
  intros m e H He. destruct (bounded_inv m e H) as (_ & _ & Hd & _).
  destruct (digits2_pos_bounds m) as [Hlo _].
  rewrite (Hd He) in Hlo. exact Hlo.
Qed.

(** ** Shifting right with sticky bits *)

Lemma iter_pos_invariant :
  forall (A : Type) (f : A -> A) (Inv : Z -> A -> Prop),
    (forall k x, 0 <= k -> Inv k x -> Inv (k + 1) (f x)) ->
    forall p x k, 0 <= k -> Inv k x -> Inv (k + Zpos p) (iter_pos f p x).
Proof.
  intros A f Inv Hstep.
  induction p as [p IH | p IH |]; intros x k Hk Hx; simpl.
  - replace (k + Zpos p~1) with (k + 1 + Zpos p + Zpos p) by lia.
    apply IH; [lia|]. apply IH; [lia|]. now apply Hstep.
  - replace (k + Zpos p~0) with (k + Zpos p + Zpos p) by lia.
    apply IH; [lia|]. now apply IH.
  - now apply Hstep.
Qed.

Lemma shr_1_spec :
  forall m r s,
    0 <= m ->
    shr_1 {| shr_m := m; shr_r := r; shr_s := s |}
    = {| shr_m := m / 2; shr_r := Z.odd m; shr_s := r || s |}.
Proof.
  intros [|[p|p|]|p] r s Hm; try lia; simpl shr_1.
  - reflexivity.
  - f_equal. apply Z.div_unique with 1; lia.
  - f_equal. apply Z.div_unique with 0; lia.
  - reflexivity.
Qed.

Lemma shr_inv_init :
  forall m l, shr_inv m l 0 (shr_record_of_loc m l).
Proof.
  intros m l. split.
  - rewrite Z.pow_0_r, Z.div_1_r. now destruct l as [|[| |]].
  - intros _ ->. split; reflexivity.
Qed.

Lemma shr_inv_step :
  forall m l, 0 <= m ->
    forall k x, 0 <= k -> shr_inv m l k x -> shr_inv m l (k + 1) (shr_1 x).
Proof.
  intros m l Hm k [mx rx sx] Hk [Hq Hex]. simpl in Hq, Hex.
  assert (Hpow : 2 ^ (k + 1) = 2 ^ k * 2) by (rewrite Z.pow_add_r by lia; reflexivity).
  assert (Hp : 0 < 2 ^ k) by (apply Z.pow_pos_nonneg; lia).
  assert (Hmx : 0 <= mx) by (subst mx; apply Z.div_pos; lia).
  rewrite shr_1_spec by exact Hmx. split; simpl.
  - rewrite Hq, Hpow, Z.div_div by lia. reflexivity.
  - intros Hmod Hl.
    assert (Hdiv : m = 2 ^ k * 2 * (m / (2 ^ k * 2))).
    { rewrite <- Hpow. pose proof (Z.div_mod m (2 ^ (k + 1))). lia. }
    assert (Hmod' : m mod 2 ^ k = 0).
    { rewrite Hdiv. rewrite <- Z.mul_assoc, Z.mul_comm. apply Z.mod_mul. lia. }
    destruct (Hex Hmod' Hl) as [-> ->]. split; [|reflexivity].
    rewrite Hq. rewrite Hdiv at 1.
    rewrite <- Z.mul_assoc, Z.mul_comm, Z.div_mul by lia.
    rewrite Z.odd_mul. reflexivity.
Qed.

Lemma shr_spec :
  forall m l e n,
    0 <= m ->
    let '(mrs, e') := shr (shr_record_of_loc m l) e n in
    e' = e + Z.max 0 n /\ shr_inv m l (Z.max 0 n) mrs.
Proof.
  intros m l e [|p|p] Hm; simpl shr.
  - split; [lia|]. apply shr_inv_init.
  - split; [lia|]. change (Z.max 0 (Zpos p)) with (0 + Zpos p).
    apply (iter_pos_invariant _ shr_1 (shr_inv m l) (shr_inv_step m l Hm)); [lia|].
    apply shr_inv_init.
  - split; [lia|]. apply shr_inv_init.
Qed.

Lemma loc_of_shr_record_exact :
  forall mrs, shr_r mrs = false -> shr_s mrs = false -> loc_of_shr_record mrs = loc_Exact.
Proof. intros [m r s]; simpl; intros -> ->; reflexivity. Qed.

Lemma round_nearest_even_bounds :
  forall m l, m <= round_nearest_even m l <= m + 1.
Proof.
  intros m [|[| |]]; simpl; try lia. destruct (Z.even m); lia.
Qed.

Lemma round_nearest_even_exact :
  forall m, round_nearest_even m loc_Exact = m.
Proof. reflexivity. Qed.

(** ** Rounding to nearest *)

Lemma shr_fexp_spec :
  forall m e l,
    0 <= m ->
    let '(mrs, e1) := shr_fexp prec emax m e l in
    e1 = Z.max e (fexp prec emax (Zdigits2 m + e))
    /\ shr_m mrs = m / 2 ^ (e1 - e)
    /\ (m mod 2 ^ (e1 - e) = 0 -> l = loc_Exact -> loc_of_shr_record mrs = loc_Exact).
Proof.
  intros m e l Hm. unfold shr_fexp.
  pose proof (shr_spec m l e (fexp prec emax (Zdigits2 m + e) - e) Hm) as H.
  destruct (shr _ e _) as [mrs e1]. destruct H as [-> [Hq Hex]].
  replace (e + Z.max 0 (fexp prec emax (Zdigits2 m + e) - e) - e)
    with (Z.max 0 (fexp prec emax (Zdigits2 m + e) - e)) by lia.
  split; [lia|]. split; [exact Hq|].
  intros H1 H2. destruct (Hex H1 H2). now apply loc_of_shr_record_exact.
Qed.

(** The result of [binary_round_aux] on a non-negative mantissa, in terms of
    integer division: [m2] is the mantissa after the first shift and the
    rounding, [m3] and [e3] are the final mantissa and exponent. *)
Lemma binary_round_aux_spec :
  forall s m e l,
    0 <= m ->
    exists m2 e1 e3,
      e1 = Z.max e (fexp prec emax (Zdigits2 m + e))
      /\ m / 2 ^ (e1 - e) <= m2 <= m / 2 ^ (e1 - e) + 1
      /\ (m mod 2 ^ (e1 - e) = 0 -> l = loc_Exact -> m2 = m / 2 ^ (e1 - e))
      /\ e3 = Z.max e1 (fexp prec emax (Zdigits2 m2 + e1))
      /\ binary_round_aux prec emax s m e l
         = match m2 / 2 ^ (e3 - e1) with
           | 0 => S754_zero s
           | Zpos p => if e3 <=? 971 then S754_finite s p e3 else S754_infinity s
           | Zneg _ => S754_nan
           end.
Proof.
  intros s m e l Hm. unfold binary_round_aux.
  pose proof (shr_fexp_spec m e l Hm) as H1.
  destruct (shr_fexp prec emax m e l) as [mrs1 e1]. destruct H1 as (He1 & Hm1 & Hex1).
  set (m2 := round_nearest_even (shr_m mrs1) (loc_of_shr_record mrs1)).
  assert (Hb : shr_m mrs1 <= m2 <= shr_m mrs1 + 1) by apply round_nearest_even_bounds.
  assert (Hm1' : 0 <= shr_m mrs1).
  { rewrite Hm1. apply Z.div_pos; [lia|]. apply Z.pow_pos_nonneg; lia. }
  pose proof (shr_fexp_spec m2 e1 loc_Exact ltac:(lia)) as H2.
  destruct (shr_fexp prec emax m2 e1 loc_Exact) as [mrs3 e3]. destruct H2 as (He3 & Hm3 & _).
  exists m2, e1, e3. split; [exact He1|]. rewrite <- Hm1. split; [exact Hb|].
  split.
  { intros H H'. unfold m2. rewrite (Hex1 H H'). reflexivity. }
  split; [exact He3|].
  rewrite Hm3. reflexivity.
Qed.

(** Comparison of two positive finite floats. *)
Lemma SFleb_finite :
  forall m1 e1 m2 e2,
    e1 < e2 \/ (e1 = e2 /\ Zpos m1 <= Zpos m2) ->
    SFleb (S754_finite false m1 e1) (S754_finite false m2 e2) = true.
Proof.
  intros m1 e1 m2 e2 H. unfold SFleb, SFcompare.
  destruct (Z.compare_spec e1 e2) as [He | He | He]; try reflexivity; try lia.
  rewrite Pos.compare_cont_spec; simpl.
  destruct (Pos.compare_spec m1 m2) as [Hm | Hm | Hm]; try reflexivity. lia.
Qed.

Lemma pow2_pos : forall k, 0 <= k -> 0 < 2 ^ k.
Proof. intros k Hk. apply Z.pow_pos_nonneg; lia. Qed.

Lemma pow2_split : forall a b, 0 <= a -> 0 <= b -> 2 ^ (a + b) = 2 ^ a * 2 ^ b.
Proof. intros a b Ha Hb. apply Z.pow_add_r; assumption. Qed.

(** *** Rounding does not jump over a representable number

    [binary_round_aux] is given a mantissa [m] at exponent [e] and the
    position [l] of the exact value in [[m, m+1)].  If the exact value is at
    most the float [mf * 2 ^ ef], so is the rounded result. *)
Lemma binary_round_aux_le :
  forall m e l mf ef,
    0 <= m ->
    bounded prec emax mf ef = true ->
    e <= ef ->
    m < Zpos mf * 2 ^ (ef - e) \/ (m = Zpos mf * 2 ^ (ef - e) /\ l = loc_Exact) ->
    SFleb (binary_round_aux prec emax false m e l) (S754_finite false mf ef) = true.
Proof.
  intros m e l mf ef Hm Hbf Hle Hval.
  destruct (bounded_inv mf ef Hbf) as (Hef & Hdf & Hnf & Hcf).
  pose proof (bounded_lt_pow mf ef Hbf) as Hmf.
  destruct (digits2_pos_bounds mf) as [_ Hmfd].
  destruct (binary_round_aux_spec false m e l Hm) as (m2 & e1 & e3 & He1 & Hm2 & Hex & He3 & ->).
  (* the first shift stops at or below the exponent of the bound *)
  assert (H1 : e1 <= ef).
  { rewrite He1. apply Z.max_lub; [exact Hle|].
    destruct (Z.eq_dec m 0) as [-> | Hm0].
    - simpl Zdigits2. rewrite fexp_eq. lia.
    - rewrite Hcf. apply fexp_mono.
      destruct (Zdigits2_bounds m ltac:(lia)) as [Hlo _].
      assert (Hlt : 2 ^ (Zdigits2 m - 1) < 2 ^ (Zpos (digits2_pos mf) + (ef - e))).
      { rewrite pow2_split by lia. pose proof (pow2_pos (ef - e)). nia. }
      apply Z.pow_lt_mono_r_iff in Hlt; lia. }
  assert (He1e : e <= e1) by lia.
  set (n1 := e1 - e) in *.
  assert (Hn1 : 0 <= n1) by (unfold n1; lia).
  (* the rounded mantissa stays below the bound scaled to [e1] *)
  assert (Hsplit : 2 ^ (ef - e) = 2 ^ (ef - e1) * 2 ^ n1).
  { rewrite <- pow2_split by lia. f_equal. unfold n1. lia. }
  pose proof (pow2_pos n1 Hn1) as Hp1.
  pose proof (pow2_pos (ef - e1) ltac:(lia)) as Hpf.
  assert (H2 : m2 <= Zpos mf * 2 ^ (ef - e1)).
  { destruct Hval as [Hlt | [Heq Hl]].
    - assert (m / 2 ^ n1 < Zpos mf * 2 ^ (ef - e1)).
      { apply Z.div_lt_upper_bound; [lia|]. rewrite Hsplit in Hlt. lia. }
      lia.
    - rewrite Hex; [|  | exact Hl].
      + rewrite Heq, Hsplit, Z.mul_assoc, Z.div_mul by lia. lia.
      + rewrite Heq, Hsplit, Z.mul_assoc. apply Z.mod_mul. lia. }
  assert (Hm2' : 0 <= m2).
  { pose proof (Z.div_pos m (2 ^ n1) Hm Hp1). lia. }
  assert (He3e : e1 <= e3) by lia.
  set (n2 := e3 - e1) in *.
  assert (Hn2 : 0 <= n2) by (unfold n2; lia).
  pose proof (pow2_pos n2 Hn2) as Hp2.
  pose proof (Z.mul_div_le m2 (2 ^ n2) Hp2) as Hfloor.
  destruct (m2 / 2 ^ n2) as [|p|p] eqn:Hm3.
  - reflexivity.
  - (* a final exponent above [ef] would need a full mantissa *)
    assert (Hcontra : ef < e3 -> False).
    { intros Hgt.
      assert (Hm2pos : 0 < m2) by lia.
      destruct (Zdigits2_bounds m2 Hm2pos) as [Hlo2 _].
      assert (Hn2d : n2 = Zdigits2 m2 - 53).
      { pose proof (fexp_eq (Zdigits2 m2 + e1)) as Hfe. unfold n2. lia. }
      assert (H52 : 2 ^ 52 * 2 ^ n2 <= m2).
      { rewrite <- pow2_split by lia. replace (52 + n2) with (Zdigits2 m2 - 1) by lia.
        exact Hlo2. }
      assert (Hn2gt : ef - e1 + 1 <= n2) by (unfold n2; lia).
      assert (Hpw : 2 ^ (ef - e1 + 1) <= 2 ^ n2) by (apply Z.pow_le_mono_r; lia).
      rewrite pow2_split in Hpw by lia. change (2 ^ 1) with 2 in Hpw.
      change (2 ^ 53) with (2 ^ 52 * 2) in Hmf. nia. }
    destruct (e3 <=? 971) eqn:Hov.
    + apply SFleb_finite.
      destruct (Z.lt_trichotomy e3 ef) as [Hlt | [Heq | Hgt]]; [left; exact Hlt | | now destruct Hcontra].
      right. split; [exact Heq|].
      assert (ef - e1 = n2) by (unfold n2; lia).
      rewrite H in H2. nia.
    + apply Z.leb_gt in Hov. destruct Hcontra. lia.
  - pose proof (Z.div_pos m2 (2 ^ n2) Hm2' Hp2). lia.
Qed.

(** If the exact value is at least the float [mf * 2 ^ ef], so is the rounded
    result (which may be infinite). *)
Lemma binary_round_aux_ge :
  forall m e l mf ef,
    bounded prec emax mf ef = true ->
    e <= ef ->
    e <= fexp prec emax (Zdigits2 m + e) ->
    Zpos mf * 2 ^ (ef - e) <= m ->
    SFleb (S754_finite false mf ef) (binary_round_aux prec emax false m e l) = true.
Proof.
  intros m e l mf ef Hbf Hle Hcan Hval.
  destruct (bounded_inv mf ef Hbf) as (Hef & Hdf & Hnf & Hcf).
  destruct (digits2_pos_bounds mf) as [Hmfd _].
  pose proof (pow2_pos (ef - e) ltac:(lia)) as Hpe.
  assert (Hm : 0 < m) by nia.
  destruct (binary_round_aux_spec false m e l ltac:(lia))
    as (m2 & e1 & e3 & He1 & Hm2 & _ & He3 & ->).
  destruct (Zdigits2_bounds m Hm) as [Hlo Hhi].
  pose proof (Zdigits2_pos m Hm) as Hd.
  (* the magnitude of [m * 2 ^ e] is at least that of the bound *)
  assert (Hmag : Zpos (digits2_pos mf) + ef <= Zdigits2 m + e).
  { assert (Hlt : 2 ^ (Zpos (digits2_pos mf) - 1 + (ef - e)) < 2 ^ Zdigits2 m).
    { rewrite pow2_split by lia. nia. }
    apply Z.pow_lt_mono_r_iff in Hlt; lia. }
  assert (He1' : e1 = fexp prec emax (Zdigits2 m + e)) by lia.
  assert (H1 : ef <= e1).
  { rewrite He1', Hcf. now apply fexp_mono. }
  set (n1 := e1 - e) in *.
  assert (Hn1 : 0 <= n1) by (unfold n1; lia).
  pose proof (pow2_pos n1 Hn1) as Hp1.
  (* the first shift keeps the leading digit *)
  assert (Hn1d : n1 <= Zdigits2 m - 1).
  { unfold n1. rewrite He1', fexp_eq. lia. }
  assert (Hm1 : 1 <= m / 2 ^ n1).
  { apply Z.div_le_lower_bound; [lia|].
    apply Z.le_trans with (2 := Hlo). rewrite Z.mul_1_r. apply Z.pow_le_mono_r; lia. }
  assert (Hm2pos : 0 < m2) by lia.
  destruct (Zdigits2_bounds m2 Hm2pos) as [Hlo2 _].
  pose proof (Zdigits2_pos m2 Hm2pos) as Hd2.
  assert (He3e : e1 <= e3) by lia.
  set (n2 := e3 - e1) in *.
  assert (Hn2 : 0 <= n2) by (unfold n2; lia).
  pose proof (pow2_pos n2 Hn2) as Hp2.
  assert (Hn2d : n2 <= Zdigits2 m2 - 1).
  { pose proof (fexp_eq (Zdigits2 m2 + e1)) as Hfe.
    pose proof (fexp_eq (Zdigits2 m + e)) as Hfe'. unfold n2. lia. }
  assert (Hm3 : 1 <= m2 / 2 ^ n2).
  { apply Z.div_le_lower_bound; [lia|].
    apply Z.le_trans with (2 := Hlo2). rewrite Z.mul_1_r. apply Z.pow_le_mono_r; lia. }
  destruct (m2 / 2 ^ n2) as [|p|p] eqn:Hq; try lia.
  destruct (e3 <=? 971); [|reflexivity].
  apply SFleb_finite.
  destruct (Z.lt_trichotomy ef e3) as [Hlt | [Heq | Hgt]]; [left; exact Hlt | | lia].
  right. split; [exact Heq|].
  assert (Hn2z : n2 = 0) by (unfold n2; lia).
  rewrite Hn2z, Z.pow_0_r, Z.div_1_r in Hq.
  assert (Hn1e : n1 = ef - e) by (unfold n1; lia).
  assert (Zpos mf <= m / 2 ^ n1).
  { apply Z.div_le_lower_bound; [lia|]. rewrite Hn1e. lia. }
  lia.
Qed.

Lemma SFleb_finite_inv :
  forall m1 e1 m2 e2,
    SFleb (S754_finite false m1 e1) (S754_finite false m2 e2) = true ->
    e1 < e2 \/ (e1 = e2 /\ Zpos m1 <= Zpos m2).
Proof.
  intros m1 e1 m2 e2. unfold SFleb, SFcompare.
  destruct (Z.compare_spec e1 e2) as [He | He | He]; try discriminate; [|now left].
  rewrite Pos.compare_cont_spec; simpl.
  destruct (Pos.compare_spec m1 m2) as [Hm | Hm | Hm]; try discriminate; intros _; right; lia.
Qed.

(** For floats of the format, the order on (exponent, mantissa) is the order
    of the values [m * 2 ^ e], here compared at a common scale [c]. *)
Lemma SFleb_finite_value :
  forall m1 e1 m2 e2 c,
    bounded prec emax m1 e1 = true -> bounded prec emax m2 e2 = true ->
    SFleb (S754_finite false m1 e1) (S754_finite false m2 e2) = true ->
    c <= e1 -> c <= e2 ->
    Zpos m1 * 2 ^ (e1 - c) <= Zpos m2 * 2 ^ (e2 - c).
Proof.
  intros m1 e1 m2 e2 c H1 H2 Hle Hc1 Hc2.
  destruct (SFleb_finite_inv _ _ _ _ Hle) as [Hlt | [-> Hm]].
  - pose proof (bounded_lt_pow _ _ H1) as Hm1.
    destruct (bounded_inv _ _ H1) as (He1 & _).
    pose proof (bounded_normal _ _ H2 ltac:(lia)) as Hm2.
    replace (e2 - c) with ((e2 - e1 - 1) + 1 + (e1 - c)) by lia.
    rewrite !pow2_split by lia. change (2 ^ 1) with 2.
    pose proof (pow2_pos (e2 - e1 - 1) ltac:(lia)).
    pose proof (pow2_pos (e1 - c) ltac:(lia)).
    change (2 ^ 53) with (2 ^ 52 * 2) in Hm1.
    assert (Zpos m1 <= Zpos m2 * (2 ^ (e2 - e1 - 1) * 2)) by nia.
    rewrite Z.mul_assoc. apply Z.mul_le_mono_nonneg_r; lia.
  - pose proof (pow2_pos (e2 - c) ltac:(lia)). nia.
Qed.

(** ** Alignment to a smaller exponent *)

Lemma iter_xO_spec :
  forall m d, Zpos (Pos.iter xO m d) = Zpos m * 2 ^ Zpos d.
Proof.
  intros m d. induction d as [|d IH] using Pos.peano_ind.
  - simpl. lia.
  - rewrite Pos.iter_succ, Pos2Z.inj_xO, IH, Pos2Z.inj_succ, Z.pow_succ_r by lia. lia.
Qed.

Lemma shl_align_spec :
  forall mx ex ex',
    snd (shl_align mx ex ex') = Z.min ex ex'
    /\ Zpos (fst (shl_align mx ex ex')) = Zpos mx * 2 ^ (ex - Z.min ex ex').
Proof.
  intros mx ex ex'. unfold shl_align.
  destruct (ex' - ex) as [|d|d] eqn:Hd; cbn [fst snd].
  - replace (ex - Z.min ex ex') with 0 by lia. rewrite Z.pow_0_r. split; lia.
  - replace (ex - Z.min ex ex') with 0 by lia. rewrite Z.pow_0_r. split; lia.
  - rewrite iter_xO_spec. replace (ex - Z.min ex ex') with (Zpos d) by lia. split; lia.
Qed.

Lemma Zdigits2_mul_pow2 :
  forall m k, 0 < m -> 0 <= k -> Zdigits2 (m * 2 ^ k) = Zdigits2 m + k.
Proof.
  intros m k Hm Hk.
  destruct (Zdigits2_bounds m Hm) as [Hlo Hhi].
  pose proof (Zdigits2_pos m Hm). pose proof (pow2_pos k Hk).
  apply Zdigits2_unique; [lia|].
  replace (Zdigits2 m + k - 1) with (Zdigits2 m - 1 + k) by lia.
  rewrite !pow2_split by lia. nia.
Qed.

(** [binary_round] aligns an exact value and rounds it; both bounds carry
    over from [binary_round_aux]. *)
Lemma binary_round_le :
  forall M e mf ef,
    bounded prec emax mf ef = true ->
    e <= ef ->
    Zpos M <= Zpos mf * 2 ^ (ef - e) ->
    SFleb (binary_round prec emax false M e) (S754_finite false mf ef) = true.
Proof.
  intros M e mf ef Hbf Hle Hval. unfold binary_round.
  pose proof (shl_align_spec M e (fexp prec emax (Zpos (digits2_pos M) + e))) as [He Hm].
  destruct (shl_align M e _) as [mz ez]. cbn [fst snd] in He, Hm. subst ez.
  set (ez := Z.min e _) in *.
  assert (Hez : ez <= e) by (unfold ez; lia).
  apply binary_round_aux_le; [lia | exact Hbf | lia |].
  rewrite Hm. replace (ef - ez) with (ef - e + (e - ez)) by lia.
  rewrite pow2_split by lia. pose proof (pow2_pos (e - ez) ltac:(lia)) as Hp.
  destruct (Z.eq_dec (Zpos M) (Zpos mf * 2 ^ (ef - e))) as [Heq | Hne].
  - right. split; [rewrite Heq; lia | reflexivity].
  - left. nia.
Qed.

Lemma binary_round_ge :
  forall M e mf ef,
    bounded prec emax mf ef = true ->
    e <= ef ->
    Zpos mf * 2 ^ (ef - e) <= Zpos M ->
    SFleb (S754_finite false mf ef) (binary_round prec emax false M e) = true.
Proof.
  intros M e mf ef Hbf Hle Hval. unfold binary_round.
  pose proof (shl_align_spec M e (fexp prec emax (Zpos (digits2_pos M) + e))) as [He Hm].
  destruct (shl_align M e _) as [mz ez]. cbn [fst snd] in He, Hm. subst ez.
  set (ez := Z.min e _) in *.
  assert (Hez : ez <= e) by (unfold ez; lia).
  pose proof (pow2_pos (e - ez) ltac:(lia)) as Hp.
  apply binary_round_aux_ge; [exact Hbf | lia | |].
  - rewrite Hm, Zdigits2_mul_pow2 by lia.
    replace (Zdigits2 (Zpos M) + (e - ez) + ez) with (Zpos (digits2_pos M) + e)
      by (cbn [Zdigits2]; lia).
    unfold ez. lia.
  - rewrite Hm. replace (ef - ez) with (ef - e + (e - ez)) by lia.
    rewrite pow2_split by lia. nia.
Qed.

(** The sign of a rounded value is the sign given. *)
Lemma binary_round_aux_sign :
  forall s m e l,
    match binary_round_aux prec emax s m e l with
    | S754_zero s' | S754_infinity s' | S754_finite s' _ _ => s' = s
    | S754_nan => True
    end.
Proof.
  intros s m e l. unfold binary_round_aux.
  destruct (shr_fexp prec emax m e l) as [mrs1 e1].
  destruct (shr_fexp prec emax _ e1 loc_Exact) as [mrs3 e3].
  destruct (shr_m mrs3); [reflexivity | | exact I].
  destruct (e3 <=? emax - prec); reflexivity.
Qed.

Lemma binary_round_sign :
  forall s m e,
    match binary_round prec emax s m e with
    | S754_zero s' | S754_infinity s' | S754_finite s' _ _ => s' = s
    | S754_nan => True
    end.
Proof.
  intros s m e. unfold binary_round. destruct (shl_align m e _) as [mz ez].
  apply binary_round_aux_sign.
Qed.

(** ** The order of floats through their keys *)

Lemma SFcompare_key :
  forall x y,
    valid_binary x = true -> valid_binary y = true ->
    SFcompare x y = match SFkey x, SFkey y with
                    | Some a, Some b => Some (a ?= b)
                    | _, _ => None
                    end.
Proof.
  assert (Hlt : forall a b, a < b -> Lt = (a ?= b)) by (intros; symmetry; now apply Z.compare_lt_iff).
  assert (Hgt : forall a b, b < a -> Gt = (a ?= b)) by (intros; symmetry; now apply Z.compare_gt_iff).
  assert (Heq : forall a b, a = b -> Eq = (a ?= b)) by (intros; symmetry; now apply Z.compare_eq_iff).
  assert (H53 : 2 ^ 53 = 9007199254740992) by reflexivity.
  intros [sx|sx| |sx mx ex] [sy|sy| |sy my ey] Hx Hy; simpl in Hx, Hy;
    try (pose proof (bounded_lt_pow _ _ Hx) as Hmx; destruct (bounded_inv _ _ Hx) as (Hex & _));
    try (pose proof (bounded_lt_pow _ _ Hy) as Hmy; destruct (bounded_inv _ _ Hy) as (Hey & _));
    unfold SFcompare, SFkey, cond_Zopp; rewrite ?H53 in *;
    try reflexivity;
    try (destruct sx); try (destruct sy); f_equal;
    try (apply Hlt; lia); try (apply Hgt; lia); try (apply Heq; lia).
  - destruct (Z.compare_spec ex ey) as [He | He | He];
      [ | apply Hgt; lia | apply Hlt; lia ].
    rewrite Pos.compare_cont_spec; simpl. subst ey.
    destruct (Pos.compare_spec mx my) as [Hm | Hm | Hm]; simpl;
      [apply Heq | apply Hgt | apply Hlt]; lia.
  - destruct (Z.compare_spec ex ey) as [He | He | He];
      [ | apply Hlt; lia | apply Hgt; lia ].
    rewrite Pos.compare_cont_spec; simpl. subst ey.
    destruct (Pos.compare_spec mx my) as [Hm | Hm | Hm]; simpl;
      [apply Heq | apply Hlt | apply Hgt]; lia.
Qed.

Lemma ltb_key :
  forall x y : float,
    (x <? y)%float = match fkey x, fkey y with
                     | Some a, Some b => a <? b
                     | _, _ => false
                     end.
Proof.
  intros x y. rewrite ltb_spec. unfold SFltb, fkey.
  rewrite SFcompare_key by apply Prim2SF_valid.
  destruct (SFkey (Prim2SF x)) as [a|]; [|reflexivity].
  destruct (SFkey (Prim2SF y)) as [b|]; [|reflexivity].
  unfold Z.ltb. now destruct (a ?= b).
Qed.

Lemma leb_key :
  forall x y : float,
    (x <=? y)%float = match fkey x, fkey y with
                      | Some a, Some b => a <=? b
                      | _, _ => false
                      end.
Proof.
  intros x y. rewrite leb_spec. unfold SFleb, fkey.
  rewrite SFcompare_key by apply Prim2SF_valid.
  destruct (SFkey (Prim2SF x)) as [a|]; [|reflexivity].
  destruct (SFkey (Prim2SF y)) as [b|]; [|reflexivity].
  unfold Z.leb. now destruct (a ?= b).
Qed.

(** ** Facts on the binary64 operations *)

Lemma fkey_zero : fkey 0%float = Some 0.
Proof. reflexivity. Qed.

(** A float above zero is positive and finite, or plus infinity. *)
Lemma ltb_zero_inv :
  forall x : float,
    (0 <? x)%float = true ->
    Prim2SF x = S754_infinity false
    \/ exists m e, Prim2SF x = S754_finite false m e /\ bounded prec emax m e = true.
Proof.
  intros x H. rewrite ltb_spec in H. change (Prim2SF 0) with (S754_zero false) in H.
  pose proof (Prim2SF_valid x) as Hv.
  destruct (Prim2SF x) as [s|[|]| |[|] m e]; try discriminate H.
  - now left.
  - right. exists m, e. split; [reflexivity | exact Hv].
Qed.

Lemma leb_zero_inv :
  forall x : float,
    (0 <=? x)%float = true ->
    (exists s, Prim2SF x = S754_zero s)
    \/ Prim2SF x = S754_infinity false
    \/ exists m e, Prim2SF x = S754_finite false m e /\ bounded prec emax m e = true.
Proof.
  intros x H. rewrite leb_spec in H. change (Prim2SF 0) with (S754_zero false) in H.
  pose proof (Prim2SF_valid x) as Hv.
  destruct (Prim2SF x) as [s|[|]| |[|] m e]; try discriminate H.
  - left. now exists s.
  - right. now left.
  - right. right. exists m, e. split; [reflexivity | exact Hv].
Qed.

(** The threshold [x * 0.999] is never above [x]. *)
Lemma mul_0999_le :
  forall x : float, (0 <? x)%float = true -> (x * 0.999 <=? x)%float = true.
Proof.
  intros x H. rewrite leb_spec, mul_spec.
  change (Prim2SF 0.999) with (S754_finite false 8998192055486251 (-53)).
  destruct (ltb_zero_inv x H) as [-> | (m & e & -> & Hb)]; [reflexivity|].
  unfold SF64mul, SFmul. cbn [xorb].
  apply binary_round_aux_le; [lia | exact Hb | lia |].
  left. replace (e - (e + -53)) with 53 by lia.
  rewrite Pos2Z.inj_mul. change (2 ^ 53) with 9007199254740992. lia.
Qed.

(** Adding a positive step to a non-negative time does not decrease it. *)
Lemma add_pos_ge :
  forall t d : float,
    (0 <=? t)%float = true -> (0 <? d)%float = true -> (t <=? t + d)%float = true.
Proof.
  intros t d Ht Hd. rewrite leb_spec, add_spec.
  destruct (ltb_zero_inv d Hd) as [-> | (md & ed & -> & Hbd)];
    destruct (leb_zero_inv t Ht) as [[s ->] | [-> | (mt & et & -> & Hbt)]];
    try reflexivity.
  unfold SF64add, SFadd, cond_Zopp.
  destruct (shl_align_spec mt et (Z.min et ed)) as [_ Hmt].
  destruct (shl_align_spec md ed (Z.min et ed)) as [_ Hmd].
  set (ez := Z.min et ed) in *.
  replace (Z.min et ez) with ez in Hmt by (unfold ez; lia).
  replace (Z.min ed ez) with ez in Hmd by (unfold ez; lia).
  rewrite <- Pos2Z.inj_add. cbn [binary_normalize].
  apply binary_round_ge; [exact Hbt | unfold ez; lia |].
  rewrite Pos2Z.inj_add, Hmt. lia.
Qed.

(** ** Order reasoning *)

Lemma eqb_key :
  forall x y : float,
    (x =? y)%float = match fkey x, fkey y with
                     | Some a, Some b => a =? b
                     | _, _ => false
                     end.
Proof.
  intros x y. rewrite eqb_spec. unfold SFeqb, fkey.
  rewrite SFcompare_key by apply Prim2SF_valid.
  destruct (SFkey (Prim2SF x)) as [a|]; [|reflexivity].
  destruct (SFkey (Prim2SF y)) as [b|]; [|reflexivity].
  rewrite Z.eqb_compare. now destruct (a ?= b).
Qed.

(** Every comparison of floats becomes a comparison of keys. *)
Ltac float_order :=
  repeat match goal with
         | H : (_ <? _)%float = _ |- _ => revert H
         | H : (_ <=? _)%float = _ |- _ => revert H
         | H : (_ =? _)%float = _ |- _ => revert H
         end;
  rewrite ?ltb_key, ?leb_key, ?eqb_key;
  repeat match goal with
         | |- context [fkey ?x] =>
             lazymatch x with
             | _ _ => destruct (fkey x)
             | _ =>
                 tryif is_var x then destruct (fkey x)
                 else (let v := eval vm_compute in (fkey x) in change (fkey x) with v)
             end
         end;
  intros;
  repeat match goal with
         | H : (_ <? _)%Z = true |- _ => apply Z.ltb_lt in H
         | H : (_ <? _)%Z = false |- _ => apply Z.ltb_ge in H
         | H : (_ <=? _)%Z = true |- _ => apply Z.leb_le in H
         | H : (_ <=? _)%Z = false |- _ => apply Z.leb_gt in H
         | H : (_ =? _)%Z = true |- _ => apply Z.eqb_eq in H
         | H : (_ =? _)%Z = false |- _ => apply Z.eqb_neq in H
         end;
  try discriminate; try reflexivity;
  rewrite ?Z.ltb_lt, ?Z.leb_le, ?Z.ltb_ge, ?Z.leb_gt, ?Z.eqb_eq, ?Z.eqb_neq;
  try lia.

Lemma leb_trans :
  forall x y z : float,
    (x <=? y)%float = true -> (y <=? z)%float = true -> (x <=? z)%float = true.
Proof. intros x y z H1 H2. float_order. Qed.

Lemma leb_ltb_false :
  forall x y : float, (x <=? y)%float = true -> (y <? x)%float = false.
Proof. intros x y H. float_order. Qed.

Lemma ltb_leb :
  forall x y : float, (x <? y)%float = true -> (x <=? y)%float = true.
Proof. intros x y H. float_order. Qed.

Lemma threshold_below :
  forall k p : float,
    (0 <? k)%float = true -> (k * 0.999 <=? p)%float = false -> (k <? p)%float = false.
Proof.
  intros k p Hk Hp. pose proof (mul_0999_le k Hk) as H. float_order.
Qed.

(** The quotient of two positive floats is not negative. *)
Lemma div_pos_sign :
  forall x y : float,
    (0 <? x)%float = true -> (0 <? y)%float = true ->
    match Prim2SF (x / y) with
    | S754_zero _ | S754_nan => True
    | S754_infinity s | S754_finite s _ _ => s = false
    end.
Proof.
  intros x y Hx Hy. rewrite div_spec.
  destruct (ltb_zero_inv x Hx) as [-> | (mx & ex & -> & _)];
    destruct (ltb_zero_inv y Hy) as [-> | (my & ey & -> & _)]; try exact I; try reflexivity.
  unfold SF64div, SFdiv.
  destruct (SFdiv_core_binary prec emax (Zpos mx) ex (Zpos my) ey) as [[q e] l].
  pose proof (binary_round_aux_sign (xorb false false) q e l) as Hs.
  destruct (binary_round_aux prec emax (xorb false false) q e l); exact I || exact Hs.
Qed.

(** ** Signed zeros *)

Lemma is_finite_inv :
  forall x : float, is_finite x = true -> Zr x \/ Fin x.
Proof.
  intros x H. unfold is_finite, is_nan, is_infinity in H.
  rewrite !eqb_spec, abs_spec in H. unfold Zr, Fin.
  change (Prim2SF infinity) with (S754_infinity false) in H.
  destruct (Prim2SF x) as [s|[|]| |s m e]; try discriminate H.
  - left. now exists s.
  - right. now exists s, m, e.
Qed.

Lemma ltb_zero_finite :
  forall x : float, (0 <? x)%float = true -> is_finite x = true -> Fin x.
Proof.
  intros x H0 Hf. destruct (is_finite_inv x Hf) as [[s Hs] | H]; [|exact H].
  rewrite ltb_spec, Hs in H0. discriminate H0.
Qed.

Lemma Zr_zero : Zr 0%float.
Proof. now exists false. Qed.

Lemma mul_Zr_r :
  forall x z : float, is_finite x = true -> Zr z -> Zr (x * z)%float.
Proof.
  intros x z Hx [sz Hz]. unfold Zr. rewrite mul_spec, Hz.
  destruct (is_finite_inv x Hx) as [[s ->] | (s & m & e & ->)]; eexists; reflexivity.
Qed.

Lemma mul_Zr_l :
  forall z x : float, Zr z -> is_finite x = true -> Zr (z * x)%float.
Proof.
  intros z x [sz Hz] Hx. unfold Zr. rewrite mul_spec, Hz.
  destruct (is_finite_inv x Hx) as [[s ->] | (s & m & e & ->)]; eexists; reflexivity.
Qed.

Lemma div_Zr :
  forall z c : float, Zr z -> Fin c -> Zr (z / c)%float.
Proof.
  intros z c [sz Hz] (s & m & e & Hc). unfold Zr. rewrite div_spec, Hz, Hc.
  eexists; reflexivity.
Qed.

Lemma add_Zr :
  forall a b : float, Zr a -> Zr b -> Zr (a + b)%float.
Proof.
  intros a b [sa Ha] [sb Hb]. unfold Zr. rewrite add_spec, Ha, Hb.
  destruct sa, sb; eexists; reflexivity.
Qed.

Lemma add_Zr_r :
  forall x z : float, Fin x -> Zr z -> (x + z)%float = x.
Proof.
  intros x z (s & m & e & Hx) [sz Hz]. apply Prim2SF_inj.
  rewrite add_spec, Hx, Hz. reflexivity.
Qed.

Lemma add_zero_Zr :
  forall z : float, Zr z -> (0 + z)%float = 0%float.
Proof.
  intros z [sz Hz]. apply Prim2SF_inj. rewrite add_spec, Hz. now destruct sz.
Qed.

Lemma Fin_2 : Fin 2%float.
Proof. now exists false, 4503599627370496%positive, (-51). Qed.

Lemma Fin_6 : Fin 6%float.
Proof. now exists false, 6755399441055744%positive, (-50). Qed.

(** A finite non-zero float divided by itself is exactly one. *)
Lemma div_self :
  forall x : float, Fin x -> (x / x)%float = 1%float.
Proof.
  intros x (s & m & e & Hx). apply Prim2SF_inj. rewrite div_spec, Hx.
  unfold SF64div, SFdiv, SFdiv_core_binary.
  rewrite !Z.sub_diag. change (Z.min (fexp prec emax 0) 0) with (-53).
  change (0 - -53) with 53. cbv beta iota zeta.
  rewrite Z.shiftl_mul_pow2 by lia.
  assert (Hde : Z.div_eucl (Zpos m * 2 ^ 53) (Zpos m) = (2 ^ 53, 0)).
  { generalize (Z_div_mod (Zpos m * 2 ^ 53) (Zpos m) (Zgt_pos_0 m)).
    destruct (Z.div_eucl _ _) as [q r]. intros [H1 H2].
    set (c := 2 ^ 53) in *.
    assert (Hq : q = c) by nia. subst q. f_equal. lia. }
  rewrite Hde, xorb_nilpotent.
  assert (Hl : new_location (Zpos m) 0 = loc_Exact).
  { unfold new_location. destruct (Z.even (Zpos m)); reflexivity. }
  rewrite Hl. reflexivity.
Qed.

(** ** Division *)

Lemma new_location_zero : forall n, new_location n 0 = loc_Exact.
Proof. intros n. unfold new_location. destruct (Z.even n); reflexivity. Qed.

(** The quotient computed by [SFdiv_core_binary]: an exponent [e'], the
    quotient [q] of [mx * 2 ^ (ex - ey - e')] by [my], and its remainder. *)
Lemma SFdiv_core_binary_spec :
  forall mx ex my ey,
    exists q rm e',
      SFdiv_core_binary prec emax (Zpos mx) ex (Zpos my) ey = (q, e', new_location (Zpos my) rm)
      /\ e' = Z.min (fexp prec emax (Zpos (digits2_pos mx) + ex - (Zpos (digits2_pos my) + ey)))
                    (ex - ey)
      /\ Zpos mx * 2 ^ (ex - ey - e') = Zpos my * q + rm
      /\ 0 <= rm < Zpos my.
Proof.
  intros mx ex my ey. unfold SFdiv_core_binary.
  cbn [Zdigits2].
  set (e' := Z.min _ (ex - ey)).
  assert (Hs : 0 <= ex - ey - e') by (unfold e'; lia).
  set (m' := match ex - ey - e' with
             | 0 => Zpos mx
             | Zpos _ => Z.shiftl (Zpos mx) (ex - ey - e')
             | Zneg _ => 0
             end).
  assert (Hm' : m' = Zpos mx * 2 ^ (ex - ey - e')).
  { unfold m'. destruct (ex - ey - e') as [|p|p] eqn:E.
    - rewrite Z.pow_0_r. lia.
    - rewrite Z.shiftl_mul_pow2 by lia. reflexivity.
    - lia. }
  generalize (Z_div_mod m' (Zpos my) (Zgt_pos_0 my)).
  destruct (Z.div_eucl m' (Zpos my)) as [q rm]. intros [H1 H2].
  exists q, rm, e'. repeat split; try lia.
Qed.

(** If [x <= f * y] for positive floats of the format then the rounded
    quotient [x / y] is at most [f].  The hypothesis compares the values at
    any common scale [c]. *)
Lemma SFdiv_le :
  forall mx ex my ey mf ef,
    bounded prec emax mf ef = true ->
    (forall c, c <= ex -> c <= ef + ey ->
               Zpos mx * 2 ^ (ex - c) <= Zpos mf * Zpos my * 2 ^ (ef + ey - c)) ->
    SFleb (SFdiv prec emax (S754_finite false mx ex) (S754_finite false my ey))
          (S754_finite false mf ef) = true.
Proof.
  intros mx ex my ey mf ef Hbf Hval.
  destruct (bounded_inv mf ef Hbf) as (Hef & Hdf & Hnf & Hcf).
  destruct (digits2_pos_bounds mf) as [_ Hmf].
  destruct (digits2_pos_bounds mx) as [Hmx _].
  destruct (digits2_pos_bounds my) as [_ Hmy].
  unfold SFdiv.
  destruct (SFdiv_core_binary_spec mx ex my ey) as (q & rm & e' & -> & He' & Hq & Hrm).
  cbn [xorb].
  set (dx := Zpos (digits2_pos mx)) in *.
  set (dy := Zpos (digits2_pos my)) in *.
  set (df := Zpos (digits2_pos mf)) in *.
  (* magnitudes *)
  assert (Hmag : dx + ex - (dy + ey) <= df + ef).
  { set (c := Z.min ex (ef + ey)).
    pose proof (Hval c ltac:(unfold c; lia) ltac:(unfold c; lia)) as Hc.
    assert (Hlt : 2 ^ (dx - 1 + (ex - c)) < 2 ^ (df + dy + (ef + ey - c))).
    { rewrite !pow2_split by (unfold dx, dy, df, c; lia).
      pose proof (pow2_pos (ex - c) ltac:(unfold c; lia)).
      pose proof (pow2_pos (ef + ey - c) ltac:(unfold c; lia)).
      assert (Zpos mf * Zpos my < 2 ^ df * 2 ^ dy) by nia.
      nia. }
    apply Z.pow_lt_mono_r_iff in Hlt; [lia | lia | unfold dx, dy, df, c; lia]. }
  assert (He'f : e' <= ef).
  { rewrite He', Hcf. apply Z.le_trans with (1 := Z.le_min_l _ _). now apply fexp_mono. }
  assert (Hs : 0 <= ex - ey - e') by lia.
  pose proof (pow2_pos (ex - ey - e') Hs) as Hps.
  pose proof (pow2_pos (ef - e') ltac:(lia)) as Hpf.
  pose proof (Hval (ey + e') ltac:(lia) ltac:(lia)) as Hc.
  replace (ex - (ey + e')) with (ex - ey - e') in Hc by lia.
  replace (ef + ey - (ey + e')) with (ef - e') in Hc by lia.
  assert (Hq0 : 0 <= q) by nia.
  apply binary_round_aux_le; [exact Hq0 | exact Hbf | exact He'f |].
  set (N := Zpos mf * 2 ^ (ef - e')) in *.
  assert (HqN : Zpos my * q + rm <= N * Zpos my) by (unfold N; nia).
  assert (Hle : q <= N) by nia.
  destruct (Z.eq_dec q N) as [Heq | Hne].
  - right. split; [exact Heq|]. assert (rm = 0) by nia. subst rm. apply new_location_zero.
  - left. lia.
Qed.

(** ** Exact results *)

(** A value that already has the form of a float of the format is not
    changed by rounding. *)
Lemma binary_round_aux_exact :
  forall s m1 e1 e,
    e <= e1 ->
    e1 = fexp prec emax (Zpos (digits2_pos m1) + e1) ->
    binary_round_aux prec emax s (Zpos m1 * 2 ^ (e1 - e)) e loc_Exact
    = if e1 <=? 971 then S754_finite s m1 e1 else S754_infinity s.
Proof.
  intros s m1 e1 e Hle Hcan.
  pose proof (pow2_pos (e1 - e) ltac:(lia)) as Hp.
  destruct (binary_round_aux_spec s (Zpos m1 * 2 ^ (e1 - e)) e loc_Exact ltac:(lia))
    as (m2 & e1' & e3 & He1 & Hm2 & Hex & He3 & ->).
  rewrite Zdigits2_mul_pow2 in He1 by lia. cbn [Zdigits2] in He1.
  replace (Zpos (digits2_pos m1) + (e1 - e) + e) with (Zpos (digits2_pos m1) + e1) in He1 by lia.
  rewrite <- Hcan in He1. rewrite Z.max_r in He1 by lia. subst e1'.
  assert (Hm2' : m2 = Zpos m1).
  { rewrite Hex; [apply Z.div_mul; lia | apply Z.mod_mul; lia | reflexivity]. }
  subst m2. cbn [Zdigits2] in He3. rewrite <- Hcan, Z.max_id in He3. subst e3.
  rewrite Z.sub_diag, Z.pow_0_r, Z.div_1_r. reflexivity.
Qed.

(** Doubling a positive float is exact, up to overflow. *)
Lemma SFmul_2 :
  forall m e,
    bounded prec emax m e = true ->
    (SF64mul (S754_finite false 4503599627370496 (-51)) (S754_finite false m e)
     = S754_infinity false /\ e = 971)
    \/ exists m' e',
        SF64mul (S754_finite false 4503599627370496 (-51)) (S754_finite false m e)
        = S754_finite false m' e'
        /\ e <= e' /\ Zpos m' * 2 ^ (e' - e) = 2 * Zpos m.
Proof.
  intros m e Hb. destruct (bounded_inv m e Hb) as (He & Hd & Hn & Hc).
  unfold SF64mul, SFmul. cbn [xorb]. rewrite Pos2Z.inj_mul, Z.mul_comm.
  rewrite fexp_eq in Hc.
  destruct (Z.eq_dec (Zpos (digits2_pos m)) 53) as [H53 | H53].
  - (* normal: the exponent goes up by one *)
    replace (Zpos 4503599627370496) with (2 ^ (e + 1 - (-51 + e))).
    2:{ replace (e + 1 - (-51 + e)) with 52 by lia. reflexivity. }
    rewrite binary_round_aux_exact; [| lia | rewrite fexp_eq; lia].
    destruct (e + 1 <=? 971) eqn:Hov.
    + right. exists m, (e + 1). split; [reflexivity|]. split; [lia|].
      replace (e + 1 - e) with 1 by lia. change (2 ^ 1) with 2. lia.
    + left. apply Z.leb_gt in Hov. split; [reflexivity | lia].
  - (* subnormal: the mantissa doubles *)
    assert (He' : e = -1074) by lia. subst e.
    replace (Zpos m * Zpos 4503599627370496) with (Zpos (m~0) * 2 ^ (-1074 - (-51 + -1074))).
    2:{ replace (-1074 - (-51 + -1074)) with 51 by lia.
        change (2 ^ 51) with 2251799813685248. lia. }
    rewrite binary_round_aux_exact; [| lia |].
    + right. exists (m~0)%positive, (-1074). split; [reflexivity|]. split; [lia|].
      rewrite Z.sub_diag, Z.pow_0_r. lia.
    + cbn [digits2_pos]. rewrite Pos2Z.inj_succ, fexp_eq. lia.
Qed.

(** ** Quotients and differences against 1 and 2 *)

Lemma Prim2SF_1 : Prim2SF 1 = S754_finite false 4503599627370496 (-52).
Proof. reflexivity. Qed.

Lemma Prim2SF_2 : Prim2SF 2 = S754_finite false 4503599627370496 (-51).
Proof. reflexivity. Qed.

(** [k <= p] gives [k / p <= 1], or a NaN quotient. *)
Lemma div_le_one :
  forall k p : float,
    (0 <? k)%float = true -> (0 <? p)%float = true ->
    (k <=? p)%float = true -> (1 <? k / p)%float = false.
Proof.
  intros k p Hk Hp Hle.
  destruct (ltb_zero_inv k Hk) as [Ek | (mk & ek & Ek & Hbk)];
    destruct (ltb_zero_inv p Hp) as [Ep | (mp & ep & Ep & Hbp)];
    try (rewrite ltb_spec, div_spec, Ek, Ep; reflexivity).
  - rewrite leb_spec, Ek, Ep in Hle. discriminate Hle.
  - apply leb_ltb_false. rewrite leb_spec in Hle |- *.
    rewrite div_spec, Prim2SF_1, Ek, Ep in *.
    apply SFdiv_le; [reflexivity|]. intros c Hc1 Hc2.
    pose proof (SFleb_finite_value _ _ _ _ c Hbk Hbp Hle Hc1 ltac:(lia)) as Hv.
    replace (ep - c) with (52 + (-52 + ep - c)) in Hv by lia.
    rewrite pow2_split in Hv by lia. change (2 ^ 52) with 4503599627370496 in Hv. lia.
Qed.

(** [k <= 2 * p] gives [k / p <= 2], or a NaN quotient. *)
Lemma div_le_two :
  forall k p : float,
    (0 <? k)%float = true -> is_finite k = true -> (0 <? p)%float = true ->
    (2 * p <? k)%float = false -> (2 <? k / p)%float = false.
Proof.
  intros k p Hk Hkf Hp Hle.
  destruct (ltb_zero_inv k Hk) as [Ek | (mk & ek & Ek & Hbk)].
  { destruct (ltb_zero_finite k Hk Hkf) as (s & m & e & E). congruence. }
  destruct (ltb_zero_inv p Hp) as [Ep | (mp & ep & Ep & Hbp)].
  { rewrite ltb_spec, div_spec, Ek, Ep. reflexivity. }
  apply leb_ltb_false. rewrite leb_spec. rewrite ltb_spec, mul_spec in Hle.
  rewrite div_spec, Prim2SF_2, Ek, Ep in *.
  apply SFdiv_le; [reflexivity|]. intros c Hc1 Hc2.
  destruct (bounded_inv _ _ Hbk) as (Hek & _).
  pose proof (bounded_lt_pow _ _ Hbk) as Hmk.
  change (Zpos 4503599627370496) with (2 ^ 52).
  pose proof (pow2_pos (-51 + ep - c) ltac:(lia)) as Hpc.
  assert (Hsplit : 2 ^ (ep - c) = 2 ^ 51 * 2 ^ (-51 + ep - c)).
  { rewrite <- pow2_split by lia. f_equal. lia. }
  set (X := 2 ^ (-51 + ep - c)) in *.
  destruct (SFmul_2 mp ep Hbp) as [[Hinf Hep] | (m' & e' & Hm & He' & Hv)].
  - (* [2 * p] overflows: every finite [k] is below it *)
    subst ep. pose proof (bounded_normal _ _ Hbp ltac:(lia)) as Hmp.
    assert (H1 : Zpos mk * 2 ^ (ek - c) < 2 ^ 53 * 2 ^ (971 - c)).
    { replace (971 - c) with (971 - ek + (ek - c)) by lia.
      rewrite pow2_split by lia.
      pose proof (pow2_pos (971 - ek) ltac:(lia)). pose proof (pow2_pos (ek - c) ltac:(lia)).
      nia. }
    rewrite Hsplit in H1.
    change (2 ^ 53) with 9007199254740992 in H1.
    change (2 ^ 52) with 4503599627370496 in *.
    change (2 ^ 51) with 2251799813685248 in *. nia.
  - rewrite Hm in Hle.
    assert (Hb' : bounded prec emax m' e' = true).
    { pose proof (Prim2SF_valid (2 * p)%float) as Hvd.
      rewrite mul_spec, Prim2SF_2, Ep, Hm in Hvd. exact Hvd. }
    assert (Hle' : SFleb (S754_finite false mk ek) (S754_finite false m' e') = true).
    { pose proof (SFcompare_key (S754_finite false m' e') (S754_finite false mk ek) Hb' Hbk) as H1.
      pose proof (SFcompare_key (S754_finite false mk ek) (S754_finite false m' e') Hbk Hb') as H2.
      unfold SFltb in Hle. unfold SFleb. rewrite H1 in Hle. rewrite H2.
      cbn [SFkey cond_Zopp] in *.
      destruct (Z.compare_spec ((e' + 1075) * 2 ^ 53 + Zpos m') ((ek + 1075) * 2 ^ 53 + Zpos mk));
        try discriminate;
        destruct (Z.compare_spec ((ek + 1075) * 2 ^ 53 + Zpos mk) ((e' + 1075) * 2 ^ 53 + Zpos m'));
        try reflexivity; lia. }
    pose proof (SFleb_finite_value _ _ _ _ c Hbk Hb' Hle' Hc1 ltac:(lia)) as Hv'.
    replace (e' - c) with (e' - ep + (ep - c)) in Hv' by lia.
    rewrite pow2_split, Hsplit in Hv' by lia.
    assert (Heq : Zpos m' * (2 ^ (e' - ep) * (2 ^ 51 * X)) = 2 ^ 52 * Zpos mp * X).
    { rewrite Z.mul_assoc, Hv. change (2 ^ 52) with (2 * 2 ^ 51). ring. }
    lia.
Qed.

Lemma SFleb_SFltb_false :
  forall a b, SFleb a b = true -> SFltb b a = false.
Proof.
  intros [sa|sa| |sa ma ea] [sb|sb| |sb mb eb]; unfold SFleb, SFltb, SFcompare;
    try (destruct sa); try (destruct sb); try reflexivity; try discriminate.
  - rewrite (Z.compare_antisym ea eb), !Pos.compare_cont_spec. cbn [Pos.switch_Eq].
    rewrite (Pos.compare_antisym ma mb).
    destruct (ea ?= eb); cbn [CompOpp]; try reflexivity; try discriminate.
    destruct (ma ?= mb)%positive; cbn [CompOpp]; try reflexivity; discriminate.
  - rewrite (Z.compare_antisym ea eb), !Pos.compare_cont_spec. cbn [Pos.switch_Eq].
    rewrite (Pos.compare_antisym ma mb).
    destruct (ea ?= eb); cbn [CompOpp]; try reflexivity; try discriminate.
    destruct (ma ?= mb)%positive; cbn [CompOpp]; try reflexivity; discriminate.
Qed.

(** A result carrying the minus sign is not above a non-negative float. *)
Lemma SFltb_negative :
  forall f R,
    match f with
    | S754_zero _ => True
    | S754_finite s _ _ => s = false
    | _ => False
    end ->
    match R with
    | S754_zero s | S754_infinity s | S754_finite s _ _ => s = true
    | S754_nan => True
    end ->
    SFltb f R = false.
Proof.
  intros [sf|sf| |sf mf ef] [s|s| |s m e] Hf HR; try contradiction; subst;
    try reflexivity; now destruct sf.
Qed.

(** The difference [y - 1] against 0 and 1. *)
Lemma sub_one_le :
  forall y : float,
    ((1 <? y)%float = false -> (0 <? y - 1)%float = false)
    /\ ((2 <? y)%float = false -> (1 <? y - 1)%float = false).
Proof.
  intros y. rewrite !ltb_spec, sub_spec, Prim2SF_1, Prim2SF_2.
  change (Prim2SF 0) with (S754_zero false).
  pose proof (Prim2SF_valid y) as Hv.
  destruct (Prim2SF y) as [s|[|]| |[|] m e]; try (split; intros; reflexivity);
    try (split; intros H; discriminate H).
  - (* negative finite *)
    unfold SF64sub, SFsub, cond_Zopp. cbn [Z.sub Z.opp Z.add binary_normalize].
    pose proof (binary_round_sign true
      (fst (shl_align m e (Z.min e (-52)))
       + fst (shl_align 4503599627370496 (-52) (Z.min e (-52)))) (Z.min e (-52))) as Hs.
    split; intros _; apply SFltb_negative; try exact I; try reflexivity;
      destruct (binary_round _ _ _ _ _); exact Hs.
  - (* positive finite *)
    simpl in Hv. destruct (bounded_inv m e Hv) as (He & _).
    pose proof (bounded_lt_pow m e Hv) as Hm.
    unfold SF64sub, SFsub, cond_Zopp.
    destruct (shl_align_spec m e (Z.min e (-52))) as [_ Ha].
    destruct (shl_align_spec 4503599627370496 (-52) (Z.min e (-52))) as [_ Hb].
    set (ez := Z.min e (-52)) in *.
    replace (Z.min e ez) with ez in Ha by (unfold ez; lia).
    replace (Z.min (-52) ez) with ez in Hb by (unfold ez; lia).
    set (a := Zpos (fst (shl_align m e ez))) in *.
    set (b := Zpos (fst (shl_align 4503599627370496 (-52) ez))) in *.
    pose proof (pow2_pos (e - ez) ltac:(unfold ez; lia)) as Hpa.
    pose proof (pow2_pos (-52 - ez) ltac:(unfold ez; lia)) as Hpb.
    assert (Hneg : forall M f,
               match f with S754_zero _ => True | S754_finite s _ _ => s = false
                       | _ => False end ->
               SFltb f (binary_round prec emax true M ez) = false).
    { intros M f Hf. apply SFltb_negative; [exact Hf|].
      pose proof (binary_round_sign true M ez) as Hs.
      destruct (binary_round _ _ _ _ _); exact Hs. }
    split; intros Hle.
    + (* [y <= 1]: the difference is not positive *)
      assert (Hab : a <= b).
      { assert (H1 : SFleb (S754_finite false m e) (S754_finite false 4503599627370496 (-52)) = true).
        { generalize (SFcompare_key (S754_finite false 4503599627370496 (-52))
                        (S754_finite false m e) eq_refl Hv).
          generalize (SFcompare_key (S754_finite false m e)
                        (S754_finite false 4503599627370496 (-52)) Hv eq_refl).
          unfold SFltb in Hle. unfold SFleb. intros -> E. rewrite E in Hle.
          cbn [SFkey cond_Zopp] in *.
          destruct (Z.compare_spec ((-52 + 1075) * 2 ^ 53 + 4503599627370496)
                      ((e + 1075) * 2 ^ 53 + Zpos m)); try discriminate;
            destruct (Z.compare_spec ((e + 1075) * 2 ^ 53 + Zpos m)
                        ((-52 + 1075) * 2 ^ 53 + 4503599627370496)); try reflexivity; lia. }
        pose proof (SFleb_finite_value m e 4503599627370496 (-52) ez Hv eq_refl H1
                      ltac:(unfold ez; lia) ltac:(unfold ez; lia)) as H2.
        rewrite Ha, Hb. exact H2. }
      destruct (a - b) as [|M|M] eqn:EM; cbn [binary_normalize]; try lia.
      * reflexivity.
      * apply Hneg. exact I.
    + (* [y <= 2]: the difference is at most 1 *)
      assert (Hab : a <= 2 * b).
      { assert (H1 : SFleb (S754_finite false m e) (S754_finite false 4503599627370496 (-51)) = true).
        { generalize (SFcompare_key (S754_finite false 4503599627370496 (-51))
                        (S754_finite false m e) eq_refl Hv).
          generalize (SFcompare_key (S754_finite false m e)
                        (S754_finite false 4503599627370496 (-51)) Hv eq_refl).
          unfold SFltb in Hle. unfold SFleb. intros -> E. rewrite E in Hle.
          cbn [SFkey cond_Zopp] in *.
          destruct (Z.compare_spec ((-51 + 1075) * 2 ^ 53 + 4503599627370496)
                      ((e + 1075) * 2 ^ 53 + Zpos m)); try discriminate;
            destruct (Z.compare_spec ((e + 1075) * 2 ^ 53 + Zpos m)
                        ((-51 + 1075) * 2 ^ 53 + 4503599627370496)); try reflexivity; lia. }
        pose proof (SFleb_finite_value m e 4503599627370496 (-51) ez Hv eq_refl H1
                      ltac:(unfold ez; lia) ltac:(unfold ez; lia)) as H2.
        rewrite Ha, Hb.
        replace (-51 - ez) with (1 + (-52 - ez)) in H2 by lia.
        rewrite pow2_split in H2 by (unfold ez; lia). change (2 ^ 1) with 2 in H2. lia. }
      destruct (a - b) as [|M|M] eqn:EM; cbn [binary_normalize].
      * reflexivity.
      * apply SFleb_SFltb_false. apply binary_round_le; [reflexivity | unfold ez; lia |].
        rewrite <- Hb. lia.
      * apply Hneg. reflexivity.
Qed.

Lemma ltb_leb_false :
  forall x y : float, (x <? y)%float = true -> (y <=? x)%float = false.
Proof. intros x y H. float_order. Qed.

(** ** Signs of quotients *)

Lemma div_pos_inv :
  forall l d : float,
    (0 <? d)%float = true -> (0 <? l / d)%float = true -> (0 <? l)%float = true.
Proof.
  intros l d Hd H. rewrite ltb_spec in H |- *. rewrite div_spec in H.
  change (Prim2SF 0) with (S754_zero false) in *.
  destruct (ltb_zero_inv d Hd) as [Ed | (md & ed & Ed & _)]; rewrite Ed in H;
    destruct (Prim2SF l) as [s|[|]| |[|] m e]; try reflexivity; try discriminate H.
  unfold SF64div, SFdiv in H.
  destruct (SFdiv_core_binary prec emax (Zpos m) e (Zpos md) ed) as [[q e'] lc].
  rewrite SFltb_negative in H; [discriminate H | exact I |].
  pose proof (binary_round_aux_sign (xorb true false) q e' lc) as Hs.
  destruct (binary_round_aux _ _ _ _ _ _); exact Hs.
Qed.

(** Dividing NaN or minus infinity by a positive float gives NaN or minus
    infinity. *)
Lemma div_nan_neg_infinity :
  forall l d : float,
    (0 <? d)%float = true ->
    l = nan \/ l = neg_infinity ->
    (l / d)%float = nan \/ (l / d)%float = neg_infinity.
Proof.
  intros l d Hd [-> | ->].
  - left. apply Prim2SF_inj. rewrite div_spec. reflexivity.
  - destruct (ltb_zero_inv d Hd) as [Ed | (md & ed & Ed & _)];
      [left | right]; apply Prim2SF_inj; rewrite div_spec, Ed; reflexivity.
Qed.

(** Any float divided by plus infinity is a zero or NaN. *)
Lemma div_infinity_not_positive :
  forall l : float, (0 <? l / infinity)%float = false.
Proof.
  intros l. rewrite ltb_spec, div_spec.
  change (Prim2SF infinity) with (S754_infinity false).
  destruct (Prim2SF l) as [s|s| |s m e]; reflexivity.
Qed.

(** ** Scaling by powers of two *)

Lemma shr_pred :
  forall mrs e n n',
    n' = n \/ (n <= 0 /\ n' <= 0) ->
    shr mrs (e - 1) n' = (fst (shr mrs e n), snd (shr mrs e n) - 1).
Proof.
  intros mrs e n n' [-> | [Hn Hn']].
  - destruct n; cbn [shr fst snd]; f_equal; lia.
  - destruct n; destruct n'; cbn [shr fst snd]; try lia; reflexivity.
Qed.

Lemma shr_exponent :
  forall mrs e n, e + n <= snd (shr mrs e n) /\ e <= snd (shr mrs e n).
Proof. intros mrs e [|p|p]; cbn [shr snd]; lia. Qed.

(** Away from the subnormal range, lowering the exponent of the exact value
    by one lowers the exponent of the rounded value by one. *)
Lemma binary_round_aux_half :
  forall s m e l m3 e3,
    -1020 <= Zdigits2 m + e ->
    binary_round_aux prec emax s m e l = S754_finite s m3 e3 ->
    binary_round_aux prec emax s m (e - 1) l = S754_finite s m3 (e3 - 1).
Proof.
  intros s m e l m3 e3 Hmag. unfold binary_round_aux, shr_fexp.
  rewrite (shr_pred _ e (fexp prec emax (Zdigits2 m + e) - e)
             (fexp prec emax (Zdigits2 m + (e - 1)) - (e - 1)))
    by (rewrite !fexp_eq; lia).
  pose proof (shr_exponent (shr_record_of_loc m l) e (fexp prec emax (Zdigits2 m + e) - e))
    as [He1 _].
  destruct (shr (shr_record_of_loc m l) e _) as [mrs1 e1]. cbn [fst snd] in *.
  set (m2 := round_nearest_even (shr_m mrs1) (loc_of_shr_record mrs1)).
  rewrite (shr_pred _ e1 (fexp prec emax (Zdigits2 m2 + e1) - e1)
             (fexp prec emax (Zdigits2 m2 + (e1 - 1)) - (e1 - 1)))
    by (rewrite !fexp_eq in *; lia).
  destruct (shr (shr_record_of_loc m2 loc_Exact) e1 _) as [mrs3 e3']. cbn [fst snd].
  destruct (shr_m mrs3) as [|p|p]; try discriminate.
  change (emax - prec) with 971.
  destruct (e3' <=? 971) eqn:E; [|discriminate].
  intros H. injection H as -> ->.
  apply Z.leb_le in E. replace (e3 - 1 <=? 971) with true by (symmetry; apply Z.leb_le; lia).
  reflexivity.
Qed.

(** Division of a normal float by [2 ^ k] is exact while the result stays
    normal. *)
Lemma SFdiv_pow2 :
  forall m e k,
    bounded prec emax m e = true ->
    Zpos (digits2_pos m) = 53 ->
    0 <= k -> -1074 <= e - k ->
    SFdiv prec emax (S754_finite false m e) (S754_finite false 4503599627370496 (k - 52))
    = S754_finite false m (e - k).
Proof.
  intros m e k Hb Hd Hk Hek. destruct (bounded_inv m e Hb) as (He & _).
  unfold SFdiv.
  destruct (SFdiv_core_binary_spec m e 4503599627370496 (k - 52))
    as (q & rm & e' & -> & He' & Hq & Hrm).
  cbn [xorb]. rewrite Hd in He'. change (Zpos (digits2_pos 4503599627370496)) with 53 in He'.
  rewrite fexp_eq in He'.
  assert (He'' : e' = Z.max (e - k - 1) (-1074)) by lia. clear He'.
  assert (Hs : e - (k - 52) - e' = 52 + (e - k - e')) by lia.
  rewrite Hs, pow2_split in Hq by lia.
  change (Zpos 4503599627370496) with (2 ^ 52) in *.
  pose proof (pow2_pos (e - k - e') ltac:(lia)) as Hp.
  set (c := 2 ^ 52) in *. assert (Hc : 0 < c) by (unfold c; lia).
  assert (Hq' : q = Zpos m * 2 ^ (e - k - e')) by nia.
  assert (Hrm' : rm = 0) by nia. subst rm q.
  rewrite new_location_zero.
  rewrite binary_round_aux_exact; [| lia | rewrite Hd, fexp_eq; lia].
  replace (e - k <=? 971) with true by (symmetry; apply Z.leb_le; lia).
  reflexivity.
Qed.

(** Half of a float divided by the float is one half. *)
Lemma SFdiv_half_self :
  forall m e,
    SFdiv prec emax (S754_finite false m (e - 1)) (S754_finite false m e)
    = S754_finite false 4503599627370496 (-53).
Proof.
  intros m e. unfold SFdiv.
  destruct (SFdiv_core_binary_spec m (e - 1) m e) as (q & rm & e' & -> & He' & Hq & Hrm).
  cbn [xorb].
  replace (Zpos (digits2_pos m) + (e - 1) - (Zpos (digits2_pos m) + e)) with (-1) in He' by lia.
  replace (e - 1 - e) with (-1) in * by lia.
  change (Z.min (fexp prec emax (-1)) (-1)) with (-54) in He'. subst e'.
  change (-1 - -54) with 53 in Hq.
  set (c := 2 ^ 53) in *.
  assert (Hq' : q = c) by nia. assert (Hrm' : rm = 0) by nia. subst q rm.
  rewrite new_location_zero. reflexivity.
Qed.

(** Multiplication of a normal float by one half is exact while the result
    stays normal. *)
Lemma SFmul_half :
  forall m e,
    Zpos (digits2_pos m) = 53 -> -1074 <= e - 1 -> e <= 971 ->
    SFmul prec emax (S754_finite false m e) (S754_finite false 4503599627370496 (-53))
    = S754_finite false m (e - 1).
Proof.
  intros m e Hd He Hemax. unfold SFmul. cbn [xorb]. rewrite Pos2Z.inj_mul.
  replace (Zpos 4503599627370496) with (2 ^ (e - 1 - (e + -53))).
  2:{ replace (e - 1 - (e + -53)) with 52 by lia. reflexivity. }
  rewrite binary_round_aux_exact; [| lia | rewrite Hd, fexp_eq; lia].
  replace (e - 1 <=? 971) with true by (symmetry; apply Z.leb_le; lia).
  reflexivity.
Qed.

(** A rounded value of at least [2 ^ -1020] comes from an exact value of
    magnitude above [2 ^ -1021]. *)
Lemma binary_round_aux_magnitude :
  forall m e l m3 e3,
    0 < m -> e <= fexp prec emax (Zdigits2 m + e) -> -1072 <= e3 ->
    binary_round_aux prec emax false m e l = S754_finite false m3 e3 ->
    -1020 <= Zdigits2 m + e.
Proof.
  intros m e l m3 e3 Hm Hcan He3 HR. rewrite fexp_eq in Hcan.
  destruct (Z_le_gt_dec (-1020) (Zdigits2 m + e)) as [H | H]; [exact H | exfalso].
  destruct (Zdigits2_bounds m Hm) as [_ Hhi]. pose proof (Zdigits2_pos m Hm) as Hd.
  assert (Hle : SFleb (binary_round_aux prec emax false m e l)
                      (S754_finite false 4503599627370496 (-1073)) = true).
  { apply binary_round_aux_le; [lia | reflexivity | lia |]. left.
    apply Z.lt_le_trans with (1 := Hhi).
    change (Zpos 4503599627370496) with (2 ^ 52). rewrite <- pow2_split by lia.
    apply Z.pow_le_mono_r; lia. }
  rewrite HR in Hle. apply SFleb_finite_inv in Hle. lia.
Qed.

(** ** Not a number *)

Lemma add_nan_l : forall x : float, (nan + x)%float = nan.
Proof.
  intros x. apply Prim2SF_inj. rewrite add_spec.
  change (Prim2SF nan) with S754_nan. reflexivity.
Qed.

Lemma mul_nan_l : forall x : float, (nan * x)%float = nan.
Proof.
  intros x. apply Prim2SF_inj. rewrite mul_spec.
  change (Prim2SF nan) with S754_nan. reflexivity.
Qed.

Lemma mul_nan_r : forall x : float, (x * nan)%float = nan.
Proof.
  intros x. apply Prim2SF_inj. rewrite mul_spec.
  change (Prim2SF nan) with S754_nan. now destruct (Prim2SF x).
Qed.

Lemma div_nan_l : forall x : float, (nan / x)%float = nan.
Proof.
  intros x. apply Prim2SF_inj. rewrite div_spec.
  change (Prim2SF nan) with S754_nan. reflexivity.
Qed.

Lemma leb_nan_r : forall x : float, (x <=? nan)%float = false.
Proof.
  intros x. rewrite leb_key. change (fkey nan) with (@None Z). now destruct (fkey x).
Qed.

Lemma add_zero_l : forall x : float, (0 <? x)%float = true -> (0 + x)%float = x.
Proof.
  intros x Hx. apply Prim2SF_inj. rewrite add_spec.
  change (Prim2SF 0) with (S754_zero false).
  rewrite ltb_spec in Hx. change (Prim2SF 0) with (S754_zero false) in Hx.
  destruct (Prim2SF x) as [s| | |s m e]; try reflexivity.
  now destruct s.
Qed.

Lemma leb_zero_positive_or_nan :
  forall x : float, (x <=? 0)%float = negb ((0 <? x) || negb (x =? x))%float.
Proof.
  intros x. rewrite leb_key, ltb_key, eqb_key. change (fkey 0) with (Some 0).
  destruct (fkey x) as [a|]; [|reflexivity].
  rewrite Z.eqb_refl, orb_false_r.
  destruct (Z.leb_spec a 0), (Z.ltb_spec 0 a); try lia; reflexivity.
Qed.


(** ** Signs of products and of [1 - q] *)

Lemma SFltb_false_SFleb :
  forall m1 e1 m2 e2,
    bounded prec emax m1 e1 = true -> bounded prec emax m2 e2 = true ->
    SFltb (S754_finite false m1 e1) (S754_finite false m2 e2) = false ->
    SFleb (S754_finite false m2 e2) (S754_finite false m1 e1) = true.
Proof.
  intros m1 e1 m2 e2 H1 H2 Hlt.
  generalize (SFcompare_key (S754_finite false m1 e1) (S754_finite false m2 e2) H1 H2).
  generalize (SFcompare_key (S754_finite false m2 e2) (S754_finite false m1 e1) H2 H1).
  unfold SFltb in Hlt. unfold SFleb. intros -> E. rewrite E in Hlt.
  cbn [SFkey cond_Zopp] in *.
  destruct (Z.compare_spec ((e1 + 1075) * 2 ^ 53 + Zpos m1)
              ((e2 + 1075) * 2 ^ 53 + Zpos m2)); try discriminate;
    destruct (Z.compare_spec ((e2 + 1075) * 2 ^ 53 + Zpos m2)
                ((e1 + 1075) * 2 ^ 53 + Zpos m1)); try reflexivity; lia.
Qed.

(** A float that is not below zero: a zero, a positive number or NaN. *)
Lemma ltb_zero_false_inv :
  forall x : float,
    (x <? 0)%float = false ->
    match Prim2SF x with
    | S754_zero _ | S754_nan => True
    | S754_infinity s | S754_finite s _ _ => s = false
    end.
Proof.
  intros x H. rewrite ltb_spec in H. change (Prim2SF 0) with (S754_zero false) in H.
  destruct (Prim2SF x) as [s|[|]| |[|] m e]; try exact I; try reflexivity;
    discriminate H.
Qed.

(** A float that is not above zero: a zero, a negative number or NaN. *)
Lemma zero_ltb_false_inv :
  forall x : float,
    (0 <? x)%float = false ->
    match Prim2SF x with
    | S754_zero _ | S754_nan => True
    | S754_infinity s | S754_finite s _ _ => s = true
    end.
Proof.
  intros x H. rewrite ltb_spec in H. change (Prim2SF 0) with (S754_zero false) in H.
  destruct (Prim2SF x) as [s|[|]| |[|] m e]; try exact I; try reflexivity;
    discriminate H.
Qed.

Lemma SFltb_zero_of_sign :
  forall R,
    match R with
    | S754_zero _ | S754_nan => True
    | S754_infinity s | S754_finite s _ _ => s = false
    end ->
    SFltb R (S754_zero false) = false.
Proof. intros [s|s| |s m e] H; try reflexivity; now subst s. Qed.

Lemma SFltb_of_sign_zero :
  forall R,
    match R with
    | S754_zero _ | S754_nan => True
    | S754_infinity s | S754_finite s _ _ => s = true
    end ->
    SFltb (S754_zero false) R = false.
Proof. intros [s|s| |s m e] H; try reflexivity; now subst s. Qed.

Lemma mul_not_negative :
  forall x y : float,
    (x <? 0)%float = false -> (y <? 0)%float = false -> (x * y <? 0)%float = false.
Proof.
  intros x y Hx Hy. apply ltb_zero_false_inv in Hx, Hy.
  rewrite ltb_spec, mul_spec. change (Prim2SF 0) with (S754_zero false).
  apply SFltb_zero_of_sign. unfold SF64mul, SFmul.
  destruct (Prim2SF x) as [sx|sx| |sx mx ex], (Prim2SF y) as [sy|sy| |sy my ey];
    try exact I; subst; try reflexivity.
  pose proof (binary_round_aux_sign (xorb false false) (Zpos (mx * my)) (ex + ey)
                loc_Exact) as Hs.
  destruct (binary_round_aux _ _ _ _ _ _); exact I || exact Hs.
Qed.

Lemma mul_not_positive :
  forall x y : float,
    (x <? 0)%float = false -> (0 <? y)%float = false -> (0 <? x * y)%float = false.
Proof.
  intros x y Hx Hy. apply ltb_zero_false_inv in Hx. apply zero_ltb_false_inv in Hy.
  rewrite ltb_spec, mul_spec. change (Prim2SF 0) with (S754_zero false).
  apply SFltb_of_sign_zero. unfold SF64mul, SFmul.
  destruct (Prim2SF x) as [sx|sx| |sx mx ex], (Prim2SF y) as [sy|sy| |sy my ey];
    try exact I; subst; try reflexivity.
  pose proof (binary_round_aux_sign (xorb false true) (Zpos (mx * my)) (ex + ey)
                loc_Exact) as Hs.
  destruct (binary_round_aux _ _ _ _ _ _); exact I || exact Hs.
Qed.

(** [1 - q] is not negative for [q] up to 1, and not positive for [q] from 1
    on; it is NaN with [q]. *)
Lemma one_sub_sign :
  forall q : float,
    ((1 <? q)%float = false -> (1 - q <? 0)%float = false)
    /\ ((q <? 1)%float = false -> (0 <? 1 - q)%float = false).
Proof.
  intros q. rewrite !ltb_spec, sub_spec, Prim2SF_1.
  change (Prim2SF 0) with (S754_zero false).
  pose proof (Prim2SF_valid q) as Hv.
  destruct (Prim2SF q) as [s|[|]| |[|] m e];
    try (split; intros H; (reflexivity || discriminate H)).
  - (* negative finite *)
    split; [intros _ | intros H; discriminate H].
    unfold SF64sub, SFsub, cond_Zopp. cbn [Z.sub Z.opp Z.add binary_normalize].
    apply SFltb_zero_of_sign.
    pose proof (binary_round_sign false
      (fst (shl_align 4503599627370496 (-52) (Z.min (-52) e))
       + fst (shl_align m e (Z.min (-52) e))) (Z.min (-52) e)) as Hs.
    destruct (binary_round _ _ _ _ _); exact I || exact Hs.
  - (* positive finite *)
    simpl in Hv.
    unfold SF64sub, SFsub, cond_Zopp.
    destruct (shl_align_spec m e (Z.min (-52) e)) as [_ Hb].
    destruct (shl_align_spec 4503599627370496 (-52) (Z.min (-52) e)) as [_ Ha].
    set (ez := Z.min (-52) e) in *.
    replace (Z.min e ez) with ez in Hb by (unfold ez; lia).
    replace (Z.min (-52) ez) with ez in Ha by (unfold ez; lia).
    set (a := Zpos (fst (shl_align 4503599627370496 (-52) ez))) in *.
    set (b := Zpos (fst (shl_align m e ez))) in *.
    split; intros Hle.
    + (* [q <= 1] *)
      assert (Hab : b <= a).
      { pose proof (SFltb_false_SFleb 4503599627370496 (-52) m e eq_refl Hv Hle) as H1.
        pose proof (SFleb_finite_value m e 4503599627370496 (-52) ez Hv eq_refl H1
                      ltac:(unfold ez; lia) ltac:(unfold ez; lia)) as H2.
        rewrite Ha, Hb. exact H2. }
      apply SFltb_zero_of_sign.
      destruct (a - b) as [|M|M] eqn:EM; cbn [binary_normalize]; try lia.
      pose proof (binary_round_sign false M ez) as Hs.
      destruct (binary_round _ _ _ _ _); exact I || exact Hs.
    + (* [1 <= q] *)
      assert (Hab : a <= b).
      { pose proof (SFltb_false_SFleb m e 4503599627370496 (-52) Hv eq_refl Hle) as H1.
        pose proof (SFleb_finite_value 4503599627370496 (-52) m e ez eq_refl Hv H1
                      ltac:(unfold ez; lia) ltac:(unfold ez; lia)) as H2.
        rewrite Ha, Hb. exact H2. }
      apply SFltb_of_sign_zero.
      destruct (a - b) as [|M|M] eqn:EM; cbn [binary_normalize]; try lia.
      pose proof (binary_round_sign true M ez) as Hs.
      destruct (binary_round _ _ _ _ _); exact I || exact Hs.
Qed.

(** ** Quotients by a positive divisor *)

(** A quotient of something at most the (positive) divisor is at most 1;
    this includes negative numbers, zeros and NaN as dividend. *)
Lemma div_le_one_any :
  forall p k : float,
    (0 <? k)%float = true -> (k <? p)%float = false -> (1 <? p / k)%float = false.
Proof.
  intros p k Hk Hle. destruct (0 <? p)%float eqn:Hp.
  - apply div_le_one; try assumption. float_order.
  - apply zero_ltb_false_inv in Hp.
    rewrite ltb_spec, div_spec, Prim2SF_1.
    destruct (ltb_zero_inv k Hk) as [-> | (mk & ek & -> & _)];
      destruct (Prim2SF p) as [s|s| |s m e]; try reflexivity; subst; try reflexivity.
    unfold SF64div, SFdiv.
    destruct (SFdiv_core_binary prec emax (Zpos m) e (Zpos mk) ek) as [[q e'] l].
    pose proof (binary_round_aux_sign (xorb true false) q e' l) as Hs.
    apply SFltb_negative; [reflexivity|].
    destruct (binary_round_aux _ _ _ _ _ _); exact I || exact Hs.
Qed.

Lemma Prim2SF_100 : Prim2SF 100 = S754_finite false 7036874417766400 (-46).
Proof. reflexivity. Qed.

(** A hundred times something at most 1 is at most 100. *)
Lemma mul_100_le :
  forall q : float, (1 <? q)%float = false -> (100 <? q * 100)%float = false.
Proof.
  intros q Hq. rewrite ltb_spec, mul_spec, Prim2SF_100.
  rewrite ltb_spec, Prim2SF_1 in Hq. pose proof (Prim2SF_valid q) as Hv.
  destruct (Prim2SF q) as [s|[|]| |[|] m e]; try reflexivity; try discriminate Hq.
  - (* negative *)
    unfold SF64mul, SFmul.
    pose proof (binary_round_aux_sign (xorb true false)
                  (Zpos (m * 7036874417766400)) (e + -46) loc_Exact) as Hs.
    apply SFltb_negative; [reflexivity|].
    destruct (binary_round_aux _ _ _ _ _ _); exact I || exact Hs.
  - (* positive, at most 1 *)
    simpl in Hv.
    pose proof (SFltb_false_SFleb 4503599627370496 (-52) m e eq_refl Hv Hq) as H1.
    assert (He : e <= -52) by (destruct (SFleb_finite_inv _ _ _ _ H1); lia).
    pose proof (SFleb_finite_value m e 4503599627370496 (-52) e Hv eq_refl H1
                  ltac:(lia) ltac:(lia)) as H2.
    rewrite Z.sub_diag, Z.pow_0_r, Z.mul_1_r in H2.
    apply SFleb_SFltb_false. unfold SF64mul, SFmul. cbn [xorb].
    apply binary_round_aux_le; [lia | reflexivity | lia |].
    replace (-46 - (e + -46)) with (52 + (-52 - e)) by lia.
    rewrite pow2_split by lia. change (2 ^ 52) with 4503599627370496.
    rewrite Pos2Z.inj_mul.
    set (c := 4503599627370496 * 2 ^ (-52 - e)) in *.
    replace (7036874417766400 * (4503599627370496 * 2 ^ (-52 - e)))
      with (7036874417766400 * c) by reflexivity.
    destruct (Z.eq_dec (Zpos m) c) as [E|E].
    + right. split; [|reflexivity]. rewrite E. lia.
    + left. nia.
Qed.

(** Rounding a positive number given on an exponent [e] above the smallest
    one, and not above its own format exponent, gives a number on an exponent
    of at least [e], or overflows. *)
Lemma binary_round_aux_exponent :
  forall m e l,
    0 < m -> -1074 < e ->
    e <= fexp prec emax (Zdigits2 m + e) ->
    match binary_round_aux prec emax false m e l with
    | S754_finite false _ e3 => e <= e3
    | S754_infinity false => True
    | _ => False
    end.
Proof.
  intros m e l Hm Hmin Hcan.
  destruct (binary_round_aux_spec false m e l ltac:(lia))
    as (m2 & e1 & e3 & He1 & Hm2 & _ & He3 & ->).
  destruct (Zdigits2_bounds m Hm) as [Hlo Hhi].
  pose proof (Zdigits2_pos m Hm) as Hd.
  assert (He1' : e1 = fexp prec emax (Zdigits2 m + e)) by lia.
  set (n1 := e1 - e) in *.
  assert (Hn1 : 0 <= n1) by (unfold n1; lia).
  pose proof (pow2_pos n1 Hn1) as Hp1.
  assert (Hn1d : n1 <= Zdigits2 m - 1).
  { unfold n1. rewrite He1', fexp_eq. lia. }
  assert (Hm1 : 1 <= m / 2 ^ n1).
  { apply Z.div_le_lower_bound; [lia|].
    apply Z.le_trans with (2 := Hlo). rewrite Z.mul_1_r. apply Z.pow_le_mono_r; lia. }
  assert (Hm2pos : 0 < m2) by lia.
  destruct (Zdigits2_bounds m2 Hm2pos) as [Hlo2 _].
  pose proof (Zdigits2_pos m2 Hm2pos) as Hd2.
  assert (He3e : e1 <= e3) by lia.
  set (n2 := e3 - e1) in *.
  assert (Hn2 : 0 <= n2) by (unfold n2; lia).
  pose proof (pow2_pos n2 Hn2) as Hp2.
  assert (Hn2d : n2 <= Zdigits2 m2 - 1).
  { pose proof (fexp_eq (Zdigits2 m2 + e1)) as Hfe.
    pose proof (fexp_eq (Zdigits2 m + e)) as Hfe'. unfold n2. lia. }
  assert (Hm3 : 1 <= m2 / 2 ^ n2).
  { apply Z.div_le_lower_bound; [lia|].
    apply Z.le_trans with (2 := Hlo2). rewrite Z.mul_1_r. apply Z.pow_le_mono_r; lia. }
  destruct (m2 / 2 ^ n2) as [|p|p] eqn:Hq; try lia.
  destruct (e3 <=? 971); [lia | exact I].
Qed.

(** The quotient of two positive numbers is not below a float that is not
    above their exact quotient. *)
Lemma SFdiv_ge :
  forall mx ex my ey mf ef,
    bounded prec emax mf ef = true ->
    (forall c, c <= ex -> c <= ef + ey ->
               Zpos mf * Zpos my * 2 ^ (ef + ey - c) <= Zpos mx * 2 ^ (ex - c)) ->
    SFleb (S754_finite false mf ef)
          (SFdiv prec emax (S754_finite false mx ex) (S754_finite false my ey)) = true.
Proof.
  intros mx ex my ey mf ef Hbf Hval.
  destruct (bounded_inv mf ef Hbf) as (Hef & Hdf & Hnf & Hcf).
  destruct (digits2_pos_bounds mx) as [Hmx _].
  destruct (digits2_pos_bounds my) as [_ Hmy].
  unfold SFdiv.
  destruct (SFdiv_core_binary_spec mx ex my ey) as (q & rm & e' & -> & He' & Hq & Hrm).
  cbn [xorb].
  set (dx := Zpos (digits2_pos mx)) in *.
  set (dy := Zpos (digits2_pos my)) in *.
  set (s := ex - ey - e') in *.
  assert (Hs : 0 <= s) by (unfold s; lia).
  pose proof (pow2_pos s Hs) as Hps.
  assert (Hq0 : 0 <= q) by nia.
  (* the quotient has at least [dx + s - dy] digits *)
  assert (Hdig : dx + s - dy <= Zdigits2 q).
  { destruct (Z.le_gt_cases (dx + s - dy) 0) as [Hneg | Hpos].
    - pose proof (Zdigits2_nonneg q). lia.
    - assert (Hlow : 2 ^ (dx + s - dy - 1) <= q).
      { apply Z.lt_succ_r. apply Z.nle_gt. intros Hc.
        assert (H1 : (q + 1) * 2 ^ dy <= 2 ^ (dx + s - dy - 1) * 2 ^ dy).
        { apply Z.mul_le_mono_nonneg_r; [apply Z.pow_nonneg; lia | lia]. }
        rewrite <- pow2_split in H1 by (unfold dy; lia).
        replace (dx + s - dy - 1 + dy) with (dx - 1 + s) in H1 by lia.
        rewrite pow2_split in H1 by (unfold dx; lia).
        assert (H2 : (q + 1) * Zpos my < (q + 1) * 2 ^ dy).
        { apply Z.mul_lt_mono_pos_l; lia. }
        assert (H3 : 2 ^ (dx - 1) * 2 ^ s <= Zpos mx * 2 ^ s).
        { apply Z.mul_le_mono_nonneg_r; lia. }
        lia. }
      assert (Hqpos : 0 < q).
      { apply Z.lt_le_trans with (2 := Hlow). apply pow2_pos. lia. }
      destruct (Zdigits2_bounds q Hqpos) as [_ Hhi].
      assert (Hlt : 2 ^ (dx + s - dy - 1) < 2 ^ Zdigits2 q) by lia.
      apply Z.pow_lt_mono_r_iff in Hlt; [lia | lia |].
      pose proof (Zdigits2_nonneg q). lia. }
  assert (Hcan : e' <= fexp prec emax (Zdigits2 q + e')).
  { apply Z.le_trans with (fexp prec emax (dx + ex - (dy + ey))); [lia|].
    apply fexp_mono. unfold s in Hdig. lia. }
  destruct (Z.le_gt_cases e' ef) as [Hfine | Hcoarse].
  - apply binary_round_aux_ge; [exact Hbf | exact Hfine | exact Hcan |].
    pose proof (Hval (ey + e') ltac:(lia) ltac:(lia)) as Hc.
    replace (ex - (ey + e')) with s in Hc by (unfold s; lia).
    replace (ef + ey - (ey + e')) with (ef - e') in Hc by lia.
    set (N := Zpos mf * 2 ^ (ef - e')) in *.
    assert (HN : N * Zpos my < (q + 1) * Zpos my) by lia.
    assert (N < q + 1) by nia. lia.
  - assert (Hqpos : 0 < q).
    { rewrite fexp_eq in He'. unfold s in Hdig.
      assert (53 <= Zdigits2 q) by lia.
      destruct (Z.eq_dec q 0) as [-> | Hne]; [cbn in *; lia | lia]. }
    pose proof (binary_round_aux_exponent q e' (new_location (Zpos my) rm) Hqpos
                  ltac:(lia) Hcan) as Hr.
    destruct (binary_round_aux _ _ _ _ _ _) as [sr|[|]| |[|] m3 e3];
      try contradiction; [reflexivity|].
    apply SFleb_finite. left. lia.
Qed.

(** A quotient of something not below the (positive) divisor is at least 1,
    or NaN. *)
Lemma div_ge_one :
  forall p k : float,
    (0 <? k)%float = true -> (k <=? p)%float = true -> (p / k <? 1)%float = false.
Proof.
  intros p k Hk Hle.
  assert (Hp : (0 <? p)%float = true).
  { float_order. apply Z.ltb_lt in Hk. lia. }
  rewrite ltb_spec, div_spec, Prim2SF_1. rewrite leb_spec in Hle.
  destruct (ltb_zero_inv k Hk) as [Ek | (mk & ek & Ek & Hbk)];
    destruct (ltb_zero_inv p Hp) as [Ep | (mp & ep & Ep & Hbp)];
    rewrite Ek, Ep in *; try reflexivity; try discriminate Hle.
  apply SFleb_SFltb_false. apply SFdiv_ge; [reflexivity|]. intros c Hc1 Hc2.
  pose proof (SFleb_finite_value _ _ _ _ c Hbk Hbp Hle ltac:(lia) Hc1) as Hv.
  replace (-52 + ek - c) with (ek - c - 52) by lia.
  assert (Hs : 4503599627370496 * 2 ^ (ek - c - 52) = 2 ^ (ek - c)).
  { replace (ek - c) with (52 + (ek - c - 52)) at 2 by lia.
    now rewrite pow2_split by lia. }
  nia.
Qed.

Lemma div_nan_r : forall x : float, (x / nan)%float = nan.
Proof.
  intros x. apply Prim2SF_inj. rewrite div_spec.
  change (Prim2SF nan) with S754_nan. now destruct (Prim2SF x).
Qed.

(** An infinite dividend gives an infinite quotient or NaN. *)
Lemma div_infinity_l :
  forall y : float,
    (y <=? 0)%float = false ->
    (infinity / y)%float = infinity \/ (infinity / y)%float = nan.
Proof.
  intros y Hy. rewrite leb_spec in Hy. change (Prim2SF 0) with (S754_zero false) in Hy.
  destruct (Prim2SF y) as [s|[|]| |[|] m e] eqn:E; try discriminate Hy.
  - right. apply Prim2SF_inj. rewrite div_spec, E. reflexivity.
  - right. apply Prim2SF_inj. rewrite div_spec, E. reflexivity.
  - left. apply Prim2SF_inj. rewrite div_spec, E. reflexivity.
Qed.

(** ** Rounding up to the nearest *)

(** The round and sticky bits after [n >= 1] shifts: the round bit is the
    last bit shifted out, the sticky bit records whether anything below it
    was lost. *)
Lemma shr_bits :
  forall m l e n,
    0 <= m -> 1 <= n ->
    shr_m (fst (shr (shr_record_of_loc m l) e n)) = m / 2 ^ n
    /\ shr_r (fst (shr (shr_record_of_loc m l) e n)) = Z.odd (m / 2 ^ (n - 1))
    /\ (shr_s (fst (shr (shr_record_of_loc m l) e n)) = true
        <-> m mod 2 ^ (n - 1) <> 0 \/ l <> loc_Exact).
Proof.
  intros m l e [|p|p] Hm Hn; try lia. cbn [shr fst].
  pose (Inv := fun (k : Z) (x : shr_record) =>
                 (k = 0 /\ x = shr_record_of_loc m l)
                 \/ (1 <= k /\ shr_m x = m / 2 ^ k
                     /\ shr_r x = Z.odd (m / 2 ^ (k - 1))
                     /\ (shr_s x = true <-> m mod 2 ^ (k - 1) <> 0 \/ l <> loc_Exact))).
  assert (Hstep : forall k x, 0 <= k -> Inv k x -> Inv (k + 1) (shr_1 x)).
  { intros k x Hk [[-> ->] | (Hk1 & Hq & Hr & Hs)]; right.
    - split; [lia|]. change (0 + 1) with 1. change (1 - 1) with 0.
      rewrite Z.pow_0_r, Z.pow_1_r, Z.div_1_r, Z.mod_1_r.
      destruct l as [|[| |]]; cbn [shr_record_of_loc]; rewrite shr_1_spec by exact Hm;
        cbn [shr_m shr_r shr_s orb]; repeat split; intros; try discriminate;
        try (right; discriminate); try reflexivity.
      all: match goal with H : _ \/ _ |- _ => destruct H as [H | H]; now elim H end.
    - destruct x as [mx rx sx]. cbn [shr_m shr_r shr_s] in Hq, Hr, Hs.
      assert (Hp : 0 < 2 ^ (k - 1)) by (apply Z.pow_pos_nonneg; lia).
      assert (Hpk : 2 ^ k = 2 ^ (k - 1) * 2).
      { replace k with (k - 1 + 1) at 1 by lia. rewrite Z.pow_add_r by lia. reflexivity. }
      assert (Hpk1 : 2 ^ (k + 1) = 2 ^ k * 2) by (rewrite Z.pow_add_r by lia; reflexivity).
      assert (Hmx : 0 <= mx) by (subst mx; apply Z.div_pos; lia).
      rewrite shr_1_spec by exact Hmx. cbn [shr_m shr_r shr_s].
      replace (k + 1 - 1) with k by lia.
      split; [lia|]. split; [rewrite Hq, Hpk1, Z.div_div by lia; reflexivity|].
      split; [now rewrite Hq|].
      (* the bits below position [k] *)
      assert (Hmod : m mod 2 ^ k = m mod 2 ^ (k - 1) + 2 ^ (k - 1) * ((m / 2 ^ (k - 1)) mod 2)).
      { rewrite Hpk. apply Z.rem_mul_r; lia. }
      pose proof (Z.mod_pos_bound m (2 ^ (k - 1)) Hp) as Hlow.
      rewrite orb_true_iff, Hs, Hr, Hmod, Zmod_odd.
      destruct (Z.odd (m / 2 ^ (k - 1))).
      + split; [intros _; left; lia | intros _; left; reflexivity].
      + split.
        * intros [H | H]; [discriminate H|]. destruct H as [H | H]; [left; lia | now right].
        * intros [H | H]; right; [left; lia | now right]. }
  pose proof (iter_pos_invariant _ shr_1 Inv Hstep p (shr_record_of_loc m l) 0
                ltac:(lia) (or_introl (conj eq_refl eq_refl))) as H.
  change (0 + Zpos p) with (Zpos p) in H.
  destruct H as [[H _] | (_ & H1 & H2 & H3)]; [lia|]. repeat split; try assumption; apply H3.
Qed.

(** A positive mantissa whose discarded part is more than half a unit of
    the kept part is rounded up.  [n] is the number of bits discarded, [p]
    the kept part plus one, which is assumed to fit the format on the same
    exponent. *)
Lemma binary_round_aux_up :
  forall m e l n p,
    0 <= m -> 0 <= n ->
    fexp prec emax (Zdigits2 m + e) = e + n ->
    (n = 0 /\ l = loc_Inexact Gt)
    \/ (1 <= n /\ (2 ^ (n - 1) < m mod 2 ^ n
                   \/ (m mod 2 ^ n = 2 ^ (n - 1) /\ l <> loc_Exact))) ->
    m / 2 ^ n + 1 = Zpos p ->
    fexp prec emax (Zpos (digits2_pos p) + (e + n)) = e + n ->
    e + n <= 971 ->
    binary_round_aux prec emax false m e l = S754_finite false p (e + n).
Proof.
  intros m e l n p Hm Hn Hfexp Hhalf Hp Hfit Hmax.
  unfold binary_round_aux, shr_fexp. rewrite Hfexp.
  replace (e + n - e) with n by lia.
  assert (Hfirst : exists mrs,
             shr (shr_record_of_loc m l) e n = (mrs, e + n)
             /\ round_nearest_even (shr_m mrs) (loc_of_shr_record mrs) = Zpos p).
  { destruct Hhalf as [[-> ->] | [Hn1 Hrem]].
    - exists (shr_record_of_loc m (loc_Inexact Gt)). split.
      + cbn [shr]. f_equal. lia.
      + cbn [shr_record_of_loc shr_m loc_of_shr_record round_nearest_even].
        rewrite Z.pow_0_r, Z.div_1_r in Hp. exact Hp.
    - destruct (shr_bits m l e n Hm Hn1) as (Hq & Hr & Hs).
      destruct (shr (shr_record_of_loc m l) e n) as [mrs e1] eqn:Eshr.
      assert (He1 : e1 = e + n).
      { destruct n as [|q|q]; try lia. cbn [shr] in Eshr. now injection Eshr as _ <-. }
      subst e1. exists mrs. split; [reflexivity|]. cbn [fst] in Hq, Hr, Hs.
      assert (Hp1 : 0 < 2 ^ (n - 1)) by (apply Z.pow_pos_nonneg; lia).
      assert (Hpn : 2 ^ n = 2 ^ (n - 1) * 2).
      { replace n with (n - 1 + 1) at 1 by lia. rewrite Z.pow_add_r by lia. reflexivity. }
      assert (Hmod : m mod 2 ^ n
                     = m mod 2 ^ (n - 1) + 2 ^ (n - 1) * ((m / 2 ^ (n - 1)) mod 2)).
      { rewrite Hpn. apply Z.rem_mul_r; lia. }
      pose proof (Z.mod_pos_bound m (2 ^ (n - 1)) Hp1) as Hlow.
      rewrite Zmod_odd in Hmod.
      assert (Hodd : Z.odd (m / 2 ^ (n - 1)) = true).
      { destruct (Z.odd (m / 2 ^ (n - 1))); [reflexivity | lia]. }
      rewrite Hodd in Hmod, Hr.
      assert (Hst : shr_s mrs = true).
      { apply Hs. destruct Hrem as [H | [H Hl]]; [left; lia | now right]. }
      destruct mrs as [mq rq sq]. cbn [shr_m shr_r shr_s] in *. subst mq rq sq.
      cbn [loc_of_shr_record round_nearest_even]. exact Hp. }
  destruct Hfirst as (mrs & -> & ->).
  change (Zdigits2 (Zpos p)) with (Zpos (digits2_pos p)). rewrite Hfit, Z.sub_diag.
  cbn [shr shr_record_of_loc shr_m].
  change (emax - prec) with 971. destruct (Z.leb_spec (e + n) 971); [reflexivity | lia].
Qed.

(** ** Strict comparison of positive floats *)

Lemma SFltb_finite_inv :
  forall m1 e1 m2 e2,
    SFltb (S754_finite false m1 e1) (S754_finite false m2 e2) = true ->
    e1 < e2 \/ (e1 = e2 /\ Zpos m1 < Zpos m2).
Proof.
  intros m1 e1 m2 e2. unfold SFltb, SFcompare.
  destruct (Z.compare_spec e1 e2) as [He | He | He]; try discriminate; [|now left].
  rewrite Pos.compare_cont_spec; simpl.
  destruct (Pos.compare_spec m1 m2) as [Hm | Hm | Hm]; try discriminate; intros _; right; lia.
Qed.

Lemma SFltb_finite_value :
  forall m1 e1 m2 e2 c,
    bounded prec emax m1 e1 = true -> bounded prec emax m2 e2 = true ->
    SFltb (S754_finite false m1 e1) (S754_finite false m2 e2) = true ->
    c <= e1 -> c <= e2 ->
    Zpos m1 * 2 ^ (e1 - c) < Zpos m2 * 2 ^ (e2 - c).
Proof.
  intros m1 e1 m2 e2 c H1 H2 Hlt Hc1 Hc2.
  destruct (SFltb_finite_inv _ _ _ _ Hlt) as [He | [-> Hm]].
  - pose proof (bounded_lt_pow _ _ H1) as Hm1.
    destruct (bounded_inv _ _ H1) as (He1 & _).
    pose proof (bounded_normal _ _ H2 ltac:(lia)) as Hm2.
    replace (e2 - c) with ((e2 - e1 - 1) + 1 + (e1 - c)) by lia.
    rewrite !pow2_split by lia. change (2 ^ 1) with 2.
    pose proof (pow2_pos (e2 - e1 - 1) ltac:(lia)).
    pose proof (pow2_pos (e1 - c) ltac:(lia)).
    change (2 ^ 53) with (2 ^ 52 * 2) in Hm1.
    assert (Zpos m1 < Zpos m2 * (2 ^ (e2 - e1 - 1) * 2)) by nia.
    rewrite Z.mul_assoc. apply Z.mul_lt_mono_pos_r; lia.
  - pose proof (pow2_pos (e2 - c) ltac:(lia)). nia.
Qed.

(** An inequality between two scaled integers does not depend on the common
    exponent they are written on. *)
Lemma pow2_lt_shift :
  forall a b x y c c',
    c <= x -> c <= y -> c' <= x -> c' <= y ->
    a * 2 ^ (x - c) < b * 2 ^ (y - c) ->
    a * 2 ^ (x - c') < b * 2 ^ (y - c').
Proof.
  intros a b x y c c' Hx Hy Hx' Hy' H.
  destruct (Z.le_gt_cases c' c) as [Hle | Hgt].
  - replace (x - c') with (x - c + (c - c')) by lia.
    replace (y - c') with (y - c + (c - c')) by lia.
    rewrite !pow2_split, !Z.mul_assoc by lia.
    apply Z.mul_lt_mono_pos_r; [apply pow2_pos; lia | exact H].
  - replace (x - c) with (x - c' + (c' - c)) in H by lia.
    replace (y - c) with (y - c' + (c' - c)) in H by lia.
    rewrite !pow2_split, !Z.mul_assoc in H by lia.
    apply Z.mul_lt_mono_pos_r in H; [exact H | apply pow2_pos; lia].
Qed.

Lemma pow2_le_shift :
  forall a b x y c c',
    c <= x -> c <= y -> c' <= x -> c' <= y ->
    a * 2 ^ (x - c) <= b * 2 ^ (y - c) ->
    a * 2 ^ (x - c') <= b * 2 ^ (y - c').
Proof.
  intros a b x y c c' Hx Hy Hx' Hy' H.
  destruct (Z.le_gt_cases c' c) as [Hle | Hgt].
  - replace (x - c') with (x - c + (c - c')) by lia.
    replace (y - c') with (y - c + (c - c')) by lia.
    rewrite !pow2_split, !Z.mul_assoc by lia.
    apply Z.mul_le_mono_nonneg_r; [pose proof (pow2_pos (c - c')); lia | exact H].
  - replace (x - c) with (x - c' + (c' - c)) in H by lia.
    replace (y - c) with (y - c' + (c' - c)) in H by lia.
    rewrite !pow2_split, !Z.mul_assoc in H by lia.
    apply Z.mul_le_mono_pos_r in H; [exact H | apply pow2_pos; lia].
Qed.

(** ** Quotients just above 2 *)

Lemma new_location_inexact :
  forall n k, k <> 0 -> new_location n k <> loc_Exact.
Proof.
  intros n k Hk. unfold new_location, new_location_even, new_location_odd.
  destruct (Z.even n); destruct (Z.eqb_spec k 0) as [E|E];
    try contradiction; discriminate.
Qed.

Lemma new_location_above_half :
  forall n k, 0 < k -> n < 2 * k -> new_location n k = loc_Inexact Gt.
Proof.
  intros n k Hk Hn. unfold new_location, new_location_even, new_location_odd.
  destruct (Z.even n); destruct (Z.eqb_spec k 0) as [E|E]; try lia.
  - f_equal. apply Z.compare_gt_iff. lia.
  - f_equal. assert (H : (2 * k + 1 ?= n) = Gt) by (apply Z.compare_gt_iff; lia).
    now rewrite H.
Qed.

(** A quotient strictly between the midpoint above a power of two [2 ^ t]
    and the float that follows [2 ^ t] is rounded up to that float. *)
Lemma SFdiv_above_pow2 :
  forall t mx ex my ey,
    -1022 <= t <= 1023 ->
    (forall c, c <= ex -> c <= ey + t - 53 ->
               9007199254740993 * Zpos my * 2 ^ (ey + t - 53 - c) < Zpos mx * 2 ^ (ex - c)) ->
    (forall c, c <= ex -> c <= ey + t - 52 ->
               Zpos mx * 2 ^ (ex - c) < 4503599627370497 * Zpos my * 2 ^ (ey + t - 52 - c)) ->
    SFdiv prec emax (S754_finite false mx ex) (S754_finite false my ey)
    = S754_finite false 4503599627370497 (t - 52).
Proof.
  intros t mx ex my ey Ht Hlow Hhigh.
  destruct (digits2_pos_bounds mx) as [Hmx _].
  destruct (digits2_pos_bounds my) as [_ Hmy].
  unfold SFdiv.
  destruct (SFdiv_core_binary_spec mx ex my ey) as (q & rm & e' & -> & He' & Hq & Hrm).
  cbn [xorb].
  set (dx := Zpos (digits2_pos mx)) in *.
  set (dy := Zpos (digits2_pos my)) in *.
  (* the quotient is below [2 ^ (t + 1)], so its magnitude is at most [t + 1] *)
  assert (Hmag : dx + ex - (dy + ey) <= t + 1).
  { set (c := Z.min ex (ey + t - 52)).
    pose proof (Hhigh c ltac:(unfold c; lia) ltac:(unfold c; lia)) as Hc.
    assert (Hlt : 2 ^ (dx - 1 + (ex - c)) < 2 ^ (53 + dy + (ey + t - 52 - c))).
    { rewrite !pow2_split by (unfold dx, dy, c; lia).
      pose proof (pow2_pos (ex - c) ltac:(unfold c; lia)).
      pose proof (pow2_pos (ey + t - 52 - c) ltac:(unfold c; lia)).
      change (2 ^ 53) with 9007199254740992.
      assert (4503599627370497 * Zpos my < 9007199254740992 * 2 ^ dy) by nia.
      nia. }
    apply Z.pow_lt_mono_r_iff in Hlt; [lia | lia | unfold dx, dy, c; lia]. }
  assert (He52 : e' <= t - 52).
  { rewrite He'. apply Z.le_trans with (1 := Z.le_min_l _ _).
    apply Z.le_trans with (fexp prec emax (t + 1)); [now apply fexp_mono | rewrite fexp_eq; lia]. }
  set (n := t - 52 - e').
  assert (Hn : 0 <= n) by (unfold n; lia).
  set (N := 2 ^ n).
  assert (HN : 0 < N) by (apply pow2_pos; exact Hn).
  set (s := ex - ey - e') in *.
  assert (Hs : 0 <= s) by (unfold s; lia).
  (* the two bounds on the exponent of the division *)
  pose proof (Hhigh (ey + e') ltac:(lia) ltac:(lia)) as Hhi.
  replace (ex - (ey + e')) with s in Hhi by (unfold s; lia).
  replace (ey + t - 52 - (ey + e')) with n in Hhi by (unfold n; lia).
  pose proof (Hlow (ey + e' - 1) ltac:(lia) ltac:(lia)) as Hlo.
  replace (ex - (ey + e' - 1)) with (s + 1) in Hlo by (unfold s; lia).
  replace (ey + t - 53 - (ey + e' - 1)) with n in Hlo by (unfold n; lia).
  rewrite pow2_split in Hlo by lia. change (2 ^ 1) with 2 in Hlo.
  fold N in Hhi, Hlo. rewrite Hq in Hhi.
  assert (Hlo' : 9007199254740993 * Zpos my * N < 2 * (Zpos my * q + rm)) by lia.
  clear Hlo.
  assert (Hq0 : 0 <= q) by nia.
  assert (HqN : 4503599627370496 * N <= q < 4503599627370497 * N) by nia.
  assert (Hdiv : q / N = 4503599627370496).
  { symmetry. apply Z.div_unique with (q - 4503599627370496 * N); lia. }
  assert (Hmod : q mod N = q - 4503599627370496 * N).
  { symmetry. apply Z.mod_unique with 4503599627370496; lia. }
  assert (Hdig : Zdigits2 q = 53 + n).
  { apply Zdigits2_unique; [lia|].
    replace (53 + n - 1) with (52 + n) by lia.
    rewrite !pow2_split by lia. fold N.
    change (2 ^ 52) with 4503599627370496. change (2 ^ 53) with 9007199254740992. lia. }
  replace (t - 52) with (e' + n) by (unfold n; lia).
  apply binary_round_aux_up; try assumption.
  - rewrite Hdig, fexp_eq. unfold n. lia.
  - fold N. destruct (Z.eq_dec n 0) as [E | E].
    + left. split; [exact E|].
      assert (HN1 : N = 1) by (unfold N; rewrite E; reflexivity).
      apply new_location_above_half; nia.
    + right. split; [lia|].
      assert (HNh : N = 2 * 2 ^ (n - 1)).
      { unfold N. replace n with (1 + (n - 1)) at 1 by lia.
        rewrite pow2_split by lia. reflexivity. }
      pose proof (pow2_pos (n - 1) ltac:(lia)) as Hh.
      rewrite Hmod. set (h := 2 ^ (n - 1)) in *.
      set (ql := q - 4503599627370496 * N) in *.
      assert (Hql : h <= ql) by nia.
      destruct (Z.eq_dec ql h) as [Eq | Ne].
      * right. split; [exact Eq|]. apply new_location_inexact. nia.
      * left. lia.
  - fold N. rewrite Hdiv. reflexivity.
  - change (Zpos (digits2_pos 4503599627370497)) with 53. rewrite fexp_eq. unfold n. lia.
  - unfold n. lia.
Qed.

(** Two floats [k > 2 * p] are far enough apart for their quotient to lie
    above the midpoint between 2 and the next float. *)
Lemma double_gap :
  forall mk ek mp ep c,
    Zpos mk < 2 ^ 53 -> Zpos mp < 2 ^ 53 ->
    c <= ek -> c <= ep - 52 ->
    2 * Zpos mp * 2 ^ (ep - c) < Zpos mk * 2 ^ (ek - c) ->
    9007199254740993 * Zpos mp * 2 ^ (ep - 52 - c) < Zpos mk * 2 ^ (ek - c).
Proof.
  intros mk ek mp ep c Hmk Hmp Hc1 Hc2 H.
  change (2 ^ 53) with 9007199254740992 in *.
  set (w := ep - 52 - c). assert (Hw : 0 <= w) by (unfold w; lia).
  replace (ep - c) with (52 + w) in H by (unfold w; lia).
  rewrite pow2_split in H by lia. change (2 ^ 52) with 4503599627370496 in H.
  set (u := ek - c) in *. assert (Hu : 0 <= u) by (unfold u; lia).
  pose proof (pow2_pos w Hw) as HW. pose proof (pow2_pos u Hu) as HU.
  destruct (Z.le_gt_cases (w + 53) u) as [Hcase | Hcase].
  - (* both are multiples of [2 ^ (w + 53)] *)
    replace u with (u - (w + 53) + 53 + w) in * by lia.
    rewrite !pow2_split in * by lia. change (2 ^ 53) with 9007199254740992 in *.
    set (A := 2 ^ (u - (w + 53))) in *.
    assert (HA : 0 < A) by (apply pow2_pos; lia).
    set (W := 2 ^ w) in *.
    assert (H1 : Zpos mp < Zpos mk * A) by nia.
    assert (H2 : Zpos mp + 1 <= Zpos mk * A) by lia.
    assert (H3 : 9007199254740993 * Zpos mp < Zpos mk * A * 9007199254740992) by lia.
    nia.
  - (* both are multiples of [2 ^ u] *)
    destruct (Z.le_gt_cases u w) as [Hbig | Hsmall].
    + (* [p] is too large for [k < 2 ^ 53] to exceed its double *)
      exfalso.
      replace w with (w - u + u) in H by lia.
      rewrite pow2_split in H by lia.
      pose proof (pow2_pos (w - u) ltac:(lia)).
      set (U := 2 ^ u) in *. set (V := 2 ^ (w - u)) in *.
      assert (9007199254740992 * Zpos mp * V * U < Zpos mk * U) by lia.
      assert (9007199254740992 * Zpos mp * V < Zpos mk) by nia.
      nia.
    + set (d := u - w). assert (Hd : 0 < d < 53) by (unfold d; lia).
      replace u with (d + w) in * by (unfold d; lia).
      rewrite pow2_split in * by lia.
      assert (Hj : 2 ^ d * 2 ^ (53 - d) = 9007199254740992).
      { rewrite <- pow2_split by lia. replace (d + (53 - d)) with 53 by lia. reflexivity. }
      set (J := 2 ^ d) in *. set (J' := 2 ^ (53 - d)) in *. set (W := 2 ^ w) in *.
      assert (HJ : 0 < J) by (apply pow2_pos; lia).
      assert (HJ' : 0 < J') by (apply pow2_pos; lia).
      assert (H1 : 9007199254740992 * Zpos mp * W < Zpos mk * J * W) by lia.
      assert (H2 : 9007199254740992 * Zpos mp < Zpos mk * J) by nia.
      assert (H3 : J' * Zpos mp < Zpos mk).
      { apply Z.mul_lt_mono_pos_l with J; [exact HJ|]. nia. }
      assert (H4 : Zpos mp < J).
      { apply Z.mul_lt_mono_pos_l with J'; [exact HJ'|]. nia. }
      assert (H5 : 9007199254740993 * Zpos mp < Zpos mk * J) by nia.
      nia.
Qed.

Lemma Prim2SF_two_up :
  Prim2SF 0x1.0000000000001p+1%float = S754_finite false 4503599627370497 (-51).
Proof. reflexivity. Qed.

Lemma Prim2SF_one_up :
  Prim2SF 0x1.0000000000001p+0%float = S754_finite false 4503599627370497 (-52).
Proof. reflexivity. Qed.

(** The quotient of [k] by less than half of it is above 2. *)
Lemma div_gt_two :
  forall k p : float,
    (0 <? p)%float = true -> (2 * p <? k)%float = true -> (2 <? k / p)%float = true.
Proof.
  intros k p Hp Hlt.
  rewrite ltb_spec, mul_spec, Prim2SF_2 in Hlt.
  pose proof (Prim2SF_valid k) as Hvk.
  destruct (ltb_zero_inv p Hp) as [Ep | (mp & ep & Ep & Hbp)].
  { rewrite Ep in Hlt. destruct (Prim2SF k) as [s|[|]| |[|] m e]; discriminate Hlt. }
  rewrite Ep in Hlt.
  destruct (SFmul_2 mp ep Hbp) as [[Hinf _] | (m' & e' & Hm & He' & Hv)].
  { rewrite Hinf in Hlt. destruct (Prim2SF k) as [s|[|]| |[|] m e]; discriminate Hlt. }
  rewrite Hm in Hlt.
  assert (Hb' : bounded prec emax m' e' = true).
  { pose proof (Prim2SF_valid (2 * p)%float) as Hvd.
    rewrite mul_spec, Prim2SF_2, Ep, Hm in Hvd. exact Hvd. }
  destruct (Prim2SF k) as [s|[|]| |[|] mk ek] eqn:Ek; try discriminate Hlt.
  - (* [k] infinite *)
    rewrite ltb_spec, div_spec, Ek, Ep. reflexivity.
  - (* [k] finite *)
    simpl in Hvk.
    destruct (bounded_inv _ _ Hvk) as (Hek & _). destruct (bounded_inv _ _ Hbp) as (Hep & _).
    pose proof (bounded_lt_pow _ _ Hvk) as Hmk. pose proof (bounded_lt_pow _ _ Hbp) as Hmp.
    set (c0 := Z.min ek (ep - 52)).
    pose proof (SFltb_finite_value _ _ _ _ c0 Hb' Hvk Hlt ltac:(unfold c0; lia)
                  ltac:(unfold c0; lia)) as Hval.
    replace (e' - c0) with (e' - ep + (ep - c0)) in Hval by lia.
    rewrite pow2_split, Z.mul_assoc, Hv in Hval by (unfold c0; lia).
    pose proof (double_gap mk ek mp ep c0 Hmk Hmp ltac:(unfold c0; lia)
                  ltac:(unfold c0; lia) Hval) as Hgap.
    assert (Hlow : forall c, c <= ek -> c <= ep - 52 ->
                     9007199254740993 * Zpos mp * 2 ^ (ep - 52 - c) < Zpos mk * 2 ^ (ek - c)).
    { intros c Hc1 Hc2.
      apply (pow2_lt_shift (9007199254740993 * Zpos mp) (Zpos mk) (ep - 52) ek c0 c);
        try lia; unfold c0; lia. }
    destruct (Z.lt_ge_cases (Zpos mk * 2 ^ (ek - c0))
                (4503599627370497 * Zpos mp * 2 ^ (ep - 51 - c0))) as [Hnear | Hfar].
    + (* the quotient is rounded up to the float above 2 *)
      rewrite ltb_spec, div_spec, Ek, Ep, Prim2SF_2. unfold SF64div.
      rewrite (SFdiv_above_pow2 1); [reflexivity | lia | |].
      * intros c Hc1 Hc2. replace (ep + 1 - 53 - c) with (ep - 52 - c) by lia.
        apply Hlow; lia.
      * intros c Hc1 Hc2. replace (ep + 1 - 52 - c) with (ep - 51 - c) by lia.
        apply (pow2_lt_shift (Zpos mk) (4503599627370497 * Zpos mp) ek (ep - 51) c0 c);
          try lia; unfold c0; lia.
    + (* the quotient is at least that float *)
      assert (Hge : (0x1.0000000000001p+1 <=? k / p)%float = true).
      { rewrite leb_spec, div_spec, Ek, Ep, Prim2SF_two_up. unfold SF64div.
        apply SFdiv_ge; [reflexivity|]. intros c Hc1 Hc2.
        replace (-51 + ep - c) with (ep - 51 - c) by lia.
        apply (pow2_le_shift (4503599627370497 * Zpos mp) (Zpos mk) (ep - 51) ek c0 c);
          try lia; unfold c0; lia. }
      float_order.
Qed.

(** One less than a float above 2 is above 1. *)
Lemma sub_one_gt :
  forall y : float, (2 <? y)%float = true -> (1 <? y - 1)%float = true.
Proof.
  intros y Hy.
  assert (Hge : (0x1.0000000000001p+0 <=? y - 1)%float = true).
  { rewrite ltb_spec, Prim2SF_2 in Hy. rewrite leb_spec, sub_spec, Prim2SF_1, Prim2SF_one_up.
    pose proof (Prim2SF_valid y) as Hv.
    destruct (Prim2SF y) as [s|[|]| |[|] m e]; try discriminate Hy; [reflexivity|].
    simpl in Hv.
    assert (He : -51 <= e) by (destruct (SFltb_finite_inv _ _ _ _ Hy); lia).
    unfold SF64sub, SFsub, cond_Zopp.
    destruct (shl_align_spec m e (Z.min e (-52))) as [_ Ha].
    destruct (shl_align_spec 4503599627370496 (-52) (Z.min e (-52))) as [_ Hb].
    replace (Z.min e (Z.min e (-52))) with (-52) in Ha by lia.
    replace (Z.min (-52) (Z.min e (-52))) with (-52) in Hb by lia.
    replace (Z.min e (-52)) with (-52) in * by lia.
    rewrite Z.sub_diag, Z.pow_0_r, Z.mul_1_r in Hb.
    set (a := Zpos (fst (shl_align m e (-52)))) in *.
    set (b := Zpos (fst (shl_align 4503599627370496 (-52) (-52)))) in *.
    assert (Hbig : 9007199254740992 + 2 <= a).
    { rewrite Ha. destruct (SFltb_finite_inv _ _ _ _ Hy) as [He' | [He' Hm]].
      - pose proof (bounded_normal _ _ Hv ltac:(lia)) as Hn.
        replace (e - -52) with (2 + (e + 50)) by lia.
        rewrite pow2_split by lia. change (2 ^ 2) with 4.
        pose proof (pow2_pos (e + 50) ltac:(lia)).
        change (2 ^ 52) with 4503599627370496 in Hn. nia.
      - subst e. change (2 ^ (-51 - -52)) with 2. lia. }
    destruct (a - b) as [|M|M] eqn:EM; try lia. cbn [binary_normalize].
    apply binary_round_ge; [reflexivity | lia |].
    rewrite Z.sub_diag, Z.pow_0_r. lia. }
  float_order.
Qed.

(** ** Quotients of positive numbers *)

(** The quotient of a positive number by a finite positive one is positive,
    unless it underflows to zero. *)
Lemma div_pos_or_zero :
  forall l d : float,
    (0 <? l)%float = true -> (0 <? d)%float = true -> is_finite d = true ->
    (0 <? l / d)%float = true \/ (l / d =? 0)%float = true.
Proof.
  intros l d Hl Hd Hfin.
  destruct (ltb_zero_inv d Hd) as [Ed | (md & ed & Ed & _)].
  { destruct (ltb_zero_finite d Hd Hfin) as (s & m & e & E). congruence. }
  rewrite ltb_spec, eqb_spec, div_spec, Ed. change (Prim2SF 0) with (S754_zero false).
  destruct (ltb_zero_inv l Hl) as [-> | (ml & el & -> & _)]; [now left|].
  unfold SF64div, SFdiv.
  destruct (SFdiv_core_binary_spec ml el md ed) as (q & rm & e' & -> & _ & Hq & Hrm).
  cbn [xorb].
  assert (Hq0 : 0 <= q).
  { pose proof (pow2_pos (el - ed - e')).
    destruct (Z.le_gt_cases 0 (el - ed - e')) as [Hs | Hs].
    - specialize (H Hs). nia.
    - rewrite Z.pow_neg_r in Hq by lia. nia. }
  destruct (binary_round_aux_spec false q e' (new_location (Zpos md) rm) Hq0)
    as (m2 & e1 & e3 & He1 & Hm2 & _ & He3 & ->).
  assert (H0 : 0 <= m2 / 2 ^ (e3 - e1)).
  { apply Z.div_pos; [|apply pow2_pos; lia].
    apply Z.le_trans with (2 := proj1 Hm2). apply Z.div_pos; [lia | apply pow2_pos; lia]. }
  destruct (m2 / 2 ^ (e3 - e1)) as [|p|p]; try lia.
  - now right.
  - left. destruct (e3 <=? 971); reflexivity.
Qed.

(** Dividing by a positive number up to 1 does not make a positive number
    smaller, so the quotient cannot underflow. *)
Lemma div_by_le_one :
  forall l d : float,
    (0 <? l)%float = true -> (0 <? d)%float = true -> (d <=? 1)%float = true ->
    (0 <? l / d)%float = true.
Proof.
  intros l d Hl Hd Hle.
  assert (Hge : (l <=? l / d)%float = true).
  { rewrite leb_spec in Hle |- *. rewrite div_spec. rewrite Prim2SF_1 in Hle.
    destruct (ltb_zero_inv d Hd) as [Ed | (md & ed & Ed & Hbd)]; rewrite Ed in *;
      [discriminate Hle|].
    destruct (ltb_zero_inv l Hl) as [-> | (ml & el & -> & Hbl)]; [reflexivity|].
    unfold SF64div. apply SFdiv_ge; [exact Hbl|]. intros c Hc1 Hc2.
    assert (Hed : ed <= -52) by (destruct (SFleb_finite_inv _ _ _ _ Hle); lia).
    set (j := el + ed - c). assert (Hj : 0 <= j) by (unfold j; lia).
    pose proof (SFleb_finite_value md ed 4503599627370496 (-52) (ed - j) Hbd eq_refl Hle
                  ltac:(lia) ltac:(lia)) as Hv.
    replace (ed - (ed - j)) with j in Hv by lia.
    replace (-52 - (ed - j)) with (52 + (j - ed - 52 - 52)) in Hv by lia.
    assert (Hpow : 4503599627370496 * 2 ^ (52 + (j - ed - 52 - 52)) = 2 ^ (el - c)).
    { change 4503599627370496 with (2 ^ 52). rewrite <- pow2_split by lia.
      f_equal. unfold j. lia. }
    rewrite Hpow in Hv. fold j.
    pose proof (pow2_pos (el - c) ltac:(lia)). nia. }
  clear Hd Hle. float_order. apply Z.ltb_lt in Hl. lia.
Qed.

(** ** Quotients and differences just above 1 *)

(** The quotient of [k] by something smaller is above 1. *)
Lemma div_gt_one :
  forall k p : float,
    (0 <? p)%float = true -> (p <? k)%float = true -> (1 <? k / p)%float = true.
Proof.
  intros k p Hp Hlt.
  rewrite ltb_spec in Hlt.
  pose proof (Prim2SF_valid k) as Hvk.
  destruct (ltb_zero_inv p Hp) as [Ep | (mp & ep & Ep & Hbp)].
  { rewrite Ep in Hlt. destruct (Prim2SF k) as [s|[|]| |[|] m e]; discriminate Hlt. }
  rewrite Ep in Hlt.
  destruct (Prim2SF k) as [s|[|]| |[|] mk ek] eqn:Ek; try discriminate Hlt.
  - rewrite ltb_spec, div_spec, Ek, Ep. reflexivity.
  - simpl in Hvk.
    destruct (bounded_inv _ _ Hvk) as (Hek & _). destruct (bounded_inv _ _ Hbp) as (Hep & _).
    pose proof (bounded_lt_pow _ _ Hvk) as Hmk. pose proof (bounded_lt_pow _ _ Hbp) as Hmp.
    set (c0 := Z.min ek (ep - 53)).
    pose proof (SFltb_finite_value _ _ _ _ c0 Hbp Hvk Hlt ltac:(unfold c0; lia)
                  ltac:(unfold c0; lia)) as Hval.
    replace (ep - c0) with (1 + (ep - 1 - c0)) in Hval by lia.
    rewrite pow2_split in Hval by (unfold c0; lia). change (2 ^ 1) with 2 in Hval.
    pose proof (double_gap mk ek mp (ep - 1) c0 Hmk Hmp ltac:(unfold c0; lia)
                  ltac:(unfold c0; lia) ltac:(lia)) as Hgap.
    replace (ep - 1 - 52 - c0) with (ep - 53 - c0) in Hgap by lia.
    destruct (Z.lt_ge_cases (Zpos mk * 2 ^ (ek - c0))
                (4503599627370497 * Zpos mp * 2 ^ (ep - 52 - c0))) as [Hnear | Hfar].
    + rewrite ltb_spec, div_spec, Ek, Ep, Prim2SF_1. unfold SF64div.
      rewrite (SFdiv_above_pow2 0); [reflexivity | lia | |].
      * intros c Hc1 Hc2. replace (ep + 0 - 53 - c) with (ep - 53 - c) by lia.
        apply (pow2_lt_shift (9007199254740993 * Zpos mp) (Zpos mk) (ep - 53) ek c0 c);
          try lia; unfold c0; lia.
      * intros c Hc1 Hc2. replace (ep + 0 - 52 - c) with (ep - 52 - c) by lia.
        apply (pow2_lt_shift (Zpos mk) (4503599627370497 * Zpos mp) ek (ep - 52) c0 c);
          try lia; unfold c0; lia.
    + assert (Hge : (0x1.0000000000001p+0 <=? k / p)%float = true).
      { rewrite leb_spec, div_spec, Ek, Ep, Prim2SF_one_up. unfold SF64div.
        apply SFdiv_ge; [reflexivity|]. intros c Hc1 Hc2.
        replace (-52 + ep - c) with (ep - 52 - c) by lia.
        apply (pow2_le_shift (4503599627370497 * Zpos mp) (Zpos mk) (ep - 52) ek c0 c);
          try lia; unfold c0; lia. }
      float_order.
Qed.

(** Rounding a positive integer on an exponent well above the smallest one
    gives a positive number. *)
Lemma binary_round_positive :
  forall M e,
    -1074 < e -> -1021 < Zpos (digits2_pos M) + e ->
    match binary_round prec emax false M e with
    | S754_finite false _ _ | S754_infinity false => True
    | _ => False
    end.
Proof.
  intros M e He Hd. unfold binary_round.
  pose proof (shl_align_spec M e (fexp prec emax (Zpos (digits2_pos M) + e))) as [Hez Hm].
  destruct (shl_align M e _) as [mz ez]. cbn [fst snd] in Hez, Hm. subst ez.
  set (ez := Z.min e _) in *.
  assert (Hfe : fexp prec emax (Zpos (digits2_pos M) + e) = Zpos (digits2_pos M) + e - 53)
    by (rewrite fexp_eq; lia).
  assert (Hez : ez <= e) by (unfold ez; lia).
  pose proof (pow2_pos (e - ez) ltac:(lia)) as Hp.
  pose proof (binary_round_aux_exponent (Zpos mz) ez loc_Exact ltac:(lia)) as H.
  assert (H1 : -1074 < ez) by (unfold ez; lia).
  assert (H2 : ez <= fexp prec emax (Zdigits2 (Zpos mz) + ez)).
  { rewrite Hm, Zdigits2_mul_pow2 by lia.
    replace (Zdigits2 (Zpos M) + (e - ez) + ez) with (Zpos (digits2_pos M) + e)
      by (cbn [Zdigits2]; lia).
    unfold ez. lia. }
  specialize (H H1 H2).
  destruct (binary_round_aux _ _ _ _ _ _) as [s|[|]| |[|] m3 e3]; try contradiction; exact I.
Qed.

(** One less than a float above 1 is above 0. *)
Lemma sub_one_pos :
  forall y : float, (1 <? y)%float = true -> (0 <? y - 1)%float = true.
Proof.
  intros y Hy. rewrite ltb_spec, Prim2SF_1 in Hy.
  rewrite ltb_spec, sub_spec, Prim2SF_1. change (Prim2SF 0) with (S754_zero false).
  pose proof (Prim2SF_valid y) as Hv.
  destruct (Prim2SF y) as [s|[|]| |[|] m e]; try discriminate Hy; [reflexivity|].
  simpl in Hv.
  assert (He : -52 <= e) by (destruct (SFltb_finite_inv _ _ _ _ Hy); lia).
  pose proof (SFltb_finite_value 4503599627370496 (-52) m e (-52) eq_refl Hv Hy
                ltac:(lia) ltac:(lia)) as Hval.
  rewrite Z.sub_diag, Z.pow_0_r, Z.mul_1_r in Hval.
  unfold SF64sub, SFsub, cond_Zopp.
  destruct (shl_align_spec m e (Z.min e (-52))) as [_ Ha].
  destruct (shl_align_spec 4503599627370496 (-52) (Z.min e (-52))) as [_ Hb].
  replace (Z.min e (Z.min e (-52))) with (-52) in Ha by lia.
  replace (Z.min (-52) (Z.min e (-52))) with (-52) in Hb by lia.
  replace (Z.min e (-52)) with (-52) in * by lia.
  rewrite Z.sub_diag, Z.pow_0_r, Z.mul_1_r in Hb.
  set (a := Zpos (fst (shl_align m e (-52)))) in *.
  set (b := Zpos (fst (shl_align 4503599627370496 (-52) (-52)))) in *.
  destruct (a - b) as [|M|M] eqn:EM; try lia. cbn [binary_normalize].
  pose proof (binary_round_positive M (-52) ltac:(lia)
                ltac:(pose proof (Pos2Z.is_pos (digits2_pos M)); lia)) as H.
  destruct (binary_round _ _ _ _ _) as [s|[|]| |[|] m3 e3]; try contradiction; reflexivity.
Qed.

(** The quotient of a number that is zero or below by a finite positive one
    is zero or below. *)
Lemma div_nonpos :
  forall l d : float,
    (l <=? 0)%float = true -> (0 <? d)%float = true -> is_finite d = true ->
    (l / d <=? 0)%float = true.
Proof.
  intros l d Hl Hd Hfin.
  destruct (ltb_zero_inv d Hd) as [Ed | (md & ed & Ed & _)].
  { destruct (ltb_zero_finite d Hd Hfin) as (s & m & e & E). congruence. }
  rewrite leb_spec in Hl |- *. rewrite div_spec, Ed.
  change (Prim2SF 0) with (S754_zero false) in *.
  destruct (Prim2SF l) as [s|[|]| |[|] ml el]; try discriminate Hl; try reflexivity.
  unfold SF64div, SFdiv.
  destruct (SFdiv_core_binary_spec ml el md ed) as (q & rm & e' & -> & _ & Hq & Hrm).
  cbn [xorb].
  assert (Hq0 : 0 <= q).
  { destruct (Z.le_gt_cases 0 (el - ed - e')) as [Hs | Hs].
    - pose proof (pow2_pos (el - ed - e') Hs). nia.
    - rewrite Z.pow_neg_r in Hq by lia. nia. }
  destruct (binary_round_aux_spec true q e' (new_location (Zpos md) rm) Hq0)
    as (m2 & e1 & e3 & He1 & Hm2 & _ & He3 & ->).
  assert (H0 : 0 <= m2 / 2 ^ (e3 - e1)).
  { apply Z.div_pos; [|apply pow2_pos; lia].
    apply Z.le_trans with (2 := proj1 Hm2). apply Z.div_pos; [lia | apply pow2_pos; lia]. }
  destruct (m2 / 2 ^ (e3 - e1)) as [|p|p]; try lia; [reflexivity|].
  destruct (e3 <=? 971); reflexivity.
Qed.

End Binary64.

Import Binary64.

(** ** The integrator computes the classical RK4 formula *)

(** C1: [runge_kutta_4] returns [P + (k1 + 2*k2 + 2*k3 + k4)/6] with the four
    slopes of the classical fixed-step scheme over the logistic derivative
    [f(t,P) = r*P*(1 - P/K)]; it is the specification's [step] at that
    derivative, a function of its arguments alone. *)
Theorem runge_kutta_4_classical :
  forall (t P h : float) (params : PopulationParams),
    let f := fun (_ P : float) => params.(r) * P * (1 - P / params.(K)) in
    let k1 := h * f t P in
    let k2 := h * f (t + h / 2) (P + k1 / 2) in
    let k3 := h * f (t + h / 2) (P + k2 / 2) in
    let k4 := h * f (t + h) (P + k3) in
    runge_kutta_4 t P h params = P + (k1 + 2 * k2 + 2 * k3 + k4) / 6
    /\ runge_kutta_4 t P h params
       = step_spec (fun t P => logistic_growth t P params) t P h.
Proof.
  intros; split; reflexivity.
Qed.

(** ** The simulation loop *)

Lemma sim_loop_fire :
  forall params n i t P,
    fires params t P = true ->
    sim_loop params (S n) i t P
    = Some {| samples := [make_row params i t P];
              final_t := t + params.(dt);
              final_P := runge_kutta_4 t P params.(dt) params;
              capacity_reached := true |}.
Proof.
  intros params n i t P Hf. unfold fires in Hf. simpl. now rewrite Hf.
Qed.

Lemma sim_loop_continue :
  forall params n i t P res,
    fires params t P = false ->
    sim_loop params (S n) i t P = Some res ->
    exists res',
      sim_loop params n (i + 1)%Z (t + params.(dt))
        (runge_kutta_4 t P params.(dt) params) = Some res'
      /\ samples res = make_row params i t P :: samples res'
      /\ final_t res = final_t res' /\ final_P res = final_P res'
      /\ capacity_reached res = capacity_reached res'.
Proof.
  intros params n i t P res Hf H. unfold fires in Hf. simpl in H. rewrite Hf in H.
  destruct (i =? INT_MAX)%Z; [discriminate|].
  destruct (sim_loop params n (i + 1)%Z _ _) as [res'|]; [|discriminate].
  injection H as <-. exists res'. repeat split.
Qed.

(** The rows of a run are an initial segment of the trajectory. *)
Lemma sim_loop_trajectory :
  forall params n i t P res,
    sim_loop params n i t P = Some res ->
    samples res = trajectory params (length (samples res)) i t P.
Proof.
  intros params n; induction n as [|n IH]; intros i t P res H.
  - injection H as <-. reflexivity.
  - destruct (fires params t P) eqn:Hf.
    + rewrite (sim_loop_fire _ _ _ _ _ Hf) in H. injection H as <-. reflexivity.
    + destruct (sim_loop_continue _ _ _ _ _ _ Hf H) as (res' & H' & Hs & _).
      rewrite Hs. simpl. f_equal. now apply IH.
Qed.

(** A run never produces more rows than iterations, and exactly as many when
    the capacity threshold does not fire. *)
Lemma sim_loop_length :
  forall params n i t P res,
    sim_loop params n i t P = Some res ->
    (length (samples res) <= n)%nat
    /\ (capacity_reached res = false -> length (samples res) = n).
Proof.
  intros params n; induction n as [|n IH]; intros i t P res H.
  - injection H as <-. simpl. split; [lia | reflexivity].
  - destruct (fires params t P) eqn:Hf.
    + rewrite (sim_loop_fire _ _ _ _ _ Hf) in H. injection H as <-. simpl.
      split; [lia | discriminate].
    + destruct (sim_loop_continue _ _ _ _ _ _ Hf H) as (res' & H' & Hs & _ & _ & Hc).
      destruct (IH _ _ _ _ H') as [Hle Heq]. rewrite Hs, Hc. simpl.
      split; [lia | intros Hr; now rewrite (Heq Hr)].
Qed.

(** The loop is defined as long as its counter stays below [INT_MAX]. *)
Lemma sim_loop_defined :
  forall params n i t P,
    (i + Z.of_nat n <= INT_MAX)%Z ->
    exists res, sim_loop params n i t P = Some res.
Proof.
  intros params n; induction n as [|n IH]; intros i t P Hi.
  - eexists; reflexivity.
  - simpl. destruct (_ <=? _); [eexists; reflexivity|].
    destruct (Z.eqb_spec i INT_MAX) as [->|_]; [lia|].
    destruct (IH (i + 1)%Z (t + params.(dt)) (runge_kutta_4 t P params.(dt) params))
      as [res' ->]; [lia|].
    eexists; reflexivity.
Qed.

(** The rows of a result of the loop are consecutive states of the integrator, and every
    row before the last one is a state whose step stays below the threshold.
    When the capacity message is printed, the last row is the state [s] from
    which the step reached [0.999 * K]; the message carries the time after that
    step, [row_t s + dt], the population after it is [final_P], and the loop
    stops without producing a row for the state after the step.  Otherwise all
    [n] iterations ran. *)
Lemma sim_loop_result_shape :
  forall params n i t P res,
    sim_loop params n i t P = Some res ->
    samples res = trajectory params (length (samples res)) i t P
    /\ exists pre,
      Forall (fun s => fires params (row_t s) (row_P s) = false) pre
      /\ ((capacity_reached res = true
           /\ exists s, samples res = pre ++ [s]
                /\ fires params (row_t s) (row_P s) = true
                /\ final_t res = row_t s + params.(dt)
                /\ final_P res = runge_kutta_4 (row_t s) (row_P s) params.(dt) params)
          \/ (capacity_reached res = false /\ samples res = pre /\ length pre = n)).
Proof.
  intros params n i t P res H.
  split; [now apply sim_loop_trajectory with (n := n)|].
  revert i t P res H; induction n as [|n IH]; intros i t P res H.
  - injection H as <-. exists []. simpl. split; [constructor|].
    right. repeat split.
  - destruct (fires params t P) eqn:Hf.
    + rewrite (sim_loop_fire _ _ _ _ _ Hf) in H. injection H as <-.
      exists []. simpl. split; [constructor|].
      left. split; [reflexivity|]. exists (make_row params i t P). repeat split. exact Hf.
    + destruct (sim_loop_continue _ _ _ _ _ _ Hf H) as (res' & H' & Hs & Ht & HP & Hc).
      destruct (IH _ _ _ _ H') as (pre & Hpre & Hcase).
      exists (make_row params i t P :: pre). split; [constructor; [exact Hf | exact Hpre]|].
      rewrite Hs, Ht, HP, Hc.
      destruct Hcase as [(Hr & s & Hss & Hfs & Hts & HPs) | (Hr & Hss & Hl)].
      * left. split; [exact Hr|]. exists s. rewrite Hss. repeat split; assumption.
      * right. rewrite Hss. simpl. repeat split; [exact Hr | now rewrite Hl].
Qed.

Lemma double_to_int_range :
  forall x z, double_to_int x = Some z -> (INT_MIN <= z <= INT_MAX)%Z.
Proof.
  intros x z H. unfold double_to_int in H.
  destruct (SFtrunc (Prim2SF x)) as [z'|]; [|discriminate].
  destruct ((INT_MIN <=? z') && (z' <=? INT_MAX))%Z eqn:E; [|discriminate].
  injection H as <-. apply andb_true_iff in E as [H1 H2].
  apply Z.leb_le in H1, H2. lia.
Qed.

(** The loop from a state whose step does not fire, with the counter below
    [INT_MAX]. *)
Lemma sim_loop_step :
  forall params n i t P,
    fires params t P = false -> (i < INT_MAX)%Z ->
    sim_loop params (S n) i t P
    = match sim_loop params n (i + 1)%Z (t + params.(dt))
              (runge_kutta_4 t P params.(dt) params) with
      | Some res =>
          Some {| samples := make_row params i t P :: samples res;
                  final_t := final_t res;
                  final_P := final_P res;
                  capacity_reached := capacity_reached res |}
      | None => None
      end.
Proof.
  intros params n i t P Hf Hi. unfold fires in Hf. cbn [sim_loop]. rewrite Hf.
  destruct (Z.eqb_spec i INT_MAX) as [E|E]; [lia | reflexivity].
Qed.

(** If the first [k] states of the loop do not fire and the next one, [s],
    does, the loop ends there: its rows are those [k] states and [s]. *)
Lemma sim_loop_reaches_threshold :
  forall params k n i t P pre s,
    (i + Z.of_nat k <= INT_MAX)%Z ->
    trajectory params (S k) i t P = pre ++ [s] ->
    Forall (fun a => fires params (row_t a) (row_P a) = false) pre ->
    fires params (row_t s) (row_P s) = true ->
    sim_loop params (S k + n) i t P
    = Some {| samples := pre ++ [s];
              final_t := row_t s + params.(dt);
              final_P := runge_kutta_4 (row_t s) (row_P s) params.(dt) params;
              capacity_reached := true |}.
Proof.
  intros params k; induction k as [|k IH]; intros n i t P pre s Hi Htr Hpre Hs.
  - cbn [trajectory] in Htr.
    destruct pre as [|a [|b pre]]; try discriminate Htr.
    injection Htr as <-. cbn [app]. now apply sim_loop_fire.
  - cbn [trajectory] in Htr.
    destruct pre as [|a pre].
    { cbn [app] in Htr. injection Htr as _ Htr. discriminate Htr. }
    cbn [app] in Htr. injection Htr as <- Htr.
    inversion Hpre as [|a' l' Ha Hpre' E]; subst a' l'.
    cbn [make_row row_t row_P] in Ha.
    change (S (S k) + n)%nat with (S (S k + n)).
    rewrite (sim_loop_step _ _ _ _ _ Ha) by lia.
    rewrite (IH n (i + 1)%Z _ _ pre s ltac:(lia) Htr Hpre' Hs). reflexivity.
Qed.

(** C3: take any iteration [k] of [run_simulation] (so [k <= steps]) that is
    reached, the states before it not having met the threshold, and let [s]
    be its state.  If the population after the step from [s] is at least
    [0.999 * K], the run ends in that iteration with the capacity message for
    the time after the step, [row_t s + dt]: its rows are exactly the states
    up to [s], so [s], the state before the threshold was met, is the last row
    and the state after the step is not written as a row. *)
Theorem capacity_stop :
  forall params steps k pre s,
    double_to_int (params.(t_max) / params.(dt)) = Some steps ->
    (Z.of_nat k <= steps)%Z ->
    trajectory params (S k) 0%Z 0 params.(P0) = pre ++ [s] ->
    Forall (fun a => fires params (row_t a) (row_P a) = false) pre ->
    (params.(K) * 0.999 <=? runge_kutta_4 (row_t s) (row_P s) params.(dt) params) = true ->
    run_simulation params
    = Some {| samples := pre ++ [s];
              final_t := row_t s + params.(dt);
              final_P := runge_kutta_4 (row_t s) (row_P s) params.(dt) params;
              capacity_reached := true |}.
Proof.
  intros params steps k pre s Hsteps Hk Htr Hpre Hs.
  pose proof (double_to_int_range _ _ Hsteps) as [_ Hmax].
  unfold run_simulation. rewrite Hsteps.
  replace (Z.to_nat (steps + 1)) with (S k + (Z.to_nat steps - k))%nat by lia.
  apply sim_loop_reaches_threshold; try assumption. lia.
Qed.

Lemma forallb_not_fires :
  forall params l,
    forallb (fun a => negb (fires params (row_t a) (row_P a))) l = true ->
    Forall (fun a => fires params (row_t a) (row_P a) = false) l.
Proof.
  intros params l H. apply Forall_forall. intros a Ha.
  rewrite forallb_forall in H. apply negb_true_iff. now apply H.
Qed.

Lemma capacity_stop_witness :
  exists pre s,
    length pre = 9%nat
    /\ trajectory ripening_run 10 0%Z 0 ripening_run.(P0) = pre ++ [s]
    /\ Forall (fun a => fires ripening_run (row_t a) (row_P a) = false) pre
    /\ (ripening_run.(K) * 0.999
        <=? runge_kutta_4 (row_t s) (row_P s) ripening_run.(dt) ripening_run) = true
    /\ run_simulation ripening_run
       = Some {| samples := pre ++ [s];
                 final_t := row_t s + ripening_run.(dt);
                 final_P := runge_kutta_4 (row_t s) (row_P s) ripening_run.(dt)
                              ripening_run;
                 capacity_reached := true |}.
Proof.
  exists (removelast (trajectory ripening_run 10 0%Z 0 ripening_run.(P0))),
         (last (trajectory ripening_run 10 0%Z 0 ripening_run.(P0))
               (make_row ripening_run 0%Z 0 0)).
  assert (Htr : trajectory ripening_run 10 0%Z 0 ripening_run.(P0)
                = removelast (trajectory ripening_run 10 0%Z 0 ripening_run.(P0))
                  ++ [last (trajectory ripening_run 10 0%Z 0 ripening_run.(P0))
                        (make_row ripening_run 0%Z 0 0)])
    by (vm_compute; reflexivity).
  assert (Hpre : Forall (fun a => fires ripening_run (row_t a) (row_P a) = false)
                   (removelast (trajectory ripening_run 10 0%Z 0 ripening_run.(P0))))
    by (apply forallb_not_fires; vm_compute; reflexivity).
  assert (Hs : (ripening_run.(K) * 0.999
                <=? runge_kutta_4
                      (row_t (last (trajectory ripening_run 10 0%Z 0 ripening_run.(P0))
                                (make_row ripening_run 0%Z 0 0)))
                      (row_P (last (trajectory ripening_run 10 0%Z 0 ripening_run.(P0))
                                (make_row ripening_run 0%Z 0 0)))
                      ripening_run.(dt) ripening_run) = true)
    by (vm_compute; reflexivity).
  split; [vm_compute; reflexivity|].
  split; [exact Htr|]. split; [exact Hpre|]. split; [exact Hs|].
  apply (capacity_stop ripening_run 20%Z 9%nat _ _
           ltac:(vm_compute; reflexivity) ltac:(lia) Htr Hpre Hs).
Defined.

(** ** Validation at the boundary *)

(** C7: when the parameters are entered by hand and one of the five is
    non-positive, [main] stops in the validation of [input_parameters] with
    exit status 1: no analysis is made and no simulation is run, so no row is
    produced. *)
Theorem invalid_parameter_stops :
  forall (log : float -> float) (inp : Inputs),
    inp.(choice) = 1%Z ->
    (inp.(in_r) <=? 0) = true \/ (inp.(in_K) <=? 0) = true
    \/ (inp.(in_P0) <=? 0) = true \/ (inp.(in_t_max) <=? 0) = true
    \/ (inp.(in_dt) <=? 0) = true ->
    input_parameters inp = None
    /\ main log inp = Some InvalidParameter
    /\ exit_code InvalidParameter = 1%Z
    /\ analysis_of InvalidParameter = None
    /\ simulation_of InvalidParameter = None.
Proof.
  intros log inp Hc Hbad.
  assert (Hin : input_parameters inp = None).
  { unfold input_parameters; cbn [r K P0 t_max dt].
    destruct Hbad as [H | [H | [H | [H | H]]]]; rewrite H;
      rewrite ?orb_true_r; reflexivity. }
  repeat split; trivial.
  unfold main. rewrite Hc, Hin. reflexivity.
Qed.

Lemma invalid_parameter_stops_witness :
  let inp := {| choice := 1; scenario := 0; in_r := 0.5; in_K := 1000;
                in_P0 := 10; in_t_max := 50; in_dt := -0.1 |} in
  input_parameters inp = None
  /\ main log_sign inp = Some InvalidParameter
  /\ exit_code InvalidParameter = 1%Z
  /\ analysis_of InvalidParameter = None
  /\ simulation_of InvalidParameter = None.
Proof.
  intros inp.
  apply (invalid_parameter_stops log_sign inp); [reflexivity|].
  right; right; right; right; reflexivity.
Defined.

(** ** The bacteria scenario *)

Lemma bacteria_run :
  match run_simulation bacteria with
  | Some s =>
      capacity_reached s = true
      /\ (final_t s <? 50) = true
      /\ (999 <=? final_P s) = true
      /\ length (samples s) = 231%nat
  | None => False
  end.
Proof.
  vm_compute. repeat split.
Qed.

(** C8: with [r = 0.5], [K = 1000], [P0 = 10], [t_max = 50], [dt = 0.1] (the
    first preset of [main]) the simulation leaves the loop through the capacity
    threshold, the time it reports is below 50 and the population reached is at
    least 999; the equilibria printed are 0 and 1000, and the maximum growth
    rate is 125 at population 500. *)
Theorem bacteria_scenario :
  forall log : float -> float,
    preset 1 = Some bacteria
    /\ exists a s,
      main log {| choice := 2; scenario := 1; in_r := 0; in_K := 0; in_P0 := 0;
                  in_t_max := 0; in_dt := 0 |} = Some (Completed false a s)
      /\ capacity_reached s = true
      /\ (final_t s <? 50) = true
      /\ (999 <=? final_P s) = true
      /\ equilibria a = (0, 1000)
      /\ max_growth_rate a = 125
      /\ P_max_growth a = 500.
Proof.
  intros log. split; [reflexivity|].
  pose proof bacteria_run as Hrun.
  unfold main, analyze_then_run; cbn [choice scenario preset].
  destruct (run_simulation _) as [s|]; [|contradiction].
  destruct Hrun as (Hc & Ht & HP & _).
  eexists; exists s. split; [reflexivity|].
  repeat split; try assumption; vm_compute; reflexivity.
Qed.

(** ** Termination and the sample times *)

Lemma sortedb_Sorted :
  forall (A : Type) (lt : A -> A -> bool) (l : list A),
    sortedb lt l = true -> Sorted (fun a b => lt a b = true) l.
Proof.
  intros A lt l; induction l as [|a l IH]; intros H; [constructor|].
  destruct l as [|b l]; [repeat constructor|].
  simpl in H. apply andb_prop in H. destruct H as [Hab Hl].
  constructor; [apply IH; exact Hl | constructor; exact Hab].
Qed.

Lemma valid_params_inv :
  forall params,
    valid_params params = true ->
    (0 <? params.(r)) = true /\ (0 <? params.(K)) = true /\ (0 <? params.(P0)) = true
    /\ (0 <? params.(t_max)) = true /\ (0 <? params.(dt)) = true.
Proof.
  intros params H. unfold valid_params in H.
  repeat (apply andb_prop in H; destruct H as [H ?]). repeat split; assumption.
Qed.

(** *** Sample times *)

Lemma trajectory_times_sorted :
  forall params k i t P,
    (0 <? params.(dt)) = true -> (0 <=? t) = true ->
    Sorted (fun a b => (row_t a <=? row_t b) = true) (trajectory params k i t P).
Proof.
  intros params k; induction k as [|k IH]; intros i t P Hd Ht; [constructor|].
  pose proof (add_pos_ge t params.(dt) Ht Hd) as Hstep.
  simpl. constructor.
  - apply IH; [exact Hd|]. now apply leb_trans with t.
  - destruct k; simpl; constructor. exact Hstep.
Qed.

(** *** The step count *)

Lemma SFtrunc_nonneg :
  forall x z,
    match x with
    | S754_zero _ | S754_nan => True
    | S754_infinity s | S754_finite s _ _ => s = false
    end ->
    SFtrunc x = Some z -> (0 <= z)%Z.
Proof.
  intros [s|s| |s m e] z Hs H; simpl in H; try discriminate.
  - injection H as <-. lia.
  - subst s. injection H as <-. unfold cond_Zopp.
    destruct e; [apply Z.shiftl_nonneg | apply Z.shiftl_nonneg | apply Z.shiftr_nonneg]; lia.
Qed.

(** C2: for valid parameters whose quotient [t_max / dt],
    computed in binary64 and truncated, is an [int] below [INT_MAX], the
    simulation is defined and halts; the step count is non-negative; at most
    [steps + 1] rows are produced, exactly [steps + 1] unless the capacity
    threshold fires; the rows are the consecutive states from [(0, P0)] and
    their times never decrease. *)
Theorem run_simulation_halts :
  forall params steps,
    valid_params params = true ->
    double_to_int (params.(t_max) / params.(dt)) = Some steps ->
    (steps < INT_MAX)%Z ->
    (0 <= steps)%Z
    /\ exists res,
      run_simulation params = Some res
      /\ (length (samples res) <= Z.to_nat (steps + 1))%nat
      /\ (capacity_reached res = false -> length (samples res) = Z.to_nat (steps + 1))
      /\ samples res = trajectory params (length (samples res)) 0%Z 0 params.(P0)
      /\ Sorted (fun a b => (row_t a <=? row_t b) = true) (samples res).
Proof.
  intros params steps Hv Hsteps Hlt.
  destruct (valid_params_inv params Hv) as (_ & _ & _ & Htm & Hdt).
  assert (H0 : (0 <= steps)%Z).
  { unfold double_to_int in Hsteps.
    destruct (SFtrunc (Prim2SF (params.(t_max) / params.(dt)))) as [z|] eqn:Hz; [|discriminate].
    destruct (_ && _)%bool; [|discriminate]. injection Hsteps as <-.
    apply SFtrunc_nonneg with (2 := Hz). now apply div_pos_sign. }
  split; [exact H0|].
  unfold run_simulation. rewrite Hsteps.
  destruct (sim_loop_defined params (Z.to_nat (steps + 1)) 0%Z 0 params.(P0)) as [res Hres];
    [lia|].
  exists res. split; [exact Hres|].
  destruct (sim_loop_length _ _ _ _ _ _ Hres) as [Hle Heq].
  pose proof (sim_loop_trajectory _ _ _ _ _ _ Hres) as Htr.
  repeat split; try assumption.
  rewrite Htr. apply trajectory_times_sorted; [exact Hdt | reflexivity].
Qed.

Lemma run_simulation_halts_witness :
  (0 <= 4)%Z
  /\ exists res,
      run_simulation short_run = Some res
      /\ (length (samples res) <= Z.to_nat (4 + 1))%nat
      /\ (capacity_reached res = false -> length (samples res) = Z.to_nat (4 + 1))
      /\ samples res = trajectory short_run (length (samples res)) 0%Z 0 short_run.(P0)
      /\ Sorted (fun a b => (row_t a <=? row_t b) = true) (samples res).
Proof.
  apply (run_simulation_halts short_run 4); [reflexivity | vm_compute; reflexivity | reflexivity].
Defined.

(** With [t_max = 1e10] and [dt = 1e-10], both positive, the quotient [1e20]
    has no [int] value: the conversion is undefined and no row sequence is
    determined. *)
Lemma run_simulation_overflow :
  valid_params overflowing_run = true
  /\ double_to_int (overflowing_run.(t_max) / overflowing_run.(dt)) = None
  /\ run_simulation overflowing_run = None.
Proof.
  repeat split; vm_compute; reflexivity.
Qed.

Lemma Sorted_sortedb :
  forall (A : Type) (lt : A -> A -> bool) (l : list A),
    Sorted (fun a b => lt a b = true) l -> sortedb lt l = true.
Proof.
  intros A lt l H; induction H as [|a l Hl IH Hhd]; [reflexivity|].
  destruct Hhd as [|b l Hab]; [reflexivity|].
  simpl. rewrite Hab. exact IH.
Qed.

(** *** Populations stay at or below the capacity *)

Lemma sim_loop_below_capacity :
  forall params n i t P res,
    (0 <? params.(K)) = true ->
    (params.(K) <? P) = false ->
    sim_loop params n i t P = Some res ->
    Forall (fun s => (params.(K) <? row_P s) = false) (samples res).
Proof.
  intros params n; induction n as [|n IH]; intros i t P res HK HP H.
  - injection H as <-. constructor.
  - destruct (fires params t P) eqn:Hf.
    + rewrite (sim_loop_fire _ _ _ _ _ Hf) in H. injection H as <-.
      constructor; [exact HP | constructor].
    + destruct (sim_loop_continue _ _ _ _ _ _ Hf H) as (res' & H' & Hs & _).
      rewrite Hs. constructor; [exact HP|].
      apply (IH _ _ _ _ HK) with (2 := H').
      apply threshold_below; [exact HK | exact Hf].
Qed.

Lemma preset_runs_increasing :
  forall n,
    match preset n with
    | Some params =>
        match run_simulation params with
        | Some res => sortedb (fun a b => row_P a <? row_P b) (samples res) = true
        | None => False
        end
    | None => True
    end.
Proof.
  intros [|[[p|p|]|[p|p|]|]|p]; cbv beta iota delta [preset];
    lazymatch goal with
    | |- True => exact I
    | _ => vm_compute; reflexivity
    end.
Qed.

(** C4: for valid parameters with [P0 < K], no row of the
    simulation has a population above [K]; on the three preset scenarios of
    [main] the populations of the rows are strictly increasing. *)
Theorem population_below_capacity :
  forall params res,
    valid_params params = true ->
    (params.(P0) <? params.(K)) = true ->
    run_simulation params = Some res ->
    Forall (fun s => (params.(K) <? row_P s) = false) (samples res)
    /\ ((exists n, preset n = Some params) ->
        Sorted (fun a b => (row_P a <? row_P b) = true) (samples res)).
Proof.
  intros params res Hv HP Hrun.
  destruct (valid_params_inv params Hv) as (_ & HK & _).
  split.
  - unfold run_simulation in Hrun.
    destruct (double_to_int _) as [steps|]; [|discriminate].
    apply sim_loop_below_capacity with (3 := Hrun); [exact HK|].
    apply leb_ltb_false. now apply ltb_leb.
  - intros [n Hn]. pose proof (preset_runs_increasing n) as Hinc.
    rewrite Hn, Hrun in Hinc. now apply sortedb_Sorted.
Qed.

Lemma population_below_capacity_witness :
  exists res,
    run_simulation bacteria = Some res
    /\ Forall (fun s => (bacteria.(K) <? row_P s) = false) (samples res)
    /\ Sorted (fun a b => (row_P a <? row_P b) = true) (samples res).
Proof.
  destruct (run_simulation bacteria) as [res|] eqn:E.
  - exists res. split; [reflexivity|].
    destruct (population_below_capacity bacteria res) as [H1 H2];
      [reflexivity | reflexivity | exact E |].
    split; [exact H1 | apply H2; exists 1%Z; reflexivity].
  - vm_compute in E. discriminate E.
Defined.

(** With [r = 1], [K = 1000], [P0 = 10], [dt = 4] the populations of the rows
    go up and down. *)
Lemma population_not_increasing :
  valid_params coarse_run = true
  /\ (coarse_run.(P0) <? coarse_run.(K)) = true
  /\ exists res,
      run_simulation coarse_run = Some res
      /\ ~ Sorted (fun a b => (row_P a <? row_P b) = true) (samples res).
Proof.
  split; [reflexivity|]. split; [reflexivity|].
  destruct (run_simulation coarse_run) as [res|] eqn:E.
  - exists res. split; [reflexivity|]. intros HS. apply Sorted_sortedb in HS.
    vm_compute in E. injection E as <-. vm_compute in HS. discriminate HS.
  - vm_compute in E. discriminate E.
Qed.

(** With [dt = 1e-30] every increment is below half a unit in the last place
    of [P]: the populations of the rows stay at [P0]. *)
Lemma population_stalls :
  valid_params minute_step = true
  /\ (minute_step.(P0) <? minute_step.(K)) = true
  /\ exists res,
      run_simulation minute_step = Some res
      /\ map row_P (samples res) = repeat 10 10.
Proof.
  split; [reflexivity|]. split; [reflexivity|].
  destruct (run_simulation minute_step) as [res|] eqn:E.
  - exists res. split; [reflexivity|].
    vm_compute in E. injection E as <-. vm_compute. reflexivity.
  - vm_compute in E. discriminate E.
Qed.

(** ** The equilibria are fixed points of the integrator *)

Lemma logistic_growth_at_K :
  forall t params,
    (0 <? params.(K)) = true -> is_finite params.(K) = true ->
    is_finite (params.(r) * params.(K)) = true ->
    Zr (logistic_growth t params.(K) params).
Proof.
  intros t params HK HKf Hrk. unfold logistic_growth.
  rewrite (div_self _ (ltb_zero_finite _ HK HKf)).
  change (1 - 1) with 0. apply mul_Zr_r; [exact Hrk | apply Zr_zero].
Qed.

Lemma one_minus_zero_quotient :
  forall k : float, (0 <? k) = true -> 1 - 0 / k = 1.
Proof.
  intros k Hk. apply Prim2SF_inj. rewrite sub_spec, div_spec.
  change (Prim2SF 0) with (S754_zero false).
  destruct (ltb_zero_inv k Hk) as [-> | (m & e & -> & _)]; reflexivity.
Qed.

Lemma logistic_growth_at_0 :
  forall t params,
    (0 <? params.(K)) = true -> is_finite params.(r) = true ->
    Zr (logistic_growth t 0 params).
Proof.
  intros t params HK Hr. unfold logistic_growth.
  rewrite (one_minus_zero_quotient _ HK).
  apply mul_Zr_l; [|reflexivity]. apply mul_Zr_r; [exact Hr | apply Zr_zero].
Qed.

(** A step whose four slopes are zeros leaves the population unchanged. *)
Lemma runge_kutta_4_stationary :
  forall t P h params,
    is_finite h = true ->
    (forall t', Zr (logistic_growth t' P params)) ->
    (forall z, Zr z -> P + z = P) ->
    runge_kutta_4 t P h params = P.
Proof.
  intros t P h params Hh Hf Hadd. unfold runge_kutta_4. cbv zeta.
  assert (Hk : forall t', Zr (h * logistic_growth t' P params)).
  { intros t'. apply mul_Zr_r; [exact Hh | apply Hf]. }
  rewrite (Hadd _ (div_Zr _ _ (Hk t) Fin_2)).
  rewrite (Hadd _ (div_Zr _ _ (Hk (t + h / 2)) Fin_2)).
  rewrite (Hadd _ (Hk (t + h / 2))).
  apply Hadd. apply div_Zr; [|exact Fin_6].
  repeat apply add_Zr; try apply Hk; apply mul_Zr_r; try reflexivity; apply Hk.
Qed.

(** C9: for every [t], every finite step [h] and positive [r]
    and [K]: when [K] is finite and the product [r * K] does not overflow, a
    step taken at [K] returns exactly [K]; when [r] is finite, a step taken at
    0 returns exactly 0. *)
Theorem equilibria_are_fixed_points :
  forall (t h : float) (params : PopulationParams),
    (0 <? params.(r)) = true -> (0 <? params.(K)) = true ->
    is_finite h = true ->
    (is_finite params.(K) = true -> is_finite (params.(r) * params.(K)) = true ->
     runge_kutta_4 t params.(K) h params = params.(K))
    /\ (is_finite params.(r) = true -> runge_kutta_4 t 0 h params = 0).
Proof.
  intros t h params Hr HK Hh. split.
  - intros HKf Hrk. apply runge_kutta_4_stationary; [exact Hh | |].
    + intros t'. now apply logistic_growth_at_K.
    + intros z Hz. apply add_Zr_r; [now apply ltb_zero_finite | exact Hz].
  - intros Hrf. apply runge_kutta_4_stationary; [exact Hh | |].
    + intros t'. now apply logistic_growth_at_0.
    + apply add_zero_Zr.
Qed.

Lemma equilibria_are_fixed_points_witness :
  runge_kutta_4 0 1000 0.1 short_run = 1000
  /\ runge_kutta_4 0 0 0.1 short_run = 0.
Proof.
  destruct (equilibria_are_fixed_points 0 0.1 short_run) as [H1 H2];
    try reflexivity.
  split; [apply H1 | apply H2]; reflexivity.
Defined.

(** With [r = K = 1e200] the product [r * K] overflows, the derivative at [K]
    is [infinity * 0], and the step returns NaN instead of [K]. *)
Lemma equilibrium_step_nan :
  valid_params overflowing_rate = true
  /\ runge_kutta_4 0 overflowing_rate.(K) 0.1 overflowing_rate <> overflowing_rate.(K).
Proof.
  split; [reflexivity|]. intros H. apply (f_equal Prim2SF) in H.
  vm_compute in H. discriminate H.
Qed.

(** ** The stand-in logarithm *)

Lemma log_sign_positive_only :
  forall x, (0 <? log_sign x) = true -> (1 <? x) = true.
Proof.
  intros x. unfold log_sign.
  destruct (1 <? x); [reflexivity|].
  destruct (x =? 1); [intros H; discriminate H|].
  destruct (0 <? x); [intros H; discriminate H|].
  destruct (x =? 0); intros H; discriminate H.
Qed.

Lemma log_sign_positive_above_one :
  forall x, (1 <? x) = true -> (0 <? log_sign x) = true.
Proof.
  intros x H. unfold log_sign. rewrite H. destruct (x =? infinity); reflexivity.
Qed.

Lemma log_sign_nonpositive_up_to_one :
  forall x, (0 <? x) = true -> (x <=? 1) = true -> (log_sign x <=? 0) = true.
Proof.
  intros x H0 H1. unfold log_sign.
  rewrite (leb_ltb_false _ _ H1), H0. destruct (x =? 1); reflexivity.
Qed.

Lemma log_sign_of_nonpositive :
  forall x, (0 <? x) = false -> log_sign x = nan \/ log_sign x = neg_infinity.
Proof.
  intros x H. unfold log_sign.
  assert (H1 : (1 <? x) = false) by float_order.
  assert (H2 : (x =? 1) = false) by float_order.
  rewrite H1, H2, H. destruct (x =? 0); [right | left]; reflexivity.
Qed.

(** ** The half-capacity time *)

Section HalfCapacityTime.

(** The library logarithm.  It is positive exactly above 1, zero or negative
    from 0 up to 1, and at a zero, a negative number or NaN it returns NaN or
    minus infinity (C11 F.10.3.7). *)
Variable log : float -> float.
Hypothesis log_positive_only : forall x, (0 <? log x) = true -> (1 <? x) = true.
Hypothesis log_positive_above_one : forall x, (1 <? x) = true -> (0 <? log x) = true.
Hypothesis log_nonpositive_up_to_one :
  forall x, (0 <? x) = true -> (x <=? 1) = true -> (log x <=? 0) = true.
Hypothesis log_of_nonpositive :
  forall x, (0 <? x) = false -> log x = nan \/ log x = neg_infinity.

Lemma input_parameters_valid :
  forall params,
    valid_params params = true ->
    input_parameters (manual_inputs params)
    = Some (params, params.(K) <=? params.(P0)).
Proof.
  intros [vr vK vP0 vt vd] Hv.
  destruct (valid_params_inv _ Hv) as (Hr & HK & HP & Ht & Hd). cbn [r K P0 t_max dt] in *.
  unfold input_parameters, manual_inputs. cbn [r K P0 t_max dt in_r in_K in_P0 in_t_max in_dt].
  rewrite (ltb_leb_false _ _ Hr), (ltb_leb_false _ _ HK), (ltb_leb_false _ _ HP),
    (ltb_leb_false _ _ Ht), (ltb_leb_false _ _ Hd). reflexivity.
Qed.

Lemma t_half_crowded :
  forall params,
    valid_params params = true ->
    (params.(K) <=? params.(P0)) = true ->
    (t_half (analyze_model log params) = nan
     \/ t_half (analyze_model log params) = neg_infinity)
    /\ t_half_printed (analyze_model log params) = false.
Proof.
  intros params Hv Hle.
  destruct (valid_params_inv _ Hv) as (Hr & HK & HP & _).
  unfold analyze_model; cbn [t_half t_half_printed].
  assert (Hq : (1 <? params.(K) / params.(P0)) = false) by now apply div_le_one.
  assert (Hx : (0 <? params.(K) / params.(P0) - 1) = false)
    by now apply (proj1 (sub_one_le _)).
  pose proof (div_nan_neg_infinity _ _ Hr (log_of_nonpositive _ Hx)) as Ht.
  split; [exact Ht|].
  destruct Ht as [-> | ->]; reflexivity.
Qed.

(** C6: the analyzer computes the half-capacity time as
    [log (K / P0 - 1) / r].  For valid parameters with [P0 >= K] the value is
    NaN or minus infinity, it fails the guard and is not printed.  [main]
    prints the warning and goes on to the analysis and the simulation; when
    the step count is defined and below [INT_MAX], the simulation is run and
    [main] completes with the analysis and the rows of that run. *)
Theorem half_time_not_applicable :
  forall params,
    valid_params params = true ->
    (params.(K) <=? params.(P0)) = true ->
    t_half (analyze_model log params)
    = log (params.(K) / params.(P0) - 1) / params.(r)
    /\ (t_half (analyze_model log params) = nan
        \/ t_half (analyze_model log params) = neg_infinity)
    /\ t_half_printed (analyze_model log params) = false
    /\ main log (manual_inputs params) = analyze_then_run log true params
    /\ forall steps,
        double_to_int (params.(t_max) / params.(dt)) = Some steps ->
        (steps < INT_MAX)%Z ->
        exists s,
          run_simulation params = Some s
          /\ main log (manual_inputs params)
             = Some (Completed true (analyze_model log params) s).
Proof.
  intros params Hv Hle.
  destruct (t_half_crowded params Hv Hle) as [Hnan Hpr].
  assert (Hmain : main log (manual_inputs params) = analyze_then_run log true params).
  { unfold main. cbn [choice manual_inputs].
    change (input_parameters _) with (input_parameters (manual_inputs params)).
    rewrite (input_parameters_valid params Hv), Hle. reflexivity. }
  repeat split; try assumption.
  intros steps Hsteps Hmax.
  destruct (sim_loop_defined params (Z.to_nat (steps + 1)) 0%Z 0 params.(P0))
    as [s Hs]; [unfold INT_MAX in *; lia|].
  assert (Hrun : run_simulation params = Some s).
  { unfold run_simulation. rewrite Hsteps. exact Hs. }
  exists s. split; [exact Hrun|].
  rewrite Hmain. unfold analyze_then_run. rewrite Hrun. reflexivity.
Qed.

(** C10: the half-capacity time is printed exactly when the computed
    [log (K / P0 - 1) / r] is above zero.  For valid parameters with a finite
    [K] this happens only when [P0 < K / 2] (stated with the exact doubling
    [2 * P0 < K]).  Conversely, when [P0 < K / 2] and [r] is finite the time
    is printed unless the division by [r] underflowed to zero, which cannot
    happen for [r <= 1]: there it is printed exactly when [P0 < K / 2].  In
    the regime [K / 2 <= P0 < K] the value is zero or negative, and for
    [P0 >= K] it is NaN or minus infinity; in both nothing is printed. *)
Theorem half_time_printed_below_half :
  forall params,
    valid_params params = true ->
    t_half_printed (analyze_model log params)
    = (0 <? log (params.(K) / params.(P0) - 1) / params.(r))
    /\ (is_finite params.(K) = true ->
        t_half_printed (analyze_model log params) = true ->
        (2 * params.(P0) <? params.(K)) = true)
    /\ ((2 * params.(P0) <? params.(K)) = true ->
        is_finite params.(r) = true ->
        t_half_printed (analyze_model log params) = true
        \/ (t_half (analyze_model log params) =? 0) = true)
    /\ (is_finite params.(K) = true ->
        (params.(r) <=? 1) = true ->
        t_half_printed (analyze_model log params)
        = (2 * params.(P0) <? params.(K)))
    /\ (is_finite params.(K) = true ->
        is_finite params.(r) = true ->
        (2 * params.(P0) <? params.(K)) = false ->
        (params.(P0) <? params.(K)) = true ->
        (t_half (analyze_model log params) <=? 0) = true)
    /\ ((params.(K) <=? params.(P0)) = true ->
        (t_half (analyze_model log params) = nan
         \/ t_half (analyze_model log params) = neg_infinity)
        /\ t_half_printed (analyze_model log params) = false).
Proof.
  intros params Hv.
  destruct (valid_params_inv _ Hv) as (Hr & HK & HP & _).
  assert (Honly : is_finite params.(K) = true ->
                  t_half_printed (analyze_model log params) = true ->
                  (2 * params.(P0) <? params.(K)) = true).
  { intros HKf Hpr. unfold analyze_model in Hpr; cbn [t_half_printed] in Hpr.
    apply (div_pos_inv _ _ Hr) in Hpr. apply log_positive_only in Hpr.
    destruct (2 * params.(P0) <? params.(K)) eqn:E; [reflexivity|].
    pose proof (div_le_two _ _ HK HKf HP E) as H2.
    rewrite (proj2 (sub_one_le _) H2) in Hpr. discriminate Hpr. }
  assert (Hlog : (2 * params.(P0) <? params.(K)) = true ->
                 (0 <? log (params.(K) / params.(P0) - 1)) = true).
  { intros Hlt. apply log_positive_above_one, sub_one_gt. now apply div_gt_two. }
  split; [reflexivity|]. split; [exact Honly|]. split; [|split; [|split]].
  - intros Hlt Hrf. unfold analyze_model; cbn [t_half t_half_printed].
    now apply div_pos_or_zero; [apply Hlog| |].
  - intros HKf Hr1. destruct (2 * params.(P0) <? params.(K)) eqn:E.
    + unfold analyze_model; cbn [t_half_printed].
      apply div_by_le_one; [now apply Hlog | assumption | assumption].
    + destruct (t_half_printed (analyze_model log params)) eqn:Hpr; [|reflexivity].
      discriminate (Honly HKf eq_refl).
  - intros HKf Hrf Hge Hlt. unfold analyze_model; cbn [t_half].
    apply div_nonpos; [|assumption|assumption].
    pose proof (sub_one_pos _ (div_gt_one _ _ HP Hlt)) as Hpos.
    pose proof (proj2 (sub_one_le _) (div_le_two _ _ HK HKf HP Hge)) as Hle.
    apply log_nonpositive_up_to_one; [exact Hpos|].
    clear - Hpos Hle. float_order. apply Z.ltb_ge in Hle. exact Hle.
  - intros Hle. now apply t_half_crowded.
Qed.

End HalfCapacityTime.

Lemma half_time_not_applicable_witness :
  (t_half (analyze_model log_sign crowded_run) = nan
   \/ t_half (analyze_model log_sign crowded_run) = neg_infinity)
  /\ t_half_printed (analyze_model log_sign crowded_run) = false
  /\ exists s,
      run_simulation crowded_run = Some s
      /\ samples s = [make_row crowded_run 0%Z 0 crowded_run.(P0)]
      /\ capacity_reached s = true
      /\ main log_sign (manual_inputs crowded_run)
         = Some (Completed true (analyze_model log_sign crowded_run) s).
Proof.
  destruct (half_time_not_applicable log_sign log_sign_of_nonpositive crowded_run
              eq_refl eq_refl) as (_ & Hnan & Hpr & _ & Hrun).
  split; [exact Hnan|]. split; [exact Hpr|].
  destruct (Hrun 20%Z ltac:(vm_compute; reflexivity) ltac:(unfold INT_MAX; lia))
    as (s & Hs & Hmain).
  exists s. split; [exact Hs|].
  assert (E : run_simulation crowded_run
              = Some {| samples := [make_row crowded_run 0%Z 0 crowded_run.(P0)];
                        final_t := 0 + crowded_run.(dt);
                        final_P := runge_kutta_4 0 crowded_run.(P0) crowded_run.(dt)
                                     crowded_run;
                        capacity_reached := true |}).
  { unfold run_simulation.
    replace (double_to_int (crowded_run.(t_max) / crowded_run.(dt))) with (Some 20%Z)
      by (vm_compute; reflexivity).
    change (Z.to_nat (20 + 1)) with 21%nat.
    apply sim_loop_fire. vm_compute. reflexivity. }
  rewrite E in Hs. injection Hs as <-.
  split; [reflexivity|]. split; [reflexivity | exact Hmain].
Defined.

Lemma half_time_printed_below_half_witness :
  (bacteria.(r) <=? 1) = true
  /\ (2 * bacteria.(P0) <? bacteria.(K)) = true
  /\ t_half_printed (analyze_model log_sign bacteria) = true.
Proof.
  destruct (half_time_printed_below_half log_sign log_sign_positive_only
              log_sign_positive_above_one log_sign_nonpositive_up_to_one
              log_sign_of_nonpositive bacteria eq_refl)
    as (_ & _ & _ & Hexact & _).
  assert (Hr : (bacteria.(r) <=? 1) = true) by (vm_compute; reflexivity).
  assert (Hlt : (2 * bacteria.(P0) <? bacteria.(K)) = true) by (vm_compute; reflexivity).
  split; [exact Hr|]. split; [exact Hlt|].
  rewrite (Hexact eq_refl Hr). exact Hlt.
Defined.

(** With an infinite growth rate the quotient [log (K / P0 - 1) / r] is a
    zero or NaN whatever the logarithm returns: nothing is printed although
    [P0 < K / 2]. *)
Lemma half_time_suppressed_below_half :
  valid_params infinite_rate = true
  /\ is_finite infinite_rate.(K) = true
  /\ (2 * infinite_rate.(P0) <? infinite_rate.(K)) = true
  /\ forall log : float -> float,
      t_half_printed (analyze_model log infinite_rate) = false.
Proof.
  repeat split. intros log. unfold analyze_model; cbn [t_half_printed r infinite_rate].
  apply div_infinity_not_positive.
Qed.

(** ** The maximum growth rate *)

(** C5: the analyzer reports the maximum growth rate at
    population exactly [K / 2]; when [K] is finite and at least [2 ^ -1021],
    and the product [r * K] is finite and at least [2 ^ -1020] (nothing
    underflows or overflows), the rate it computes,
    [r * (K / 2) * (1 - (K / 2) / K)], is exactly [r * K / 4]. *)
Theorem max_growth_closed_form :
  forall (log : float -> float) (params : PopulationParams),
    valid_params params = true ->
    is_finite params.(K) = true -> (0x1p-1021 <=? params.(K)) = true ->
    is_finite (params.(r) * params.(K)) = true ->
    (0x1p-1020 <=? params.(r) * params.(K)) = true ->
    P_max_growth (analyze_model log params) = params.(K) / 2
    /\ max_growth_rate (analyze_model log params)
       = params.(r) * (params.(K) / 2) * (1 - params.(K) / 2 / params.(K))
    /\ max_growth_rate (analyze_model log params) = params.(r) * params.(K) / 4.
Proof.
  intros log [vr vK vP0 vt vd] Hv HKf HKlo Hrkf Hrklo.
  destruct (valid_params_inv _ Hv) as (Hr & HK & _). cbn [r K P0 t_max dt] in *.
  split; [reflexivity|]. split; [reflexivity|].
  unfold analyze_model; cbn [max_growth_rate r K].
  (* the shape of [K] *)
  destruct (ltb_zero_inv vK HK) as [EK | (mK & eK & EK & HbK)].
  { destruct (ltb_zero_finite vK HK HKf) as (s & m & e & E). congruence. }
  rewrite leb_spec, EK in HKlo.
  change (Prim2SF 0x1p-1021) with (S754_finite false 4503599627370496 (-1073)) in HKlo.
  apply SFleb_finite_inv in HKlo.
  destruct (bounded_inv mK eK HbK) as (HeK & _ & HnK & _).
  assert (HdK : Zpos (digits2_pos mK) = 53%Z) by (apply HnK; lia).
  (* the shape of [r] *)
  destruct (ltb_zero_inv vr Hr) as [Er | (mr & er & Er & Hbr)].
  { unfold is_finite, is_nan, is_infinity in Hrkf.
    rewrite !eqb_spec, abs_spec, mul_spec, Er, EK in Hrkf. discriminate Hrkf. }
  (* the shape of [r * K] *)
  pose proof (Prim2SF_valid (vr * vK)) as Hvrk.
  assert (Hpos : (0 <? vr * vK) = true) by float_order.
  destruct (ltb_zero_inv _ Hpos) as [Erk | (m' & e' & Erk & Hb')].
  { destruct (ltb_zero_finite _ Hpos Hrkf) as (s & m & e & E). congruence. }
  rewrite leb_spec, Erk in Hrklo.
  change (Prim2SF 0x1p-1020) with (S754_finite false 4503599627370496 (-1072)) in Hrklo.
  apply SFleb_finite_inv in Hrklo.
  destruct (bounded_inv m' e' Hb') as (He' & _ & Hn' & _).
  assert (Hd' : Zpos (digits2_pos m') = 53%Z) by (apply Hn'; lia).
  assert (Emul : binary_round_aux prec emax false (Zpos (mr * mK)) (er + eK)%Z loc_Exact
                 = S754_finite false m' e').
  { rewrite <- Erk, mul_spec, Er, EK. reflexivity. }
  (* the two quotients *)
  assert (Ehalf : Prim2SF (vK / 2) = S754_finite false mK (eK - 1)%Z).
  { rewrite div_spec, EK. unfold SF64div. apply (SFdiv_pow2 mK eK 1 HbK HdK); lia. }
  assert (Eq : vK / 2 / vK = 0.5).
  { apply Prim2SF_inj. rewrite div_spec, Ehalf, EK. unfold SF64div. apply SFdiv_half_self. }
  rewrite Eq. change (1 - 0.5) with 0.5.
  apply Prim2SF_inj.
  rewrite mul_spec, mul_spec, Er, Ehalf, div_spec, Erk.
  change (Prim2SF 0.5) with (S754_finite false 4503599627370496 (-53)).
  change (Prim2SF 4) with (S754_finite false 4503599627370496 (2 - 52)%Z).
  unfold SF64div. rewrite (SFdiv_pow2 m' e' 2 Hb' Hd') by lia.
  assert (Ehr : SF64mul (S754_finite false mr er) (S754_finite false mK (eK - 1)%Z)
                = S754_finite false m' (e' - 1)%Z).
  { unfold SF64mul, SFmul. cbn [xorb].
    replace (er + (eK - 1))%Z with (er + eK - 1)%Z by lia.
    apply binary_round_aux_half; [|exact Emul].
    apply (binary_round_aux_magnitude (Zpos (mr * mK)) (er + eK)%Z loc_Exact m' e');
      [lia | | lia | exact Emul].
    assert (Hdig : (53 <= Zdigits2 (Zpos (mr * mK)))%Z).
    { change 53%Z with (Zdigits2 (2 ^ 52)). apply Zdigits2_le; [reflexivity|].
      pose proof (bounded_normal mK eK HbK ltac:(lia)). rewrite Pos2Z.inj_mul.
      change (2 ^ 52)%Z with 4503599627370496%Z in *. nia. }
    rewrite fexp_eq. lia. }
  rewrite Ehr. unfold SF64mul.
  rewrite SFmul_half by lia. f_equal. lia.
Qed.

Lemma max_growth_closed_form_witness :
  P_max_growth (analyze_model log_sign short_run) = short_run.(K) / 2
  /\ max_growth_rate (analyze_model log_sign short_run)
     = short_run.(r) * (short_run.(K) / 2) * (1 - short_run.(K) / 2 / short_run.(K))
  /\ max_growth_rate (analyze_model log_sign short_run) = short_run.(r) * short_run.(K) / 4.
Proof.
  apply (max_growth_closed_form log_sign short_run); reflexivity.
Defined.

(** With the smallest positive [K] the half [K / 2] rounds to zero: the rate
    computed is 0 while [r * K / 4] is [K], far outside any relative
    tolerance. *)
Lemma max_growth_underflow :
  valid_params tiny_capacity = true
  /\ forall log : float -> float,
      P_max_growth (analyze_model log tiny_capacity) = 0
      /\ max_growth_rate (analyze_model log tiny_capacity) = 0
      /\ tiny_capacity.(r) * tiny_capacity.(K) / 4 = 0x1p-1074
      /\ (abs (max_growth_rate (analyze_model log tiny_capacity)
               - tiny_capacity.(r) * tiny_capacity.(K) / 4)
          <=? 1e-9 * abs (tiny_capacity.(r) * tiny_capacity.(K) / 4)) = false.
Proof.
  split; [reflexivity|]. intros log.
  unfold analyze_model; cbn [P_max_growth max_growth_rate].
  repeat split; vm_compute; reflexivity.
Qed.

(** ** The shape of a run *)

Lemma steps_nonneg :
  forall params steps,
    valid_params params = true ->
    double_to_int (params.(t_max) / params.(dt)) = Some steps ->
    (0 <= steps)%Z.
Proof.
  intros params steps Hv Hsteps.
  destruct (valid_params_inv params Hv) as (_ & _ & _ & Htm & Hdt).
  unfold double_to_int in Hsteps.
  destruct (SFtrunc (Prim2SF (params.(t_max) / params.(dt)))) as [z|] eqn:Hz; [|discriminate].
  destruct (_ && _)%bool; [|discriminate]. injection Hsteps as <-.
  apply SFtrunc_nonneg with (2 := Hz). now apply div_pos_sign.
Qed.

(** A loop that runs at least once ends one step past its last row, and has
    left through the [break] exactly when the step from that row fires. *)
Lemma sim_loop_final :
  forall params n i t P res,
    sim_loop params (S n) i t P = Some res ->
    exists pre s,
      samples res = pre ++ [s]
      /\ final_t res = row_t s + params.(dt)
      /\ final_P res = runge_kutta_4 (row_t s) (row_P s) params.(dt) params
      /\ capacity_reached res = fires params (row_t s) (row_P s).
Proof.
  intros params n; induction n as [|n IH]; intros i t P res H.
  - destruct (fires params t P) eqn:Hf.
    + rewrite (sim_loop_fire _ _ _ _ _ Hf) in H. injection H as <-.
      exists [], (make_row params i t P). repeat split. exact (eq_sym Hf).
    + destruct (sim_loop_continue _ _ _ _ _ _ Hf H) as (res' & H' & Hs & Ht & HP & Hc).
      injection H' as <-. exists [], (make_row params i t P).
      rewrite Hs, Ht, HP, Hc. repeat split. exact (eq_sym Hf).
  - destruct (fires params t P) eqn:Hf.
    + rewrite (sim_loop_fire _ _ _ _ _ Hf) in H. injection H as <-.
      exists [], (make_row params i t P). repeat split. exact (eq_sym Hf).
    + destruct (sim_loop_continue _ _ _ _ _ _ Hf H) as (res' & H' & Hs & Ht & HP & Hc).
      destruct (IH _ _ _ _ H') as (pre & s & Hss & Hts & HPs & Hcs).
      exists (make_row params i t P :: pre), s.
      rewrite Hs, Ht, HP, Hc, Hss. repeat split; assumption.
Qed.

Lemma run_simulation_loop :
  forall params res,
    valid_params params = true ->
    run_simulation params = Some res ->
    exists n, sim_loop params (S n) 0%Z 0 params.(P0) = Some res.
Proof.
  intros params res Hv Hrun. unfold run_simulation in Hrun.
  destruct (double_to_int _) as [steps|] eqn:Hs; [|discriminate].
  pose proof (steps_nonneg params steps Hv Hs) as H0.
  exists (Z.to_nat steps). rewrite <- Hrun. f_equal. lia.
Qed.

(** X1: for valid parameters a defined run is never empty: its first row is
    the initial state, with counter 0, time 0 and population [P0]. *)
Theorem first_row_is_initial_state :
  forall params res,
    valid_params params = true ->
    run_simulation params = Some res ->
    exists rest, samples res = make_row params 0%Z 0 params.(P0) :: rest.
Proof.
  intros params res Hv Hrun.
  destruct (run_simulation_loop params res Hv Hrun) as [n Hn].
  destruct (fires params 0 params.(P0)) eqn:Hf.
  - rewrite (sim_loop_fire _ _ _ _ _ Hf) in Hn. injection Hn as <-. now exists [].
  - destruct (sim_loop_continue _ _ _ _ _ _ Hf Hn) as (res' & _ & Hs & _).
    now exists (samples res').
Qed.

Lemma first_row_is_initial_state_witness :
  exists res,
    run_simulation short_run = Some res
    /\ exists rest, samples res = make_row short_run 0%Z 0 short_run.(P0) :: rest.
Proof.
  destruct (run_simulation short_run) as [res|] eqn:E.
  - exists res. split; [reflexivity|].
    apply (first_row_is_initial_state short_run res); [reflexivity | exact E].
  - vm_compute in E. discriminate E.
Defined.

(** X2: for valid parameters, when the loop of a defined run is left the
    variables [t] and [P] hold the state one step past the last row, and the
    capacity message has been printed exactly when the threshold test on the
    step from the last row succeeds. *)
Theorem final_state_follows_last_row :
  forall params res,
    valid_params params = true ->
    run_simulation params = Some res ->
    exists pre s,
      samples res = pre ++ [s]
      /\ final_t res = row_t s + params.(dt)
      /\ final_P res = runge_kutta_4 (row_t s) (row_P s) params.(dt) params
      /\ capacity_reached res = fires params (row_t s) (row_P s).
Proof.
  intros params res Hv Hrun.
  destruct (run_simulation_loop params res Hv Hrun) as [n Hn].
  exact (sim_loop_final params n _ _ _ res Hn).
Qed.

Lemma final_state_follows_last_row_witness :
  exists res,
    run_simulation bacteria = Some res
    /\ exists pre s,
      samples res = pre ++ [s]
      /\ final_t res = row_t s + bacteria.(dt)
      /\ final_P res = runge_kutta_4 (row_t s) (row_P s) bacteria.(dt) bacteria
      /\ capacity_reached res = fires bacteria (row_t s) (row_P s).
Proof.
  destruct (run_simulation bacteria) as [res|] eqn:E.
  - exists res. split; [reflexivity|].
    apply (final_state_follows_last_row bacteria res); [reflexivity | exact E].
  - vm_compute in E. discriminate E.
Defined.

(** *** Row counters *)

Lemma trajectory_nth :
  forall params m i t P k s,
    nth_error (trajectory params m i t P) k = Some s ->
    row_i s = (i + Z.of_nat k)%Z
    /\ growth_rate s = logistic_growth (row_t s) (row_P s) params
    /\ percentage_K s = row_P s / params.(K) * 100.
Proof.
  intros params m; induction m as [|m IH]; intros i t P k s H.
  - destruct k; discriminate H.
  - destruct k as [|k]; cbn in H.
    + injection H as <-. cbn. repeat split. lia.
    + destruct (IH _ _ _ _ _ H) as (Hi & Hg & Hp). repeat split; try assumption. lia.
Qed.

(** X3: in a defined run the row at position [k] carries the loop counter
    [k], and its growth rate and percentage columns are computed from the time
    and population of that same row. *)
Theorem rows_are_numbered :
  forall params res k s,
    run_simulation params = Some res ->
    nth_error (samples res) k = Some s ->
    row_i s = Z.of_nat k
    /\ growth_rate s = logistic_growth (row_t s) (row_P s) params
    /\ percentage_K s = row_P s / params.(K) * 100.
Proof.
  intros params res k s Hrun Hk. unfold run_simulation in Hrun.
  destruct (double_to_int _) as [steps|]; [|discriminate].
  rewrite (sim_loop_trajectory _ _ _ _ _ _ Hrun) in Hk.
  destruct (trajectory_nth _ _ _ _ _ _ _ Hk) as (Hi & Hg & Hp).
  repeat split; assumption.
Qed.

Lemma rows_are_numbered_witness :
  exists res s,
    run_simulation short_run = Some res
    /\ nth_error (samples res) 2 = Some s
    /\ row_i s = 2%Z
    /\ growth_rate s = logistic_growth (row_t s) (row_P s) short_run
    /\ percentage_K s = row_P s / short_run.(K) * 100.
Proof.
  destruct (run_simulation short_run) as [res|] eqn:E;
    [|vm_compute in E; discriminate E].
  destruct (nth_error (samples res) 2) as [s|] eqn:Es.
  - exists res, s. split; [reflexivity|]. split; [exact Es|].
    exact (rows_are_numbered short_run res 2 s E Es).
  - vm_compute in E. injection E as <-. vm_compute in Es. discriminate Es.
Defined.

(** ** The output of a run *)

Lemma loop_output_render :
  forall params file_open n i t P,
    loop_output params file_open n i t P
    = option_map (render_loop file_open) (sim_loop params n i t P).
Proof.
  intros params fo n; induction n as [|n IH]; intros i t P.
  - reflexivity.
  - cbn [loop_output sim_loop].
    destruct (params.(K) * 0.999 <=? runge_kutta_4 t P params.(dt) params).
    + unfold render_loop. cbn [option_map samples capacity_reached final_t flat_map].
      now rewrite app_nil_r.
    + destruct (i =? INT_MAX)%Z; [reflexivity|].
      rewrite IH. destruct (sim_loop params n _ _ _) as [res|]; [|reflexivity].
      unfold render_loop.
      cbn [option_map samples capacity_reached final_t flat_map].
      now rewrite app_assoc.
Qed.

Lemma run_simulation_output_render :
  forall params file_open,
    run_simulation_output params file_open
    = option_map (render params file_open) (run_simulation params).
Proof.
  intros params fo. unfold run_simulation_output, run_simulation.
  destruct (double_to_int _) as [steps|]; [|reflexivity].
  rewrite loop_output_render. now destruct (sim_loop _ _ _ _ _).
Qed.

Lemma run_simulation_output_inv :
  forall params file_open out,
    run_simulation_output params file_open = Some out ->
    exists res, run_simulation params = Some res /\ out = render params file_open res.
Proof.
  intros params fo out H. rewrite run_simulation_output_render in H.
  destruct (run_simulation params) as [res|]; [|discriminate].
  injection H as <-. now exists res.
Qed.

Lemma csv_rows_app :
  forall a b, csv_rows (a ++ b) = csv_rows a ++ csv_rows b.
Proof. intros a b. apply flat_map_app. Qed.

Lemma console_rows_app :
  forall a b, console_rows (a ++ b) = console_rows a ++ console_rows b.
Proof. intros a b. apply flat_map_app. Qed.

Lemma csv_rows_of_rows :
  forall file_open l,
    csv_rows (flat_map (row_output file_open) l)
    = if file_open then map columns l else [].
Proof.
  intros fo l; induction l as [|s l IH]; [now destruct fo|].
  cbn [flat_map map]. rewrite csv_rows_app, IH. unfold row_output.
  destruct (Z.rem (row_i s) 10 =? 0)%Z, fo; reflexivity.
Qed.

Lemma console_rows_of_rows :
  forall file_open l,
    console_rows (flat_map (row_output file_open) l) = map columns (filter tenth l).
Proof.
  intros fo l; induction l as [|s l IH]; [reflexivity|].
  cbn [flat_map filter]. rewrite console_rows_app, IH. unfold row_output, tenth.
  destruct (Z.rem (row_i s) 10 =? 0)%Z, fo; reflexivity.
Qed.

Lemma csv_rows_render :
  forall params file_open res,
    csv_rows (render params file_open res)
    = if file_open then map columns (samples res) else [].
Proof.
  intros params fo res. unfold render, render_loop.
  rewrite !csv_rows_app, csv_rows_of_rows.
  destruct fo, (capacity_reached res); cbn; now rewrite ?app_nil_r.
Qed.

Lemma console_rows_render :
  forall params file_open res,
    console_rows (render params file_open res) = map columns (filter tenth (samples res)).
Proof.
  intros params fo res. unfold render, render_loop.
  rewrite !console_rows_app, console_rows_of_rows.
  destruct fo, (capacity_reached res); cbn; now rewrite ?app_nil_r.
Qed.

(** The multiples of ten among [n] consecutive counters from [i] on. *)
Lemma tenth_count :
  forall params n i t P,
    (0 <= i)%Z ->
    Z.of_nat (length (filter tenth (trajectory params n i t P)))
    = ((i + Z.of_nat n + 9) / 10 - (i + 9) / 10)%Z.
Proof.
  intros params n; induction n as [|n IH]; intros i t P Hi.
  - cbn. replace (i + 0 + 9)%Z with (i + 9)%Z by lia. lia.
  - cbn [trajectory filter]. unfold tenth at 1. cbn [make_row row_i].
    rewrite Z.rem_mod_nonneg by lia.
    specialize (IH (i + 1)%Z (t + params.(dt))
                   (runge_kutta_4 t P params.(dt) params) ltac:(lia)).
    destruct (Z.eqb_spec (i mod 10) 0) as [E|E]; cbn [length];
      rewrite ?Nat2Z.inj_succ, IH;
      replace (i + 1 + Z.of_nat n + 9)%Z with (i + Z.of_nat (S n) + 9)%Z by lia;
      replace (i + 1 + 9)%Z with (i + 10)%Z by lia;
      Z.to_euclidean_division_equations; lia.
Qed.

(** X4: everything a defined run writes is fixed by its rows and its exit:
    the banner with [r], [K], [P0] and [dt], the table header, the CSV header
    when the file could be opened, the writes of each row in turn, the
    capacity message when the loop was left early, and the closing message
    when the file was open; the output is undefined exactly when the run
    is. *)
Theorem output_layout :
  forall params file_open,
    run_simulation_output params file_open
    = match run_simulation params with
      | Some res =>
          Some ([Banner params.(r) params.(K) params.(P0) params.(dt); TableHeader]
                ++ (if file_open then [CsvHeader] else [])
                ++ flat_map (row_output file_open) (samples res)
                ++ (if capacity_reached res then [CapacityMessage (final_t res)] else [])
                ++ (if file_open then [SavedMessage] else []))
      | None => None
      end.
Proof.
  intros params fo. rewrite run_simulation_output_render.
  destruct (run_simulation params) as [res|]; [|reflexivity].
  unfold option_map, render, render_loop. now rewrite <- !app_assoc.
Qed.

(** X5: when [population_data.csv] could be opened it receives one line for
    every row of the run, in order and with the columns of that row; when it
    could not, no line is written. *)
Theorem csv_holds_every_row :
  forall params file_open out res,
    run_simulation_output params file_open = Some out ->
    run_simulation params = Some res ->
    csv_rows out = if file_open then map columns (samples res) else [].
Proof.
  intros params fo out res Hout Hrun.
  destruct (run_simulation_output_inv _ _ _ Hout) as (res' & Hrun' & ->).
  rewrite Hrun in Hrun'. injection Hrun' as <-. apply csv_rows_render.
Qed.

Lemma csv_holds_every_row_witness :
  exists out res,
    run_simulation_output short_run true = Some out
    /\ run_simulation short_run = Some res
    /\ csv_rows out = map columns (samples res).
Proof.
  destruct (run_simulation_output short_run true) as [out|] eqn:Eo;
    [|vm_compute in Eo; discriminate Eo].
  destruct (run_simulation short_run) as [res|] eqn:Er;
    [|vm_compute in Er; discriminate Er].
  exists out, res. split; [reflexivity|]. split; [reflexivity|].
  exact (csv_holds_every_row short_run true out res Eo Er).
Defined.

(** X6: the console table shows the rows whose counter is a multiple of ten
    and no others, so a run of [n] rows prints [ceil (n / 10)] of them,
    whether or not the file could be opened. *)
Theorem console_shows_every_tenth_row :
  forall params file_open out res,
    run_simulation_output params file_open = Some out ->
    run_simulation params = Some res ->
    console_rows out = map columns (filter tenth (samples res))
    /\ length (console_rows out) = ((length (samples res) + 9) / 10)%nat.
Proof.
  intros params fo out res Hout Hrun.
  destruct (run_simulation_output_inv _ _ _ Hout) as (res' & Hrun' & ->).
  rewrite Hrun in Hrun'. injection Hrun' as <-.
  rewrite console_rows_render. split; [reflexivity|].
  rewrite length_map. unfold run_simulation in Hrun.
  destruct (double_to_int _) as [steps|]; [|discriminate].
  rewrite (sim_loop_trajectory _ _ _ _ _ _ Hrun) at 1.
  apply Nat2Z.inj. rewrite tenth_count by lia.
  rewrite Nat2Z.inj_div, Nat2Z.inj_add. cbn [Z.of_nat Pos.of_succ_nat Pos.succ].
  change ((0 + 9) / 10)%Z with 0%Z. now rewrite Z.sub_0_r.
Qed.

Lemma console_shows_every_tenth_row_witness :
  exists out res,
    run_simulation_output bacteria false = Some out
    /\ run_simulation bacteria = Some res
    /\ console_rows out = map columns (filter tenth (samples res))
    /\ length (console_rows out) = ((length (samples res) + 9) / 10)%nat.
Proof.
  destruct (run_simulation_output bacteria false) as [out|] eqn:Eo;
    [|vm_compute in Eo; discriminate Eo].
  destruct (run_simulation bacteria) as [res|] eqn:Er;
    [|vm_compute in Er; discriminate Er].
  exists out, res. split; [reflexivity|]. split; [reflexivity|].
  exact (console_shows_every_tenth_row bacteria false out res Eo Er).
Defined.

Lemma filter_on_console_rows :
  forall l,
    filter on_console (flat_map (row_output true) l) = flat_map (row_output false) l.
Proof.
  induction l as [|s l IH]; [reflexivity|].
  cbn [flat_map]. rewrite filter_app, IH. unfold row_output.
  now destruct (Z.rem (row_i s) 10 =? 0)%Z.
Qed.

Lemma filter_on_console_closed :
  forall l,
    filter on_console (flat_map (row_output false) l) = flat_map (row_output false) l.
Proof.
  induction l as [|s l IH]; [reflexivity|].
  cbn [flat_map]. rewrite filter_app, IH. unfold row_output.
  now destruct (Z.rem (row_i s) 10 =? 0)%Z.
Qed.

(** X7: a failure to open [population_data.csv] is silent.  The run is
    defined or not as with the file; it writes to the console only, and what
    it writes is the console output of the run with the file, less the
    closing message. *)
Theorem file_failure_is_silent :
  forall params out,
    run_simulation_output params true = Some out ->
    exists out',
      run_simulation_output params false = Some out'
      /\ filter on_console out' = out'
      /\ filter on_console out = out' ++ [SavedMessage].
Proof.
  intros params out Hout.
  destruct (run_simulation_output_inv _ _ _ Hout) as (res & Hrun & ->).
  exists (render params false res). split.
  - rewrite run_simulation_output_render, Hrun. reflexivity.
  - unfold render, render_loop. cbn [app filter on_console].
    rewrite !app_nil_r, !filter_app, filter_on_console_rows, filter_on_console_closed.
    destruct (capacity_reached res); cbn; split; try reflexivity;
      now rewrite <- ?app_assoc.
Qed.

Lemma file_failure_is_silent_witness :
  exists out out',
    run_simulation_output short_run true = Some out
    /\ run_simulation_output short_run false = Some out'
    /\ filter on_console out' = out'
    /\ filter on_console out = out' ++ [SavedMessage].
Proof.
  destruct (run_simulation_output short_run true) as [out|] eqn:Eo;
    [|vm_compute in Eo; discriminate Eo].
  destruct (file_failure_is_silent short_run out Eo) as (out' & H1 & H2 & H3).
  exists out, out'. repeat split; assumption.
Defined.


(** ** A population that is not a number *)

Lemma logistic_growth_nan :
  forall t params, logistic_growth t nan params = nan.
Proof.
  intros t params. unfold logistic_growth. now rewrite mul_nan_r, mul_nan_l.
Qed.

Lemma runge_kutta_4_nan :
  forall t h params, runge_kutta_4 t nan h params = nan.
Proof. intros t h params. unfold runge_kutta_4. cbv zeta. apply add_nan_l. Qed.

Lemma sim_loop_nan :
  forall params n i t res,
    sim_loop params n i t nan = Some res ->
    capacity_reached res = false
    /\ final_P res = nan
    /\ length (samples res) = n
    /\ Forall (fun s => row_P s = nan /\ growth_rate s = nan /\ percentage_K s = nan)
         (samples res).
Proof.
  intros params n; induction n as [|n IH]; intros i t res H.
  - injection H as <-. repeat split. constructor.
  - assert (Hf : fires params t nan = false).
    { unfold fires. rewrite runge_kutta_4_nan. apply leb_nan_r. }
    destruct (sim_loop_continue _ _ _ _ _ _ Hf H) as (res' & H' & Hs & _ & HP & Hc).
    rewrite runge_kutta_4_nan in H'.
    destruct (IH _ _ _ H') as (Hc' & HP' & Hl & Hall).
    rewrite Hs, HP, Hc. repeat split; try assumption.
    + cbn [length]. now rewrite Hl.
    + constructor; [|assumption]. cbn [make_row row_P growth_rate percentage_K].
      repeat split.
      * apply logistic_growth_nan.
      * now rewrite div_nan_l, mul_nan_l.
Qed.

(** X8: an initial population that is not a number is never noticed.  A
    defined run then goes through all [steps + 1] iterations, every row has
    NaN for the population, the growth rate and the percentage, and the
    capacity message is not printed. *)
Theorem nan_population_runs_to_the_end :
  forall params res,
    params.(P0) = nan ->
    run_simulation params = Some res ->
    capacity_reached res = false
    /\ final_P res = nan
    /\ Forall (fun s => row_P s = nan /\ growth_rate s = nan /\ percentage_K s = nan)
         (samples res)
    /\ exists steps,
        double_to_int (params.(t_max) / params.(dt)) = Some steps
        /\ length (samples res) = Z.to_nat (steps + 1).
Proof.
  intros params res HP Hrun. unfold run_simulation in Hrun. rewrite HP in Hrun.
  destruct (double_to_int _) as [steps|]; [|discriminate].
  destruct (sim_loop_nan _ _ _ _ _ Hrun) as (Hc & Hf & Hl & Hall).
  repeat split; try assumption. now exists steps.
Qed.

Lemma nan_population_runs_to_the_end_witness :
  exists res,
    run_simulation undefined_population = Some res
    /\ capacity_reached res = false
    /\ final_P res = nan
    /\ Forall (fun s => row_P s = nan /\ growth_rate s = nan /\ percentage_K s = nan)
         (samples res)
    /\ exists steps,
        double_to_int (undefined_population.(t_max) / undefined_population.(dt))
        = Some steps
        /\ length (samples res) = Z.to_nat (steps + 1).
Proof.
  destruct (run_simulation undefined_population) as [res|] eqn:E;
    [|vm_compute in E; discriminate E].
  exists res. split; [reflexivity|].
  exact (nan_population_runs_to_the_end undefined_population res eq_refl E).
Defined.

(** ** Starting at the capacity *)

(** X9: a run that starts at a finite capacity, with [r * K] and [dt]
    finite, ends in its first iteration: one row, the population still [K]
    after the step, and the capacity message for [t = dt]. *)
Theorem start_at_capacity_stops_at_once :
  forall params steps,
    valid_params params = true ->
    params.(P0) = params.(K) ->
    is_finite params.(K) = true ->
    is_finite (params.(r) * params.(K)) = true ->
    is_finite params.(dt) = true ->
    double_to_int (params.(t_max) / params.(dt)) = Some steps ->
    run_simulation params
    = Some {| samples := [make_row params 0%Z 0 params.(K)];
              final_t := params.(dt);
              final_P := params.(K);
              capacity_reached := true |}.
Proof.
  intros params steps Hv HP HK HrK Hdt Hsteps.
  pose proof (steps_nonneg params steps Hv Hsteps) as H0.
  destruct (valid_params_inv params Hv) as (_ & HK0 & _ & _ & Hdt0).
  assert (Hstep : forall t, runge_kutta_4 t params.(K) params.(dt) params = params.(K)).
  { intros t. apply runge_kutta_4_stationary; [assumption| |].
    - intros t'. now apply logistic_growth_at_K.
    - intros z Hz. apply add_Zr_r; [|assumption]. now apply ltb_zero_finite. }
  assert (Hf : fires params 0 params.(K) = true).
  { unfold fires. rewrite Hstep. now apply mul_0999_le. }
  unfold run_simulation. rewrite Hsteps, HP.
  replace (Z.to_nat (steps + 1)) with (S (Z.to_nat steps)) by lia.
  rewrite (sim_loop_fire _ _ _ _ _ Hf), Hstep, (add_zero_l _ Hdt0). reflexivity.
Qed.

Lemma start_at_capacity_stops_at_once_witness :
  run_simulation saturated_run
  = Some {| samples := [make_row saturated_run 0%Z 0 saturated_run.(K)];
            final_t := saturated_run.(dt);
            final_P := saturated_run.(K);
            capacity_reached := true |}.
Proof.
  apply (start_at_capacity_stops_at_once saturated_run 500%Z);
    vm_compute; reflexivity.
Defined.

(** ** The validation and [main] *)

(** X10: the validation of [input_parameters] lets through exactly the
    entries whose five values are each above zero or not a number. *)
Theorem validation_accepts_positive_or_nan :
  forall inp,
    input_parameters inp
    = if positive_or_nan inp.(in_r) && positive_or_nan inp.(in_K)
         && positive_or_nan inp.(in_P0) && positive_or_nan inp.(in_t_max)
         && positive_or_nan inp.(in_dt)
      then Some ({| r := inp.(in_r); K := inp.(in_K); P0 := inp.(in_P0);
                    t_max := inp.(in_t_max); dt := inp.(in_dt) |},
                 inp.(in_K) <=? inp.(in_P0))
      else None.
Proof.
  intros inp. unfold input_parameters, positive_or_nan. cbn [r K P0 t_max dt].
  rewrite !leb_zero_positive_or_nan.
  destruct ((0 <? in_r inp) || negb (in_r inp =? in_r inp)),
           ((0 <? in_K inp) || negb (in_K inp =? in_K inp)),
           ((0 <? in_P0 inp) || negb (in_P0 inp =? in_P0 inp)),
           ((0 <? in_t_max inp) || negb (in_t_max inp =? in_t_max inp)),
           ((0 <? in_dt inp) || negb (in_dt inp =? in_dt inp)); reflexivity.
Qed.

Lemma preset_checked :
  forall n params,
    preset n = Some params ->
    (params.(r) <=? 0) = false /\ (params.(K) <=? 0) = false
    /\ (params.(P0) <=? 0) = false /\ (params.(t_max) <=? 0) = false
    /\ (params.(dt) <=? 0) = false.
Proof.
  intros n params H. unfold preset in H.
  destruct n as [|p|p]; try discriminate H.
  destruct p as [[p|p|]|[p|p|]|]; try discriminate H;
    injection H as <-; cbn [r K P0 t_max dt];
    repeat split; vm_compute; reflexivity.
Qed.

(** X11: [main] only ever simulates checked parameters.  When a run of
    [main] completes, the analysis and the simulation are those of one
    parameter set, none of whose five values is zero or below; the warning can
    only have been printed on the manual path, and then [P0 >= K]. *)
Theorem main_simulates_checked_parameters :
  forall log inp warned a s,
    main log inp = Some (Completed warned a s) ->
    exists params,
      a = analyze_model log params
      /\ run_simulation params = Some s
      /\ (params.(r) <=? 0) = false /\ (params.(K) <=? 0) = false
      /\ (params.(P0) <=? 0) = false /\ (params.(t_max) <=? 0) = false
      /\ (params.(dt) <=? 0) = false
      /\ (warned = true -> inp.(choice) = 1%Z /\ (params.(K) <=? params.(P0)) = true).
Proof.
  intros log inp warned a s H. unfold main in H.
  destruct (choice inp) as [|p|p] eqn:Hc; try discriminate H.
  destruct p as [[p|p|]|[p|p|]|]; try discriminate H.
  - (* choice 2 *)
    destruct (preset (scenario inp)) as [params|] eqn:Hp; [|discriminate H].
    unfold analyze_then_run in H.
    destruct (run_simulation params) as [s'|] eqn:Hr; [|discriminate H].
    injection H as <- <- <-. exists params.
    destruct (preset_checked _ _ Hp) as (H1 & H2 & H3 & H4 & H5).
    repeat split; try assumption; congruence.
  - (* choice 1 *)
    unfold input_parameters in H.
    match type of H with
    | context [if ?c then _ else _] => destruct c eqn:Hv
    end; [discriminate H|].
    unfold analyze_then_run in H.
    match type of H with
    | context [run_simulation ?p] => set (params := p) in *
    end.
    destruct (run_simulation params) as [s'|] eqn:Hr; [|discriminate H].
    injection H as <- <- <-. exists params.
    apply orb_false_elim in Hv as [Hv H5]. apply orb_false_elim in Hv as [Hv H4].
    apply orb_false_elim in Hv as [Hv H3]. apply orb_false_elim in Hv as [H1 H2].
    repeat split; assumption.
Qed.

Lemma main_simulates_checked_parameters_witness :
  exists warned a s params,
    main log_sign (manual_inputs crowded_run) = Some (Completed warned a s)
    /\ a = analyze_model log_sign params
    /\ run_simulation params = Some s
    /\ (params.(r) <=? 0) = false /\ (params.(K) <=? 0) = false
    /\ (params.(P0) <=? 0) = false /\ (params.(t_max) <=? 0) = false
    /\ (params.(dt) <=? 0) = false
    /\ (warned = true ->
        (manual_inputs crowded_run).(choice) = 1%Z
        /\ (params.(K) <=? params.(P0)) = true).
Proof.
  destruct (main log_sign (manual_inputs crowded_run)) as [[| | |warned a s]|] eqn:E;
    try (vm_compute in E; discriminate E).
  destruct (main_simulates_checked_parameters log_sign (manual_inputs crowded_run)
              warned a s E) as (params & H).
  exists warned, a, s, params. split; [reflexivity | exact H].
Defined.

(** ** The sign of the growth rate and the percentage column *)

(** X12: with [r] and [K] positive, the growth rate of a population between
    0 and [K] is never negative. *)
Theorem growth_not_negative_up_to_capacity :
  forall t P params,
    (0 <? params.(r)) = true -> (0 <? params.(K)) = true ->
    (0 <=? P) = true -> (P <=? params.(K)) = true ->
    (logistic_growth t P params <? 0) = false.
Proof.
  intros t P params Hr HK HP HPK. unfold logistic_growth.
  apply mul_not_negative.
  - apply mul_not_negative; [now apply leb_ltb_false, ltb_leb | now apply leb_ltb_false].
  - apply (proj1 (one_sub_sign _)). apply div_le_one_any; [assumption|].
    now apply leb_ltb_false.
Qed.

Lemma growth_not_negative_up_to_capacity_witness :
  (logistic_growth 0 10 bacteria <? 0) = false.
Proof.
  apply (growth_not_negative_up_to_capacity 0 10 bacteria); vm_compute; reflexivity.
Defined.

(** X13: with [r] and [K] positive, the growth rate of a population of [K]
    or more is never positive. *)
Theorem growth_not_positive_from_capacity :
  forall t P params,
    (0 <? params.(r)) = true -> (0 <? params.(K)) = true ->
    (params.(K) <=? P) = true ->
    (0 <? logistic_growth t P params) = false.
Proof.
  intros t P params Hr HK HKP. unfold logistic_growth.
  apply mul_not_positive.
  - apply mul_not_negative; [now apply leb_ltb_false, ltb_leb|].
    apply leb_ltb_false. apply leb_trans with (2 := HKP). now apply ltb_leb.
  - apply (proj2 (one_sub_sign _)). now apply div_ge_one.
Qed.

Lemma growth_not_positive_from_capacity_witness :
  (0 <? logistic_growth 0 600 crowded_run) = false.
Proof.
  apply (growth_not_positive_from_capacity 0 600 crowded_run); vm_compute; reflexivity.
Defined.

Lemma trajectory_columns :
  forall params m i t P,
    Forall (fun s => growth_rate s = logistic_growth (row_t s) (row_P s) params
                     /\ percentage_K s = row_P s / params.(K) * 100)
      (trajectory params m i t P).
Proof.
  intros params m; induction m as [|m IH]; intros i t P; constructor.
  - split; reflexivity.
  - apply IH.
Qed.

(** X14: in a run that does not start above a positive capacity, no row
    shows more than 100 in the percentage column. *)
Theorem percentage_not_above_100 :
  forall params res,
    (0 <? params.(K)) = true ->
    (params.(K) <? params.(P0)) = false ->
    run_simulation params = Some res ->
    Forall (fun s => (100 <? percentage_K s) = false) (samples res).
Proof.
  intros params res HK HP Hrun. unfold run_simulation in Hrun.
  destruct (double_to_int _) as [steps|]; [|discriminate].
  pose proof (sim_loop_below_capacity _ _ _ _ _ _ HK HP Hrun) as Hbelow.
  pose proof (trajectory_columns params (length (samples res)) 0%Z 0 params.(P0)) as Hcol.
  rewrite <- (sim_loop_trajectory _ _ _ _ _ _ Hrun) in Hcol.
  rewrite Forall_forall in *. intros s Hs.
  destruct (Hcol s Hs) as [_ ->]. apply mul_100_le.
  apply div_le_one_any; [assumption | now apply Hbelow].
Qed.

Lemma percentage_not_above_100_witness :
  exists res,
    run_simulation coarse_run = Some res
    /\ Forall (fun s => (100 <? percentage_K s) = false) (samples res).
Proof.
  destruct (run_simulation coarse_run) as [res|] eqn:E;
    [|vm_compute in E; discriminate E].
  exists res. split; [reflexivity|].
  apply (percentage_not_above_100 coarse_run res); [reflexivity | reflexivity | exact E].
Defined.

(** ** A duration that is not a number *)

Lemma run_simulation_no_steps :
  forall params,
    params.(t_max) / params.(dt) = nan \/ params.(t_max) / params.(dt) = infinity ->
    run_simulation params = None.
Proof.
  intros params [E | E]; unfold run_simulation; rewrite E; reflexivity.
Qed.

(** X15: a manual entry with [t_max] NaN or infinite, or [dt] NaN, that
    passes the validation makes the cast [(int)(t_max / dt)] undefined: the
    quotient is NaN or infinite, and [main] runs into it. *)
Theorem unbounded_duration_is_undefined :
  forall log inp,
    inp.(choice) = 1%Z ->
    input_parameters inp <> None ->
    inp.(in_t_max) = nan \/ inp.(in_t_max) = infinity \/ inp.(in_dt) = nan ->
    main log inp = None.
Proof.
  intros log inp Hc Hv Hcase. unfold main. rewrite Hc.
  unfold input_parameters in *. cbn [r K P0 t_max dt] in *.
  destruct (_ || _)%bool eqn:Hchk; [now elim Hv|].
  apply orb_false_elim in Hchk as [_ Hdt].
  unfold analyze_then_run. rewrite run_simulation_no_steps; [reflexivity|].
  cbn [t_max dt].
  destruct Hcase as [-> | [-> | ->]].
  - left. apply div_nan_l.
  - destruct (div_infinity_l _ Hdt) as [-> | ->]; [now right | now left].
  - left. apply div_nan_r.
Qed.

Lemma unbounded_duration_is_undefined_witness :
  main log_sign (manual_inputs endless_run) = None.
Proof.
  apply (unbounded_duration_is_undefined log_sign (manual_inputs endless_run)).
  - reflexivity.
  - vm_compute. discriminate.
  - right. left. reflexivity.
Defined.

(** ** The largest step count *)

Lemma sim_loop_exhausted :
  forall params n i t P res,
    (i <= INT_MAX)%Z ->
    sim_loop params (S n) i t P = Some res ->
    capacity_reached res = false ->
    (i + Z.of_nat (S n) <= INT_MAX)%Z.
Proof.
  intros params n; induction n as [|n IH]; intros i t P res Hi H Hc.
  - cbn [sim_loop] in H.
    destruct (params.(K) * 0.999 <=? _).
    + injection H as <-. discriminate Hc.
    + destruct (Z.eqb_spec i INT_MAX) as [E|E]; [discriminate H|]. lia.
  - destruct (fires params t P) eqn:Hf.
    + rewrite (sim_loop_fire _ _ _ _ _ Hf) in H. injection H as <-. discriminate Hc.
    + assert (Hne : i <> INT_MAX).
      { intros ->. unfold fires in Hf. cbn [sim_loop] in H. rewrite Hf in H.
        discriminate H. }
      destruct (sim_loop_continue _ _ _ _ _ _ Hf H) as (res' & H' & _ & _ & _ & Hc').
      rewrite Hc' in Hc.
      pose proof (IH (i + 1)%Z _ _ _ ltac:(lia) H' Hc). lia.
Qed.

(** X16: with a step count of [INT_MAX] the loop condition [i <= steps]
    never fails, so a defined run can only have ended through the [break]:
    without it the increment of [i] overflows. *)
Theorem largest_step_count_ends_by_break :
  forall params res,
    double_to_int (params.(t_max) / params.(dt)) = Some INT_MAX ->
    run_simulation params = Some res ->
    capacity_reached res = true.
Proof.
  intros params res Hsteps Hrun. unfold run_simulation in Hrun. rewrite Hsteps in Hrun.
  destruct (capacity_reached res) eqn:Hc; [reflexivity|].
  replace (Z.to_nat (INT_MAX + 1)) with (S (Z.to_nat INT_MAX)) in Hrun
    by (unfold INT_MAX; lia).
  pose proof (sim_loop_exhausted params _ 0%Z _ _ _ ltac:(unfold INT_MAX; lia) Hrun Hc)
    as H.
  unfold INT_MAX in H. lia.
Qed.

Lemma largest_step_count_ends_by_break_witness :
  exists res,
    run_simulation longest_run = Some res /\ capacity_reached res = true.
Proof.
  assert (Hsteps : double_to_int (longest_run.(t_max) / longest_run.(dt)) = Some INT_MAX)
    by (vm_compute; reflexivity).
  assert (Hrun : run_simulation longest_run
                 = Some {| samples := [make_row longest_run 0%Z 0 longest_run.(P0)];
                           final_t := 0 + longest_run.(dt);
                           final_P := runge_kutta_4 0 longest_run.(P0) longest_run.(dt)
                                        longest_run;
                           capacity_reached := true |}).
  { unfold run_simulation. rewrite Hsteps.
    replace (Z.to_nat (INT_MAX + 1)) with (S (Z.to_nat INT_MAX))
      by (unfold INT_MAX; lia).
    apply sim_loop_fire. vm_compute. reflexivity. }
  eexists. split; [exact Hrun|].
  exact (largest_step_count_ends_by_break longest_run _ Hsteps Hrun).
Defined.
